(** * Aureon campaign manager: the dashboard's arithmetic core

    A shallow embedding of the calculation helpers of the dashboard
    component ([computeForecast], [clampPercent], [setAllocForChannel],
    [computeCompositeImprovement], [findParentPanel], [applyImprovement],
    [computeAdjustedImprovement], [generateVariant], and of the later
    copy also [computeAudienceSuggestions] and
    [refreshAudienceSentiment]), the properties the specification states
    about them, and further properties read off the code.  The
    repository holds two copies of the component, [src/App.tsx] and a
    later one that writes the insight table inline; the helpers are the
    same in both, and everything about [findParentPanel] and
    [applyImprovement] is proved for an arbitrary insight table.

    JavaScript numbers are IEEE 754 binary64 values.  They are modelled by
    the Standard Library's executable specification of binary floating
    point ([spec_float] at precision 53 and maximal exponent 1024), so
    every arithmetic step below rounds exactly as the engine does, and
    [NaN], the infinities and the two zeros are first-class values.

    The component state is passed explicitly: a handler is a function of
    the state it runs in, and a handler that would throw returns [None].
    [Math.random] is a parameter of the handler that calls it.

    Bounds on rounded quotients and products are proved over the
    rationals: one rounding moves a value by at most one unit in the last
    place, and [Math.round] of the result is pinned down from there. *)

From Stdlib Require Import ZArith Bool List String Lia.
From Stdlib Require Import QArith Qpower Lqa.
From Stdlib Require Import Floats.SpecFloat.
Import ListNotations.

Local Open Scope Z_scope.

(** ** JavaScript numbers and the built-ins the source calls *)

Module JS.

Definition number := spec_float.

Definition prec : Z := 53.
Definition emax : Z := 1024.

Definition NaN : number := S754_nan.
Definition Infinity : number := S754_infinity false.
Definition NegInfinity : number := S754_infinity true.

(** Binary operators [+], [-], [*], [/] of the language. *)
Definition add : number -> number -> number := SFadd prec emax.
Definition sub : number -> number -> number := SFsub prec emax.
Definition mul : number -> number -> number := SFmul prec emax.
Definition div : number -> number -> number := SFdiv prec emax.

(** An integer literal, and a decimal literal [m / 10^d] such as [13.3]:
    the nearest binary64 value, as the parser produces it. *)
Definition ofZ (z : Z) : number := binary_normalize prec emax z 0 false.
Definition dec (m : Z) (d : Z) : number := div (ofZ m) (ofZ (10 ^ d)).

(** Relational operators; every comparison with [NaN] is false, and
    [!==] is the negation of [===]. *)
Definition lt (a b : number) : bool := SFltb a b.
Definition gt (a b : number) : bool := SFltb b a.
Definition le (a b : number) : bool := SFleb a b.
Definition strictEq (a b : number) : bool := SFeqb a b.
Definition strictNe (a b : number) : bool := negb (SFeqb a b).

Definition isNaN (a : number) : bool :=
  match a with S754_nan => true | _ => false end.

Definition isFinite (a : number) : bool :=
  match a with S754_zero _ | S754_finite _ _ _ => true | _ => false end.

(** [ToBoolean] on a number: [NaN], [+0] and [-0] are falsy. *)
Definition truthy (a : number) : bool :=
  match a with S754_nan | S754_zero _ => false | _ => true end.

(** [a || b] on numbers. *)
Definition or (a b : number) : number := if truthy a then a else b.

(** [Math.max(a, b)] and [Math.min(a, b)]: [NaN] is contagious and
    [+0] counts as larger than [-0]. *)
Definition Math_max (a b : number) : number :=
  match a, b with
  | S754_nan, _ | _, S754_nan => S754_nan
  | S754_zero true, S754_zero false => b
  | _, _ => if SFltb a b then b else a
  end.

Definition Math_min (a b : number) : number :=
  match a, b with
  | S754_nan, _ | _, S754_nan => S754_nan
  | S754_zero false, S754_zero true => b
  | _, _ => if SFltb b a then b else a
  end.

(** The mathematical integer [floor (x + 1/2)] and [floor x] of the finite
    value [(-1)^s * m * 2^e]. *)
Definition signed (s : bool) (m : positive) : Z := cond_Zopp s (Zpos m).

Definition round_half_up (s : bool) (m : positive) (e : Z) : Z :=
  if 0 <=? e then signed s m * 2 ^ e
  else (2 * signed s m + 2 ^ (- e)) / (2 * 2 ^ (- e)).

Definition floor_int (s : bool) (m : positive) (e : Z) : Z :=
  if 0 <=? e then signed s m * 2 ^ e
  else signed s m / 2 ^ (- e).

(** [Math.round]: the nearest integer, ties towards [+Infinity]; the
    sign of the argument is kept when the result is zero.  A value whose
    exponent is not negative is an integer already. *)
Definition Math_round (x : number) : number :=
  match x with
  | S754_finite s m e =>
      if 0 <=? e then x
      else
        let z := round_half_up s m e in
        if z =? 0 then S754_zero s else ofZ z
  | _ => x
  end.

(** [Math.floor]. *)
Definition Math_floor (x : number) : number :=
  match x with
  | S754_finite s m e =>
      if 0 <=? e then x
      else
        let z := floor_int s m e in
        if z =? 0 then S754_zero s else ofZ z
  | _ => x
  end.

(** [+x.toFixed(f)]: [toFixed] prints the decimal [n / 10^f] nearest to
    [|x|] (the larger [n] on a tie) behind the sign of [x], and unary [+]
    reads the string back as the nearest binary64 value.  Values of
    magnitude [10^21] and more are printed by [ToString], which reads back
    as the value itself; [NaN] and the infinities print their names.

    [toFixed_digits m e f] is that integer [n] for the magnitude
    [m * 2^e]. *)
Definition toFixed_digits (m : positive) (e : Z) (f : Z) : Z :=
  (2 * 10 ^ f * Zpos m * 2 ^ (Z.max e 0) + 2 ^ (Z.max (- e) 0))
  / (2 * 2 ^ (Z.max (- e) 0)).

Definition toFixed_number (x : number) (f : Z) : number :=
  match x with
  | S754_zero _ => S754_zero false
  | S754_finite s m e =>
      if 10 ^ 21 * 2 ^ (Z.max (- e) 0) <=? Zpos m * 2 ^ (Z.max e 0) then x
      else
        match toFixed_digits m e f with
        | Zpos n => div (S754_finite s n 0) (ofZ (10 ^ f))
        | _ => S754_zero s
        end
  | _ => x
  end.

End JS.

Import JS.

Declare Scope js_scope.
Delimit Scope js_scope with js.
Bind Scope js_scope with number.
Infix "+" := add : js_scope.
Infix "-" := sub : js_scope.
Infix "*" := mul : js_scope.
Infix "/" := div : js_scope.

(** ** Helpers of [src/App.tsx] *)

Record Forecast := { CPA : number; Conversions : number }.

(** [computeForecast(last, improvement)] *)
Definition computeForecast (last : Forecast) (improvement : number) : Forecast :=
  let newCPA :=
    toFixed_number (CPA last * (ofZ 1 - improvement / ofZ 100))%js 2 in
  let newConversions :=
    Math_round (Conversions last * (ofZ 1 + improvement / ofZ 100))%js in
  {| CPA := newCPA; Conversions := newConversions |}.

(** [clampPercent(n)] *)
Definition clampPercent (n : number) : number :=
  if isNaN n then ofZ 0
  else if lt n (ofZ 0) then ofZ 0
  else if gt n (ofZ 100) then ofZ 100
  else Math_round n.

(** ** The media allocation and its redistribution *)

Inductive Channel := OOH | TV | Digital | CTV.

Definition Channel_eqb (a b : Channel) : bool :=
  match a, b with
  | OOH, OOH | TV, TV | Digital, Digital | CTV, CTV => true
  | _, _ => false
  end.

(** The object [{ OOH, TV, Digital, CTV }] with its four own keys, read
    and written by key as the source does with [obj[k]]. *)
Record Alloc := mkAlloc { a_OOH : number; a_TV : number; a_Digital : number; a_CTV : number }.

Definition get (a : Alloc) (k : Channel) : number :=
  match k with
  | OOH => a_OOH a | TV => a_TV a | Digital => a_Digital a | CTV => a_CTV a
  end.

Definition set (a : Alloc) (k : Channel) (v : number) : Alloc :=
  match k with
  | OOH => mkAlloc v (a_TV a) (a_Digital a) (a_CTV a)
  | TV => mkAlloc (a_OOH a) v (a_Digital a) (a_CTV a)
  | Digital => mkAlloc (a_OOH a) (a_TV a) v (a_CTV a)
  | CTV => mkAlloc (a_OOH a) (a_TV a) (a_Digital a) v
  end.

(** [Object.values], in key insertion order. *)
Definition values (a : Alloc) : list number :=
  [a_OOH a; a_TV a; a_Digital a; a_CTV a].

Definition keys : list Channel := [OOH; TV; Digital; CTV].

(** [useState({ OOH: 30, TV: 30, Digital: 25, CTV: 15 })] *)
Definition initialMediaAlloc : Alloc :=
  mkAlloc (ofZ 30) (ofZ 30) (ofZ 25) (ofZ 15).

(** [setAllocForChannel(channel, rawVal)], as a function of the current
    [mediaAlloc]; the result is the value handed to [setMediaAlloc]. *)
Definition setAllocForChannel (mediaAlloc : Alloc) (channel : Channel)
    (rawVal : number) : Alloc :=
  let val := Math_max (ofZ 0) (Math_min (ofZ 100) (Math_round rawVal)) in
  let others := filter (fun k => negb (Channel_eqb k channel)) keys in
  let prevOthersSum :=
    fold_left (fun s k => (s + get mediaAlloc k)%js) others (ofZ 0) in
  let remaining := Math_max (ofZ 0) (ofZ 100 - val)%js in
  let newAlloc := set mediaAlloc channel val in
  let newAlloc :=
    if gt prevOthersSum (ofZ 0) then
      fold_left
        (fun na o =>
           set na o (Math_round ((get mediaAlloc o / prevOthersSum) * remaining)%js))
        others newAlloc
    else
      let per := Math_floor (remaining / ofZ (Z.of_nat (List.length others)))%js in
      let newAlloc := fold_left (fun na o => set na o per) others newAlloc in
      let sumNow := fold_left (fun s o => (s + get newAlloc o)%js) others (ofZ 0) in
      let rem := (remaining - sumNow)%js in
      if gt rem (ofZ 0) then
        match others with
        | o0 :: _ => set newAlloc o0 (get newAlloc o0 + rem)%js
        | [] => newAlloc
        end
      else newAlloc in
  let total :=
    fold_left (fun s n => (s + JS.or n (ofZ 0))%js) (values newAlloc) (ofZ 0) in
  if strictNe total (ofZ 100) then
    let delta := (ofZ 100 - total)%js in
    let firstAdjustKey :=
      match find (fun k => negb (Channel_eqb k channel)) keys with
      | Some k => k
      | None => channel
      end in
    set newAlloc firstAdjustKey
      (Math_max (ofZ 0) (JS.or (get newAlloc firstAdjustKey) (ofZ 0) + delta)%js)
  else newAlloc.

(** ** The composite improvement *)

Local Open Scope string_scope.
Local Open Scope list_scope.

Definition mediaInventorySubcategories : list (string * number) :=
  [ ("Out-of-Home (OOH)", dec 133 1);
    ("TV", dec 102 1);
    ("Digital", dec 39 1);
    ("Connected TV", dec 22 1) ].

Definition dataFeedSubcategories : list (string * number) :=
  [ ("CDP Data (batch or real-time)", ofZ 5);
    ("Product Catalog Data", ofZ 4);
    ("Identity Data (personalization)", ofZ 6);
    ("Variant Scaling Data (colors, headlines, CTAs)", ofZ 3) ].

(** Property lookup [obj[key]] in an object literal given by its entries;
    [None] stands for [undefined]. *)
Fixpoint lookup {A : Type} (obj : list (string * A)) (key : string) : option A :=
  match obj with
  | [] => None
  | (k, v) :: rest => if String.eqb k key then Some v else lookup rest key
  end.

(** [computeCompositeImprovement(alloc)] *)
Definition computeCompositeImprovement (alloc : Alloc) : number :=
  let mapping : list (string * number) :=
    [ ("Out-of-Home (OOH)", a_OOH alloc);
      ("TV", a_TV alloc);
      ("Digital", a_Digital alloc);
      ("Connected TV", a_CTV alloc) ] in
  let total := fold_left (fun s v => (s + v)%js) (map snd mapping) (ofZ 0) in
  if le total (ofZ 0) then ofZ 0
  else
    let weighted :=
      fold_left
        (fun weighted s =>
           let pct := match lookup mapping (fst s) with Some v => v | None => ofZ 0 end in
           (weighted + (pct / total) * snd s)%js)
        mediaInventorySubcategories (ofZ 0) in
    (Math_round (weighted * ofZ 10) / ofZ 10)%js.

(** ** Panels, insights and the performance log *)

Record PerformancePoint := {
  cycle : string;
  actualCPA : number;
  actualConversions : number;
  forecastCPA : number;
  forecastConversions : number
}.

Record AICycleActivity := {
  act_cycle : string;
  suggested : list string;
  implemented : list string;
  requestedButNotControlled : list string
}.

Record Insight := {
  text : string;
  improvement : number;
  aiControl : list string;
  aiRequest : list string
}.

Definition initialPerformanceData : list PerformancePoint :=
  [ {| cycle := "Cycle 1"; actualCPA := ofZ 48; actualConversions := ofZ 150;
       forecastCPA := ofZ 50; forecastConversions := ofZ 125 |};
    {| cycle := "Cycle 2"; actualCPA := ofZ 43; actualConversions := ofZ 155;
       forecastCPA := ofZ 45; forecastConversions := ofZ 150 |};
    {| cycle := "Cycle 3"; actualCPA := ofZ 40; actualConversions := ofZ 175;
       forecastCPA := ofZ 42; forecastConversions := ofZ 165 |};
    {| cycle := "Cycle 4"; actualCPA := ofZ 38; actualConversions := ofZ 195;
       forecastCPA := ofZ 40; forecastConversions := ofZ 190 |} ].

(** The insight table of [src/App.tsx]. *)
Definition baseInsights : list (string * Insight) :=
  [ ("Audience",
     {| text := "Refine audience targeting towards high converters to reduce CPA.";
        improvement := ofZ 8;
        aiControl := ["Lookalike audience expansion"; "Demographic targeting refinements"];
        aiRequest := ["Access to CRM segments"; "Geo-location targeting permissions"] |});
    ("Landing Page",
     {| text := "Run A/B tests with simplified layouts to improve conversion rates.";
        improvement := ofZ 10;
        aiControl := ["Headline/CTA suggestions"; "Layout recommendations"];
        aiRequest := ["Ability to modify landing page templates";
                      "Access to form conversion data"] |});
    ("Media Inventory",
     {| text := "Shift spend towards publishers delivering the lowest CPA. Based on goals (e.g., awareness), some channels are more effective than others.";
        improvement := ofZ 6;
        aiControl := ["Budget allocation recommendations"; "Channel performance analysis"];
        aiRequest := ["Authority to adjust media mix"; "Direct DSP access"] |});
    ("Creative",
     {| text := "Test new ad concepts with different CTAs and visuals to boost engagement.";
        improvement := ofZ 12;
        aiControl := ["Automated creative variant generation"; "Dynamic CTA testing"];
        aiRequest := ["Direct integration with creative approval workflows";
                      "Access to DAM for assets"] |});
    ("Data Feed Optimization",
     {| text := "Leverage DCO to personalize creative with real-time product data.";
        improvement := ofZ 7;
        aiControl := ["Real-time feed monitoring"; "Automated variant insertion"];
        aiRequest := ["Permission to modify product catalog fields";
                      "Deeper CDP integration"] |}) ].

(** The second copy of the component writes the table inline, with one
    more entry. *)
Definition inlineInsights : list (string * Insight) :=
  (baseInsights ++
   [ ("AI Activities",
      {| text := EmptyString; improvement := ofZ 0; aiControl := []; aiRequest := [] |}) ]).

(** The part of the component state the helpers read and write. *)
Record AppState := {
  mediaAlloc : Alloc;
  performanceData : list PerformancePoint;
  aiActivities : list AICycleActivity
}.

(** The pre-populated activity history of cycles 1 to 4. *)
Definition initialAiActivities : list AICycleActivity :=
  [ {| act_cycle := "Cycle 1";
       suggested :=
         ["Refine audience targeting towards high converters to reduce CPA.";
          "Expand lookalike audiences focused on recent purchasers."];
       implemented :=
         ["Did: Lookalike audience expansion";
          "Did: Demographic targeting refinements";
          "Applied forecast change: +8% → Audience"];
       requestedButNotControlled :=
         ["Requested: Access to CRM segments";
          "Requested: Geo-location targeting permissions"] |};
    {| act_cycle := "Cycle 2";
       suggested :=
         ["Run A/B tests with simplified layouts to improve conversion rates.";
          "Prioritize headline and CTA variants on high-traffic pages."];
       implemented :=
         ["Did: Headline/CTA suggestions";
          "Did: Layout recommendations (A/B setup)";
          "Applied forecast change: +10% → Landing Page"];
       requestedButNotControlled :=
         ["Requested: Ability to modify landing page templates";
          "Requested: Access to form conversion data"] |};
    {| act_cycle := "Cycle 3";
       suggested :=
         ["Shift spend towards publishers delivering the lowest CPA.";
          "Rebalance budget to increase delivery on top-performing channels."];
       implemented :=
         ["Did: Budget allocation recommendations";
          "Did: Channel performance analysis and reweighting";
          "Applied forecast change: +6% → Media Inventory"];
       requestedButNotControlled :=
         ["Requested: Authority to adjust media mix";
          "Requested: Direct DSP access"] |};
    {| act_cycle := "Cycle 4";
       suggested :=
         ["Test new ad concepts with different CTAs and visuals to boost engagement.";
          "Introduce dynamic CTAs for high-value segments."];
       implemented :=
         ["Did: Automated creative variant generation";
          "Did: Dynamic CTA testing";
          "Applied forecast change: +12% → Creative"];
       requestedButNotControlled :=
         ["Requested: Direct integration with creative approval workflows";
          "Requested: Access to DAM for assets"] |} ].

(** The state of a freshly mounted component. *)
Definition initialState : AppState :=
  {| mediaAlloc := initialMediaAlloc;
     performanceData := initialPerformanceData;
     aiActivities := initialAiActivities |}.

Section App.

(** The insight table in scope, and [String(n)] of a number inside a
    template literal (used only for the text of the activity record). *)
Variable insights : list (string * Insight).
Variable numberToString : number -> string.

(** [array.includes(x)] and [array.some(s => s.name === label)] on strings. *)
Definition includes (l : list string) (x : string) : bool :=
  existsb (String.eqb x) l.

Definition someNamed {A : Type} (l : list (string * A)) (label : string) : bool :=
  existsb (fun s => String.eqb (fst s) label) l.

(** [findParentPanel(label)]; [None] is [undefined]. *)
Definition findParentPanel (label : string) : option string :=
  if includes (map fst insights) label then Some label
  else if someNamed mediaInventorySubcategories label then Some "Media Inventory"
  else if someNamed dataFeedSubcategories label then Some "Data Feed Optimization"
  else None.

(** Truthiness of [panelKey]: [undefined] and the empty string are falsy. *)
Definition truthyKey (panelKey : option string) : option string :=
  match panelKey with
  | Some k => if String.eqb k EmptyString then None else Some k
  | None => None
  end.

(** [improvement ?? (panelKey ? baseInsights[panelKey]?.improvement || 0 : 0)] *)
Definition chosenImprovement (panelKey : option string)
    (improvement_arg : option number) : number :=
  match improvement_arg with
  | Some imp => imp
  | None =>
      match truthyKey panelKey with
      | Some k =>
          match lookup insights k with
          | Some info => JS.or (improvement info) (ofZ 0)
          | None => ofZ 0
          end
      | None => ofZ 0
      end
  end.

(** [performanceData[performanceData.length - 1]] *)
Definition lastPoint (d : list PerformancePoint) : option PerformancePoint :=
  nth_error d (List.length d - 1).

(** [applyImprovement(label, improvement?)] as a state transformer.  Reading
    a field of [last] throws when the log is empty: that is [None].  The
    handler runs once per rendered state, so the list the updater receives
    is the [performanceData] the closure read [last] from. *)
Definition applyImprovement (label : string) (improvement_arg : option number)
    (st : AppState) : option AppState :=
  match lastPoint (performanceData st) with
  | None => None
  | Some last =>
      let panelKey := findParentPanel label in
      let imp := chosenImprovement panelKey improvement_arg in
      let fc :=
        computeForecast
          {| CPA := forecastCPA last; Conversions := forecastConversions last |}
          imp in
      let performanceData' :=
        (performanceData st ++
         [ {| cycle := ("Forecast: " ++ label)%string;
              actualCPA := actualCPA last;
              actualConversions := actualConversions last;
              forecastCPA := CPA fc;
              forecastConversions := Conversions fc |} ]) in
      let info :=
        match truthyKey panelKey with
        | Some k => lookup insights k
        | None => None
        end in
      let suggested :=
        match info with Some i => [text i] | None => [] end in
      let implemented :=
        (match info with
         | Some i => map (fun c => ("Did: " ++ c)%string) (aiControl i)
         | None => []
         end
         ++ [("Applied forecast change: +" ++ numberToString imp ++ "% → " ++ label)%string]) in
      let requested :=
        match info with
        | Some i => map (fun r => ("Requested: " ++ r)%string) (aiRequest i)
        | None => []
        end in
      let activity :=
        {| act_cycle := ("Forecast: " ++ label)%string;
           suggested := suggested;
           implemented := implemented;
           requestedButNotControlled := requested |} in
      Some {| mediaAlloc := mediaAlloc st;
              performanceData := performanceData';
              aiActivities := aiActivities st ++ [activity] |}
  end.

End App.

(** ** The adjusted estimate of the activities panel *)

(** [computeAdjustedImprovement(pct)], with the literal [0.75]. *)
Definition computeAdjustedImprovement (pct : number) : number :=
  if negb (JS.isFinite pct) || le pct (ofZ 0) then ofZ 0
  else Math_round (pct * dec 75 2)%js.

(** ** Creative variants *)

Module Creative.

Record Variant := { id : number; headline : string; cta : string }.

Definition initialVariants : list Variant :=
  [ {| id := ofZ 1; headline := "Shop Now for Exclusive Deals!"; cta := "Buy Now" |};
    {| id := ofZ 2; headline := "Limited Time Offer – Save Big Today!"; cta := "Shop Today" |} ].

(** [generateVariant()] on the list of variants of the rendered state;
    [numberToString] is [String(n)] inside the template literal. *)
Definition generateVariant (numberToString : number -> string)
    (variants : list Variant) : list Variant :=
  let newVariant :=
    {| id := (ofZ (Z.of_nat (List.length variants)) + ofZ 1)%js;
       headline :=
         ("AI Generated Headline "
          ++ numberToString (ofZ (Z.of_nat (List.length variants)) + ofZ 1)%js)%string;
       cta := "Learn More" |} in
  variants ++ [newVariant].

End Creative.

(** ** Audience sentiment ([src/unnamed/part_000]) *)

Module Audience.

Inductive Trend := up | down | flat.

Record SentimentCategory := {
  category : string;
  score : number;
  trend : Trend;
  topTerms : list string
}.

Record Suggestion := { title : string; reason : string; improvement : number }.

Definition initialAudienceSentiment : list SentimentCategory :=
  [ {| category := "Sustainability"; score := ofZ 78; trend := up;
       topTerms := ["recyclable"; "eco-friendly"; "sustain"] |};
    {| category := "Price"; score := ofZ 42; trend := down;
       topTerms := ["discount"; "sale"; "affordable"] |};
    {| category := "Quality"; score := ofZ 64; trend := up;
       topTerms := ["durable"; "premium"; "long-lasting"] |};
    {| category := "Customer Service"; score := ofZ 51; trend := flat;
       topTerms := ["support"; "return"; "warranty"] |} ].

Section Suggestions.

(** [String(n)] of a number inside a template literal. *)
Variable numberToString : number -> string.

(** [s.topTerms[0]] inside a template literal: an empty list prints
    [undefined]. *)
Definition firstTerm (s : SentimentCategory) : string :=
  match topTerms s with
  | t :: _ => t
  | [] => "undefined"
  end.

(** The suggestion the loop body pushes for [s]. *)
Definition suggestionFor (s : SentimentCategory) : Suggestion :=
  if le (ofZ 70) (score s) then
    {| title := ("Expand to interest: " ++ category s)%string;
       reason :=
         ("Positive trending sentiment (" ++ numberToString (score s)
          ++ "%). Target lookalikes and interest cohorts referencing "
          ++ firstTerm s ++ ".")%string;
       improvement := Math_max (ofZ 2) (Math_round (score s * dec 6 2)%js) |}
  else if le (ofZ 45) (score s) then
    {| title := ("A/B test messaging for " ++ category s)%string;
       reason :=
         ("Neutral sentiment (" ++ numberToString (score s)
          ++ "%). Run headline/CTA variants emphasizing "
          ++ firstTerm s ++ ".")%string;
       improvement := Math_max (ofZ 1) (Math_round (score s * dec 3 2)%js) |}
  else
    {| title := ("Retarget with reassurance on " ++ category s)%string;
       reason :=
         ("Lower sentiment (" ++ numberToString (score s)
          ++ "%). Use retargeting with guarantees, offers, or testimonials about "
          ++ firstTerm s ++ ".")%string;
       improvement := Math_max (ofZ 1) (Math_round (score s * dec 2 2)%js) |}.

(** [computeAudienceSuggestions(sentiments)]: the loop pushes one
    suggestion per category. *)
Definition computeAudienceSuggestions (sentiments : list SentimentCategory)
  : list Suggestion :=
  fold_left (fun suggestions s => suggestions ++ [suggestionFor s]) sentiments [].

(** The two pieces of state that [refreshAudienceSentiment] sets. *)
Record AudienceState := {
  audienceSentiment : list SentimentCategory;
  audienceSuggestions : list Suggestion
}.

Definition initialAudienceState : AudienceState :=
  {| audienceSentiment := initialAudienceSentiment;
     audienceSuggestions := computeAudienceSuggestions initialAudienceSentiment |}.

(** The body of the [map] callback of [refreshAudienceSentiment], for
    the value [random] that [Math.random()] returns. *)
Definition refreshed (random : number) (s : SentimentCategory) : SentimentCategory :=
  let jitter := Math_round ((random - dec 5 1) * ofZ 12)%js in
  let score' := Math_min (ofZ 100) (Math_max (ofZ 0) (score s + jitter)%js) in
  let trend' :=
    if gt jitter (ofZ 3) then up
    else if lt jitter (ofZ (-3)) then down
    else flat in
  {| category := category s; score := score'; trend := trend'; topTerms := topTerms s |}.

(** [audienceSentiment.map(...)]: the callback runs once per category,
    in order, and [random i] is the value of the [i]-th call of
    [Math.random()]. *)
Fixpoint mapRefreshed (random : nat -> number) (i : nat)
    (l : list SentimentCategory) : list SentimentCategory :=
  match l with
  | [] => []
  | s :: l' => refreshed (random i) s :: mapRefreshed random (S i) l'
  end.

(** [refreshAudienceSentiment()] as a state transformer. *)
Definition refreshAudienceSentiment (random : nat -> number)
    (st : AudienceState) : AudienceState :=
  let next := mapRefreshed random 0 (audienceSentiment st) in
  {| audienceSentiment := next;
     audienceSuggestions := computeAudienceSuggestions next |}.

End Suggestions.

End Audience.

(** * Specification-side definitions *)

Local Open Scope Z_scope.

(** ** Numbers *)

(** A well-formed number: a canonical binary64 representation. *)
Definition wf (x : number) : Prop := valid_binary prec emax x = true.

(** [p] shifted up to a mantissa of 53 digits. *)
Definition shl53 (p : positive) : positive :=
  match (53 - Zpos (digits2_pos p))%Z with
  | Zpos q => Pos.iter xO p q
  | _ => p
  end.

(** Structural equality of numbers, to decide equations by evaluation. *)
Definition number_eqb (a b : number) : bool :=
  match a, b with
  | S754_zero s, S754_zero s' => Bool.eqb s s'
  | S754_infinity s, S754_infinity s' => Bool.eqb s s'
  | S754_nan, S754_nan => true
  | S754_finite s m e, S754_finite s' m' e' =>
      Bool.eqb s s' && Pos.eqb m m' && Z.eqb e e'
  | _, _ => false
  end.

(** Checking a decidable property on every integer of an interval. *)
Definition Zrange (lo hi : Z) : list Z :=
  map (fun i => lo + Z.of_nat i) (seq 0 (Z.to_nat (hi - lo + 1))).

(** ** Clamping and rounding *)

(** The clamped slider value of [setAllocForChannel], and the integer it
    denotes. *)
Definition clampVal (rawVal : number) : number :=
  Math_max (ofZ 0) (Math_min (ofZ 100) (Math_round rawVal)).

Definition clampZ (x : number) : Z :=
  match x with
  | S754_finite s m e => Z.max 0 (Z.min 100 (round_half_up s m e))
  | S754_infinity false => 100
  | _ => 0
  end.

(** The integer a number denotes, when it denotes one; [-0] denotes 0. *)
Definition intValue (x : number) : option Z :=
  match x with
  | S754_zero _ => Some 0
  | S754_finite s m e =>
      if 0 <=? e then Some (signed s m * 2 ^ e)
      else if Zpos m mod 2 ^ (- e) =? 0 then Some (signed s m / 2 ^ (- e))
      else None
  | _ => None
  end.

(** A mantissa that fits the 53 bits of the format. *)
Definition small (x : number) : Prop :=
  match x with
  | S754_finite _ m _ => Zpos m < 2 ^ 53
  | _ => True
  end.

(** [z] is the integer nearest to the finite number [x], the upper one on
    a tie: [z - 1/2 <= x < z + 1/2]. *)
Definition nearest_int (x : number) (z : Z) : Prop :=
  match x with
  | S754_zero _ => z = 0
  | S754_finite s m e =>
      if 0 <=? e then z = signed s m * 2 ^ e
      else (2 * z - 1) * 2 ^ (- e) <= 2 * signed s m < (2 * z + 1) * 2 ^ (- e)
  | _ => False
  end.

(** The number that the decimal numeral [(-1)^s * n / 10^f] reads as. *)
Definition decimal (s : bool) (n f : Z) : number :=
  match n with
  | Zpos p => div (S754_finite s p 0) (ofZ (10 ^ f))
  | _ => S754_zero s
  end.

(** [n] is the integer nearest to [10^f * m * 2^e], the upper one on a
    tie: [n - 1/2 <= 10^f * m * 2^e < n + 1/2]. *)
Definition nearest_scaled (m : positive) (e f n : Z) : Prop :=
  (2 * n - 1) * 2 ^ (Z.max (- e) 0)
  <= 2 * 10 ^ f * Zpos m * 2 ^ (Z.max e 0)
  < (2 * n + 1) * 2 ^ (Z.max (- e) 0).

(** [r] is [v] rounded to [f] decimal places.  From [10^21] on a number
    is an integer and stays as it is; [NaN] and the infinities pass. *)
Definition rounded_to_decimals (f : Z) (v r : number) : Prop :=
  match v with
  | S754_zero _ => r = ofZ 0
  | S754_finite s m e =>
      exists n : Z,
        nearest_scaled m e f n /\
        (r = decimal s n f
         \/ (10 ^ 21 * 2 ^ (Z.max (- e) 0) <= Zpos m * 2 ^ (Z.max e 0) /\ r = v))
  | _ => r = v
  end.

(** [c] is [w] rounded to the nearest integer. *)
Definition rounded_to_integer (w c : number) : Prop :=
  match w with
  | S754_zero _ | S754_finite _ _ _ =>
      exists z : Z, nearest_int w z /\ intValue c = Some z
  | _ => c = w
  end.

(** A number that is a zero or finite, with the given sign. *)
Definition finite_signed (s : bool) (x : number) : Prop :=
  match x with
  | S754_zero s' | S754_finite s' _ _ => s' = s
  | _ => False
  end.

(** ** Allocations *)

(** An allocation of four integers. *)
Definition allocOfZ (a b c d : Z) : Alloc := mkAlloc (ofZ a) (ofZ b) (ofZ c) (ofZ d).

(** What a channel of the allocation can hold: a non-negative integer,
    or [NaN] once a [NaN] slider value has been let in. *)
Definition shareValue (x : number) : Prop :=
  x = NaN \/ exists n : Z, 0 <= n < 2 ^ 51 /\ x = ofZ n.

Definition Alloc_eqb (x y : Alloc) : bool :=
  number_eqb (a_OOH x) (a_OOH y) && number_eqb (a_TV x) (a_TV y)
  && number_eqb (a_Digital x) (a_Digital y) && number_eqb (a_CTV x) (a_CTV y).

(** The three channels other than [channel], and their current sum
    ([prevOthersSum] of the source). *)
Definition others (channel : Channel) : list Channel :=
  filter (fun k => negb (Channel_eqb k channel)) keys.

Definition othersSum (mediaAlloc : Alloc) (channel : Channel) : number :=
  fold_left (fun s k => (s + get mediaAlloc k)%js) (others channel) (ofZ 0).

(** [setAllocForChannel] after its first line, as a function of [val]. *)
Definition setAllocVal (mediaAlloc : Alloc) (channel : Channel) (val : number) : Alloc :=
  let others := filter (fun k => negb (Channel_eqb k channel)) keys in
  let prevOthersSum :=
    fold_left (fun s k => (s + get mediaAlloc k)%js) others (ofZ 0) in
  let remaining := Math_max (ofZ 0) (ofZ 100 - val)%js in
  let newAlloc := set mediaAlloc channel val in
  let newAlloc :=
    if gt prevOthersSum (ofZ 0) then
      fold_left
        (fun na o =>
           set na o (Math_round ((get mediaAlloc o / prevOthersSum) * remaining)%js))
        others newAlloc
    else
      let per := Math_floor (remaining / ofZ (Z.of_nat (List.length others)))%js in
      let newAlloc := fold_left (fun na o => set na o per) others newAlloc in
      let sumNow := fold_left (fun s o => (s + get newAlloc o)%js) others (ofZ 0) in
      let rem := (remaining - sumNow)%js in
      if gt rem (ofZ 0) then
        match others with
        | o0 :: _ => set newAlloc o0 (get newAlloc o0 + rem)%js
        | [] => newAlloc
        end
      else newAlloc in
  let total :=
    fold_left (fun s n => (s + JS.or n (ofZ 0))%js) (values newAlloc) (ofZ 0) in
  if strictNe total (ofZ 100) then
    let delta := (ofZ 100 - total)%js in
    let firstAdjustKey :=
      match find (fun k => negb (Channel_eqb k channel)) keys with
      | Some k => k
      | None => channel
      end in
    set newAlloc firstAdjustKey
      (Math_max (ofZ 0) (JS.or (get newAlloc firstAdjustKey) (ofZ 0) + delta)%js)
  else newAlloc.

(** The equal split the specification describes for a selected value
    [k]: every other channel receives [floor ((100 - k) / 3)] and the
    first of them, in key order, the leftover as well. *)
Definition evenSplit (channel : Channel) (k : Z) : Alloc :=
  let remaining := 100 - k in
  let per := remaining / 3 in
  let leftover := remaining mod 3 in
  let share c :=
    if Channel_eqb c channel then ofZ k
    else if Channel_eqb c (hd channel (others channel)) then ofZ (per + leftover)
    else ofZ per in
  mkAlloc (share OOH) (share TV) (share Digital) (share CTV).

(** The sum of an allocation, [total] of the source. *)
Definition allocTotal (a : Alloc) : number :=
  fold_left (fun s n => (s + JS.or n (ofZ 0))%js) (values a) (ofZ 0).

(** ** The composite improvement, in the words of the specification *)

(** The channel rate table of the specification: the improvement rate of
    each channel, as [mediaInventorySubcategories] lists them. *)
Definition channelRate (c : Channel) : number :=
  match c with
  | OOH => dec 133 1
  | TV => dec 102 1
  | Digital => dec 39 1
  | CTV => dec 22 1
  end.

(** [total = sum(alloc values)] *)
Definition allocSum (alloc : Alloc) : number :=
  fold_left (fun s v => (s + v)%js) (values alloc) (ofZ 0).

(** [weighted = sum over the four channels of (alloc[c] / total) * rates[c]] *)
Definition weightedRate (alloc : Alloc) : number :=
  fold_left
    (fun w c => (w + (get alloc c / allocSum alloc) * channelRate c)%js)
    keys (ofZ 0).

(** [round(x * 10) / 10] *)
Definition one_decimal (x : number) : number :=
  (Math_round (x * ofZ 10) / ofZ 10)%js.

(** The unweighted average of the four rates. *)
Definition averageRate : number :=
  (fold_left (fun s c => (s + channelRate c)%js) keys (ofZ 0) / ofZ 4)%js.

(** ** The log and the reachable states *)

(** The point [applyImprovement] appends after [last] for the
    improvement [imp]. *)
Definition forecastPoint (label : string) (last : PerformancePoint) (imp : number)
  : PerformancePoint :=
  let fc :=
    computeForecast
      {| CPA := forecastCPA last; Conversions := forecastConversions last |} imp in
  {| cycle := ("Forecast: " ++ label)%string;
     actualCPA := actualCPA last;
     actualConversions := actualConversions last;
     forecastCPA := CPA fc;
     forecastConversions := Conversions fc |}.

(** ** The improvement a call applies *)

(** [v] is the entry of the object literal [obj] under [key]. *)
Definition entryOf {A : Type} (obj : list (string * A)) (key : string) (v : A) : Prop :=
  exists l1 l2, obj = l1 ++ (key, v) :: l2 /\ ~ In key (map fst l1).

(** The panel a label stands for: the label itself when it is a key of
    the insight table, otherwise the panel whose subcategories name it,
    the media ones before the data feed ones; [None] when nothing names
    it. *)
Inductive parentPanelOf (insights : list (string * Insight)) (label : string)
  : option string -> Prop :=
  | parent_self :
      In label (map fst insights) ->
      parentPanelOf insights label (Some label)
  | parent_media :
      ~ In label (map fst insights) ->
      In label (map fst mediaInventorySubcategories) ->
      parentPanelOf insights label (Some "Media Inventory"%string)
  | parent_feed :
      ~ In label (map fst insights) ->
      ~ In label (map fst mediaInventorySubcategories) ->
      In label (map fst dataFeedSubcategories) ->
      parentPanelOf insights label (Some "Data Feed Optimization"%string)
  | parent_none :
      ~ In label (map fst insights) ->
      ~ In label (map fst mediaInventorySubcategories) ->
      ~ In label (map fst dataFeedSubcategories) ->
      parentPanelOf insights label None.

(** The improvement a call [applyImprovement(label, improvement)] applies:
    the argument when one is passed, whatever its value; without one, the
    improvement the insight table holds for the panel of the label, when
    that panel has a name and an entry and the number is neither 0 nor
    [NaN]; and 0 in every other case. *)
Inductive improvementChosen (insights : list (string * Insight)) (label : string)
  : option number -> number -> Prop :=
  | chosen_argument (x : number) :
      improvementChosen insights label (Some x) x
  | chosen_of_panel (p : string) (info : Insight) :
      parentPanelOf insights label (Some p) ->
      p <> EmptyString ->
      entryOf insights p info ->
      truthy (improvement info) = true ->
      improvementChosen insights label None (improvement info)
  | chosen_zero :
      (forall p info,
         parentPanelOf insights label (Some p) -> p <> EmptyString ->
         entryOf insights p info -> truthy (improvement info) = false) ->
      improvementChosen insights label None (ofZ 0).

(** The states the component can be in: the handlers run one at a time,
    each on the state the previous one left. *)
Inductive reachable (insights : list (string * Insight))
    (numberToString : number -> string) : AppState -> Prop :=
  | reach_init : reachable insights numberToString initialState
  | reach_alloc st channel rawVal :
      reachable insights numberToString st ->
      reachable insights numberToString
        {| mediaAlloc := setAllocForChannel (mediaAlloc st) channel rawVal;
           performanceData := performanceData st;
           aiActivities := aiActivities st |}
  | reach_apply st label improvement_arg st' :
      reachable insights numberToString st ->
      applyImprovement insights numberToString label improvement_arg st = Some st' ->
      reachable insights numberToString st'.

(** ** Integer allocations *)

(** An allocation of integers, given by channel. *)
Definition allocZ (f : Channel -> Z) : Alloc :=
  allocOfZ (f OOH) (f TV) (f Digital) (f CTV).

(** The sum of [f] over a list of channels. *)
Definition sumZ (f : Channel -> Z) (l : list Channel) : Z :=
  fold_left (fun s k => s + f k) l 0.

(** The integer allocation that holds [k] at [ch] and [x], [y], [z] at
    the three other channels, in key order. *)
Definition place (ch : Channel) (k x y z : Z) (c : Channel) : Z :=
  match ch, c with
  | OOH, OOH | TV, TV | Digital, Digital | CTV, CTV => k
  | OOH, TV | TV, OOH | Digital, OOH | CTV, OOH => x
  | OOH, Digital | TV, Digital | Digital, TV | CTV, TV => y
  | OOH, CTV | TV, CTV | Digital, CTV | CTV, Digital => z
  end.

(** The allocations that moves of the slider lead to from the initial
    one, when no raw value is [NaN]. *)
Inductive sliderReachable : Alloc -> Prop :=
  | slider_init : sliderReachable initialMediaAlloc
  | slider_move m channel rawVal :
      sliderReachable m -> wf rawVal -> isNaN rawVal = false ->
      sliderReachable (setAllocForChannel m channel rawVal).

(** ** The value of a number *)

(** [2^e] as a rational, and the magnitude of a finite number. *)
Definition pow2 (e : Z) : Q := Qpower 2 e.

Definition Qmag (x : number) : Q :=
  match x with
  | S754_finite _ m e => (inject_Z (Zpos m) * pow2 e)%Q
  | _ => 0%Q
  end.

(** A zero or a positive finite number with an exponent of at most [u]. *)
Definition nonneg (u : Z) (x : number) : Prop :=
  x = S754_zero false
  \/ exists m e, x = S754_finite false m e /\ e <= u /\ Zpos m < 2 ^ 53.

(** ** The factors of a forecast *)

(** The two factors of [computeForecast] for an improvement of [z]
    tenths of a percent: [1 - z/1000] is a zero, one, or a number below
    one, and [1 + z/1000] a positive number. *)
Definition factors_ok (z : Z) : bool :=
  match (ofZ 1 - dec z 1 / ofZ 100)%js, (ofZ 1 + dec z 1 / ofZ 100)%js with
  | S754_zero false, S754_finite false m' e' => (Zpos m' <? 2 ^ 53)
  | S754_finite false m e, S754_finite false m' e' =>
      ((Zpos m <? 2 ^ 53) && (e <=? -53) || number_eqb (S754_finite false m e) (ofZ 1))
      && (Zpos m' <? 2 ^ 53)
  | _, _ => false
  end.

(** ** Audience sentiment *)

(** The improvement a suggestion carries for a score of [k] percent. *)
Definition suggestedZ (k : Z) : Z :=
  if 70 <=? k then Z.max 2 ((6 * k + 50) / 100)
  else if 45 <=? k then Z.max 1 ((3 * k + 50) / 100)
  else Z.max 1 ((2 * k + 50) / 100).

(** A category that holds nothing but its score. *)
Definition scoreOnly (sc : number) : Audience.SentimentCategory :=
  {| Audience.category := EmptyString; Audience.score := sc;
     Audience.trend := Audience.flat; Audience.topTerms := [] |}.

(** A score that is an integer percentage. *)
Definition percentScore (s : Audience.SentimentCategory) : Prop :=
  exists k : Z, 0 <= k <= 100 /\ Audience.score s = ofZ k.

(** What [Math.random()] returns: a number of [[0, 1)]. *)
Definition unitRandom (r : number) : Prop :=
  wf r /\ le (ofZ 0) r = true /\ lt r (ofZ 1) = true.

(** * The development tests of the source *)

(** The assertions of the source's development-time tests. *)
Example dev_forecast_10 :
  computeForecast {| CPA := ofZ 100; Conversions := ofZ 200 |} (ofZ 10)
  = {| CPA := ofZ 90; Conversions := ofZ 220 |}.
Proof. vm_compute. reflexivity. Qed.

Example dev_forecast_0 :
  computeForecast {| CPA := ofZ 100; Conversions := ofZ 200 |} (ofZ 0)
  = {| CPA := ofZ 100; Conversions := ofZ 200 |}.
Proof. vm_compute. reflexivity. Qed.

Example dev_forecast_2_5 :
  computeForecast {| CPA := ofZ 40; Conversions := ofZ 190 |} (dec 25 1)
  = {| CPA := ofZ 39; Conversions := ofZ 195 |}.
Proof. vm_compute. reflexivity. Qed.

Example dev_forecast_100 :
  computeForecast {| CPA := ofZ 80; Conversions := ofZ 50 |} (ofZ 100)
  = {| CPA := ofZ 0; Conversions := ofZ 100 |}.
Proof. vm_compute. reflexivity. Qed.

Example dev_clamp :
  clampPercent (ofZ 105) = ofZ 100 /\ clampPercent (ofZ (-5)) = ofZ 0
  /\ clampPercent (dec 496 1) = ofZ 50 /\ clampPercent NaN = ofZ 0.
Proof. vm_compute. repeat split. Qed.

(** * Facts about the number model and the helpers *)

(** ** Deciding equations by evaluation *)

Lemma number_eqb_eq (a b : number) : number_eqb a b = true -> a = b.
Proof.
  destruct a as [s|s| |s m e], b as [s'|s'| |s' m' e']; simpl; try discriminate.
  - intros H. apply eqb_prop in H. congruence.
  - intros H. apply eqb_prop in H. congruence.
  - reflexivity.
  - intros H. apply andb_prop in H. destruct H as [H He].
    apply andb_prop in H. destruct H as [Hs Hm].
    apply eqb_prop in Hs. apply Pos.eqb_eq in Hm. apply Z.eqb_eq in He. congruence.
Qed.

Lemma Alloc_eqb_eq (x y : Alloc) : Alloc_eqb x y = true -> x = y.
Proof.
  unfold Alloc_eqb. intros H.
  apply andb_prop in H. destruct H as [H H4].
  apply andb_prop in H. destruct H as [H H3].
  apply andb_prop in H. destruct H as [H1 H2].
  apply number_eqb_eq in H1, H2, H3, H4.
  destruct x, y. simpl in *. congruence.
Qed.

Lemma Zrange_In (lo hi z : Z) : lo <= z <= hi -> In z (Zrange lo hi).
Proof.
  intros H. unfold Zrange. apply in_map_iff. exists (Z.to_nat (z - lo)). split.
  - lia.
  - apply in_seq. lia.
Qed.

Lemma forall_Zrange (P : Z -> bool) (lo hi : Z) :
  forallb P (Zrange lo hi) = true -> forall z, lo <= z <= hi -> P z = true.
Proof.
  intros H z Hz. rewrite forallb_forall in H. apply H, Zrange_In, Hz.
Qed.

(** ** Digits of a mantissa *)

Lemma iter_xO_pow (p n : positive) :
  Zpos (Pos.iter xO p n) = Zpos p * 2 ^ Zpos n.
Proof.
  induction n as [|n IH] using Pos.peano_ind.
  - simpl. lia.
  - rewrite Pos.iter_succ, Pos2Z.inj_xO, IH, Pos2Z.inj_succ, Z.pow_succ_r by lia.
    ring.
Qed.

Lemma digits2_iter_xO (p n : positive) :
  Zpos (digits2_pos (Pos.iter xO p n)) = Zpos (digits2_pos p) + Zpos n.
Proof.
  induction n as [|n IH] using Pos.peano_ind.
  - simpl. lia.
  - rewrite Pos.iter_succ. simpl digits2_pos. lia.
Qed.

(** A mantissa of [d] digits lies in [[2^(d-1), 2^d)]. *)
Lemma digits2_bounds (p : positive) :
  2 ^ (Zpos (digits2_pos p) - 1) <= Zpos p < 2 ^ Zpos (digits2_pos p).
Proof.
  induction p as [p IH|p IH|]; simpl digits2_pos.
  - rewrite Pos2Z.inj_succ, Z.pow_succ_r by lia.
    replace (Z.succ (Zpos (digits2_pos p)) - 1) with (Z.succ (Zpos (digits2_pos p) - 1)) by lia.
    rewrite Z.pow_succ_r by lia. lia.
  - rewrite Pos2Z.inj_succ, Z.pow_succ_r by lia.
    replace (Z.succ (Zpos (digits2_pos p)) - 1) with (Z.succ (Zpos (digits2_pos p) - 1)) by lia.
    rewrite Z.pow_succ_r by lia. lia.
  - simpl. lia.
Qed.

Lemma digits2_mono (p q : positive) :
  (p <= q)%positive -> Zpos (digits2_pos p) <= Zpos (digits2_pos q).
Proof.
  intros H. pose proof (digits2_bounds p) as [Hp _]. pose proof (digits2_bounds q) as [_ Hq].
  assert (Hlt : 2 ^ (Zpos (digits2_pos p) - 1) < 2 ^ Zpos (digits2_pos q)) by lia.
  apply Z.pow_lt_mono_r_iff in Hlt; lia.
Qed.

Lemma digits2_lt_pow (p : positive) (n : Z) :
  0 <= n -> Zpos p < 2 ^ n -> Zpos (digits2_pos p) <= n.
Proof.
  intros Hn H. pose proof (digits2_bounds p) as [Hp _].
  assert (Hlt : 2 ^ (Zpos (digits2_pos p) - 1) < 2 ^ n) by lia.
  apply Z.pow_lt_mono_r_iff in Hlt; lia.
Qed.

Lemma digits2_ge_pow (p : positive) (n : Z) :
  0 <= n -> 2 ^ n <= Zpos p -> n < Zpos (digits2_pos p).
Proof.
  intros Hn H. pose proof (digits2_bounds p) as [_ Hp].
  assert (Hlt : 2 ^ n < 2 ^ Zpos (digits2_pos p)) by lia.
  apply Z.pow_lt_mono_r_iff in Hlt; lia.
Qed.

Lemma digits2_unique (p : positive) (n : Z) :
  2 ^ (n - 1) <= Zpos p < 2 ^ n -> Zpos (digits2_pos p) = n.
Proof.
  intros [Hlo Hhi]. pose proof (digits2_bounds p) as [Hlo' Hhi'].
  assert (0 < n).
  { destruct (Z.lt_ge_cases 0 n) as [|Hn]; [assumption|].
    assert (2 ^ n <= 2 ^ 0) by (destruct (Z.eq_dec n 0) as [->|]; [lia|rewrite Z.pow_neg_r; simpl; lia]).
    simpl in *. lia. }
  assert (H1 : 2 ^ (n - 1) < 2 ^ Zpos (digits2_pos p)) by lia.
  assert (H2 : 2 ^ (Zpos (digits2_pos p) - 1) < 2 ^ n) by lia.
  apply Z.pow_lt_mono_r_iff in H1; [|lia|lia].
  apply Z.pow_lt_mono_r_iff in H2; lia.
Qed.

Lemma digits2_mul_pow2 (P p : positive) (k : Z) :
  0 <= k -> Zpos P = Zpos p * 2 ^ k ->
  Zpos (digits2_pos P) = Zpos (digits2_pos p) + k.
Proof.
  intros Hk HP. apply digits2_unique. rewrite HP.
  pose proof (digits2_bounds p) as [Hlo Hhi].
  assert (Ht : 0 < 2 ^ k) by (apply Z.pow_pos_nonneg; lia).
  replace (Zpos (digits2_pos p) + k - 1) with (Zpos (digits2_pos p) - 1 + k) by lia.
  rewrite !Z.pow_add_r by lia. nia.
Qed.

(** A positive mantissa that is [p * 2^k] is [p] shifted by [k]. *)
Lemma pos_shift_eq (P p : positive) (k : Z) :
  0 < k -> Zpos P = Zpos p * 2 ^ k -> P = Pos.iter xO p (Z.to_pos k).
Proof.
  intros Hk HP. apply Pos2Z.inj. rewrite iter_xO_pow, HP.
  rewrite Z2Pos.id by lia. reflexivity.
Qed.

Lemma Zdigits2_bound (m : Z) : 0 <= m -> m < 2 ^ Zdigits2 m.
Proof.
  destruct m as [|p|p]; intros H; try lia.
  - simpl. lia.
  - apply digits2_bounds.
Qed.

Lemma Zdigits2_nonneg (m : Z) : 0 <= Zdigits2 m.
Proof. destruct m; simpl; lia. Qed.

Lemma Zdigits2_le_pow (m n : Z) : 0 <= m -> 0 <= n -> m < 2 ^ n -> Zdigits2 m <= n.
Proof.
  intros Hm Hn H. destruct m as [|p|p]; try lia.
  - simpl. lia.
  - apply digits2_lt_pow; assumption.
Qed.

Lemma Zdigits2_mono (a b : Z) : 0 <= a <= b -> Zdigits2 a <= Zdigits2 b.
Proof.
  intros [Ha Hab]. apply Zdigits2_le_pow; [lia|apply Zdigits2_nonneg|].
  pose proof (Zdigits2_bound b ltac:(lia)). lia.
Qed.

Lemma Zdigits2_shiftl (m : positive) (k : positive) :
  Zdigits2 (Z.shiftl (Zpos m) (Zpos k)) = Zpos (digits2_pos m) + Zpos k.
Proof.
  rewrite Z.shiftl_mul_pow2 by lia.
  assert (Ht : 0 < 2 ^ Zpos k) by (apply Z.pow_pos_nonneg; lia).
  destruct (Zpos m * 2 ^ Zpos k) as [|P|P] eqn:E; try lia.
  simpl Zdigits2. apply digits2_mul_pow2; [lia|symmetry; exact E].
Qed.

Lemma wf_digits (s : bool) (m : positive) (e : Z) :
  wf (S754_finite s m e) -> Zpos (digits2_pos m) <= 53.
Proof.
  unfold wf, valid_binary, bounded, canonical_mantissa. intros H.
  apply andb_prop in H. destruct H as [Hc _]. apply Z.eqb_eq in Hc.
  unfold fexp, emin, prec, emax in Hc. lia.
Qed.

(** A well-formed number with a non-subnormal exponent has 53 digits. *)
Lemma wf_digits_normal (s : bool) (m : positive) (e : Z) :
  wf (S754_finite s m e) -> -1074 < e -> Zpos (digits2_pos m) = 53.
Proof.
  unfold wf, valid_binary, bounded, canonical_mantissa. intros H He.
  apply andb_prop in H. destruct H as [Hc _]. apply Z.eqb_eq in Hc.
  unfold fexp, emin, prec, emax in Hc. lia.
Qed.

Lemma wf_small (x : number) : wf x -> small x.
Proof.
  destruct x as [s|s| |s m e]; cbn [small]; trivial. intros Hwf.
  pose proof (wf_digits s m e Hwf). pose proof (digits2_bounds m) as [_ Hhi].
  eapply Z.lt_le_trans; [exact Hhi|]. apply Z.pow_le_mono_r; lia.
Qed.

(** ** Rounding a value that needs no rounding *)

(** Shifting right by [n] undoes a shift left by [n], with nothing lost. *)
Lemma shr_iter_xO (n p : positive) :
  iter_pos shr_1 n (Build_shr_record (Zpos (Pos.iter xO p n)) false false)
  = Build_shr_record (Zpos p) false false.
Proof.
  revert p. induction n as [n IH|n IH|]; intros p; simpl.
  - rewrite 2 IH. reflexivity.
  - rewrite 2 IH. reflexivity.
  - reflexivity.
Qed.

(** Rounding a representable value returns it. *)
Lemma round_aux_canonical (s : bool) (m : positive) (e : Z) :
  bounded prec emax m e = true ->
  binary_round_aux prec emax s (Zpos m) e loc_Exact = S754_finite s m e.
Proof.
  unfold bounded, canonical_mantissa. intros H.
  apply andb_prop in H. destruct H as [Hc He].
  apply Z.eqb_eq in Hc.
  unfold binary_round_aux, shr_fexp. simpl Zdigits2. rewrite Hc, Z.sub_diag.
  cbn [shr shr_record_of_loc shr_m loc_of_shr_record round_nearest_even Zdigits2].
  rewrite Hc, Z.sub_diag. cbn [shr shr_m shr_record_of_loc]. rewrite He. reflexivity.
Qed.

Lemma round_aux_shifted (s : bool) (m n : positive) (e : Z) :
  bounded prec emax m e = true ->
  binary_round_aux prec emax s (Zpos (Pos.iter xO m n)) (e - Zpos n) loc_Exact
  = S754_finite s m e.
Proof.
  intros H. generalize H. unfold bounded, canonical_mantissa. intros H'.
  apply andb_prop in H'. destruct H' as [Hc He]. apply Z.eqb_eq in Hc.
  unfold binary_round_aux, shr_fexp. cbn [Zdigits2].
  rewrite digits2_iter_xO.
  replace (Zpos (digits2_pos m) + Zpos n + (e - Zpos n)) with (Zpos (digits2_pos m) + e) by lia.
  rewrite Hc. replace (e - (e - Zpos n)) with (Zpos n) by lia.
  cbn [shr shr_record_of_loc]. rewrite shr_iter_xO.
  cbn [shr_m loc_of_shr_record round_nearest_even Zdigits2].
  replace (e - Zpos n + Zpos n) with e by lia.
  rewrite Hc, Z.sub_diag. cbn [shr shr_m shr_record_of_loc]. rewrite He. reflexivity.
Qed.

(** Integer literals of at most 53 bits are exact: the mantissa is the
    integer shifted up to 53 digits. *)
Lemma shl53_value (p : positive) :
  Zpos (digits2_pos p) <= 53 ->
  Zpos (shl53 p) = Zpos p * 2 ^ (53 - Zpos (digits2_pos p)).
Proof.
  intros Hd. unfold shl53.
  destruct (53 - Zpos (digits2_pos p)) as [|q|q] eqn:Hq; try lia.
  apply iter_xO_pow.
Qed.

Lemma shl53_digits (p : positive) :
  Zpos (digits2_pos p) <= 53 -> Zpos (digits2_pos (shl53 p)) = 53.
Proof.
  intros Hd. unfold shl53.
  destruct (53 - Zpos (digits2_pos p)) as [|q|q] eqn:Hq; try lia.
  rewrite digits2_iter_xO. lia.
Qed.

Lemma bounded_shl53 (p : positive) :
  Zpos (digits2_pos p) <= 53 ->
  bounded prec emax (shl53 p) (Zpos (digits2_pos p) - 53) = true.
Proof.
  intros Hd. unfold bounded, canonical_mantissa. rewrite (shl53_digits p Hd).
  apply andb_true_intro. split.
  - apply Z.eqb_eq. unfold fexp, emin, prec, emax. lia.
  - apply Z.leb_le. unfold prec, emax. lia.
Qed.

(** Rounding a mantissa of at least 53 digits that is an integer of at
    most 53 bits, scaled: exact. *)
Lemma round_aux_exact (s : bool) (Q p : positive) (k : Z) :
  Zpos (digits2_pos p) <= 53 -> 53 - Zpos (digits2_pos p) <= k ->
  Zpos Q = Zpos p * 2 ^ k ->
  binary_round_aux prec emax s (Zpos Q) (- k) loc_Exact
  = S754_finite s (shl53 p) (Zpos (digits2_pos p) - 53).
Proof.
  intros Hd Hk HQ. pose proof (shl53_value p Hd) as Hv.
  pose proof (bounded_shl53 p Hd) as Hb.
  destruct (k - (53 - Zpos (digits2_pos p))) as [|n|n] eqn:En; try lia.
  - assert (Q = shl53 p).
    { apply Pos2Z.inj. rewrite Hv, HQ. f_equal. f_equal. lia. }
    subst Q. replace (- k) with (Zpos (digits2_pos p) - 53) by lia.
    apply round_aux_canonical, Hb.
  - assert (Q = Pos.iter xO (shl53 p) n).
    { apply Pos2Z.inj. rewrite iter_xO_pow, Hv, HQ, <- Z.mul_assoc, <- Z.pow_add_r by lia.
      f_equal. f_equal. lia. }
    subst Q. replace (- k) with (Zpos (digits2_pos p) - 53 - Zpos n) by lia.
    apply round_aux_shifted, Hb.
Qed.

Lemma binary_round_int (s : bool) (p : positive) :
  Zpos (digits2_pos p) <= 53 ->
  binary_round prec emax s p 0
  = S754_finite s (shl53 p) (Zpos (digits2_pos p) - 53).
Proof.
  intros Hd. pose proof (shl53_digits p Hd) as Hs.
  unfold binary_round, shl_align.
  assert (Hf : fexp prec emax (Zpos (digits2_pos p) + 0) = Zpos (digits2_pos p) - 53).
  { unfold fexp, emin, prec, emax. lia. }
  rewrite Hf. unfold shl53 in *.
  replace (Zpos (digits2_pos p) - 53 - 0) with (- (53 - Zpos (digits2_pos p))) by lia.
  destruct (53 - Zpos (digits2_pos p)) as [|q|q] eqn:Hq; try lia; simpl Z.opp; cbv iota.
  - replace (Zpos (digits2_pos p) - 53) with 0 by lia.
    apply round_aux_canonical. unfold bounded, canonical_mantissa.
    rewrite Hs. reflexivity.
  - apply round_aux_canonical. unfold bounded, canonical_mantissa.
    rewrite Hs. apply andb_true_intro. split.
    + apply Z.eqb_eq. unfold fexp, emin, prec, emax. lia.
    + apply Z.leb_le. unfold prec, emax. lia.
Qed.

(** Rounding an integer-scaled mantissa whose value fits 53 bits is
    exact, whatever the scaling. *)
Lemma binary_round_exact (s : bool) (P p : positive) (e : Z) :
  Zpos (digits2_pos p) <= 53 -> e <= 0 -> Zpos P = Zpos p * 2 ^ (- e) ->
  binary_round prec emax s P e
  = S754_finite s (shl53 p) (Zpos (digits2_pos p) - 53).
Proof.
  intros Hd He HP.
  pose proof (digits2_mul_pow2 P p (- e) ltac:(lia) HP) as HdP.
  pose proof (shl53_digits p Hd) as Hs. pose proof (shl53_value p Hd) as Hv.
  assert (Hb : bounded prec emax (shl53 p) (Zpos (digits2_pos p) - 53) = true).
  { unfold bounded, canonical_mantissa. rewrite Hs. apply andb_true_intro. split.
    - apply Z.eqb_eq. unfold fexp, emin, prec, emax. lia.
    - apply Z.leb_le. unfold prec, emax. lia. }
  unfold binary_round, shl_align. rewrite HdP.
  assert (Hf : fexp prec emax (Zpos (digits2_pos p) + - e + e) = Zpos (digits2_pos p) - 53).
  { unfold fexp, emin, prec, emax. lia. }
  rewrite Hf.
  destruct (Zpos (digits2_pos p) - 53 - e) as [|q|q] eqn:Hq.
  - (* already aligned *)
    assert (P = shl53 p).
    { apply Pos2Z.inj. rewrite Hv, HP. f_equal. f_equal. lia. }
    subst P. replace e with (Zpos (digits2_pos p) - 53) by lia.
    apply round_aux_canonical, Hb.
  - (* spare low bits *)
    assert (P = Pos.iter xO (shl53 p) q).
    { apply Pos2Z.inj. rewrite iter_xO_pow, Hv, HP, <- Z.mul_assoc, <- Z.pow_add_r by lia.
      f_equal. f_equal. lia. }
    subst P. replace e with (Zpos (digits2_pos p) - 53 - Zpos q) by lia.
    apply round_aux_shifted, Hb.
  - (* too short: aligned up *)
    assert (Pos.iter xO P q = shl53 p).
    { apply Pos2Z.inj. rewrite iter_xO_pow, Hv, HP, <- Z.mul_assoc, <- Z.pow_add_r by lia.
      f_equal. f_equal. lia. }
    rewrite H. apply round_aux_canonical, Hb.
Qed.

Lemma ofZ_pos (p : positive) :
  Zpos (digits2_pos p) <= 53 ->
  ofZ (Zpos p) = S754_finite false (shl53 p) (Zpos (digits2_pos p) - 53).
Proof. apply binary_round_int. Qed.

Lemma ofZ_neg (p : positive) :
  Zpos (digits2_pos p) <= 53 ->
  ofZ (Zneg p) = S754_finite true (shl53 p) (Zpos (digits2_pos p) - 53).
Proof. apply binary_round_int. Qed.

(** Integer literals are well formed. *)
Lemma wf_ofZ (z : Z) : Z.abs z < 2 ^ 53 -> wf (ofZ z).
Proof.
  intros Hz. destruct z as [|p|p]; [reflexivity| |].
  - assert (Hd : Zpos (digits2_pos p) <= 53) by (apply digits2_lt_pow; lia).
    rewrite (ofZ_pos p Hd). apply (bounded_shl53 p Hd).
  - assert (Hd : Zpos (digits2_pos p) <= 53) by (apply digits2_lt_pow; lia).
    rewrite (ofZ_neg p Hd). apply (bounded_shl53 p Hd).
Qed.

Lemma finite_signed_ofZ (a : Z) : 0 <= a < 2 ^ 53 -> finite_signed false (ofZ a).
Proof.
  intros H. destruct a as [|p|p]; try lia; [reflexivity|].
  rewrite ofZ_pos by (apply digits2_lt_pow; lia). reflexivity.
Qed.

Lemma gt_ofZ_0 (s : Z) : 0 <= s < 2 ^ 53 -> gt (ofZ s) (ofZ 0) = (0 <? s).
Proof.
  intros H. destruct s as [|p|p]; try lia; [reflexivity|].
  rewrite ofZ_pos by (apply digits2_lt_pow; lia). reflexivity.
Qed.

(** ** Exact arithmetic on integers *)

(** Multiplying by one changes nothing. *)
Lemma mul_1_r (x : number) : wf x -> mul x (ofZ 1) = x.
Proof.
  unfold wf. destruct x as [s|s| |s m e]; simpl; intros H.
  - destruct s; reflexivity.
  - destruct s; reflexivity.
  - reflexivity.
  - change (ofZ 1) with (S754_finite false 4503599627370496 (-52)).
    unfold mul, SFmul. rewrite xorb_false_r.
    replace (Zpos (m * 4503599627370496)) with (Zpos (Pos.iter xO m 52)).
    + apply (round_aux_shifted s m 52 e H).
    + rewrite Pos.mul_comm. reflexivity.
Qed.

Lemma shl_align_value (m : positive) (e ez : Z) :
  ez <= e -> Zpos (fst (shl_align m e ez)) = Zpos m * 2 ^ (e - ez).
Proof.
  intros H. unfold shl_align.
  destruct (ez - e) as [|d|d] eqn:Hd; cbn [fst]; try lia.
  - replace (e - ez) with 0 by lia. lia.
  - rewrite iter_xO_pow. f_equal. f_equal. lia.
Qed.

(** Addition of non-negative integers is exact below [2^53]. *)
Lemma add_ofZ (a b : Z) :
  0 <= a -> 0 <= b -> a + b < 2 ^ 53 -> add (ofZ a) (ofZ b) = ofZ (a + b).
Proof.
  intros Ha Hb Hab.
  destruct a as [|pa|pa]; try lia.
  { destruct b as [|pb|pb]; try lia; try reflexivity.
    assert (Hd : Zpos (digits2_pos pb) <= 53) by (apply digits2_lt_pow; lia).
    rewrite Z.add_0_l, (ofZ_pos pb Hd). reflexivity. }
  assert (Hda : Zpos (digits2_pos pa) <= 53) by (apply digits2_lt_pow; lia).
  destruct b as [|pb|pb]; try lia.
  { rewrite Z.add_0_r, (ofZ_pos pa Hda). reflexivity. }
  assert (Hdb : Zpos (digits2_pos pb) <= 53) by (apply digits2_lt_pow; lia).
  assert (Hdab : Zpos (digits2_pos (pa + pb)) <= 53).
  { apply digits2_lt_pow; [lia|]. rewrite Pos2Z.inj_add. exact Hab. }
  change (Zpos pa + Zpos pb) with (Zpos (pa + pb)).
  rewrite (ofZ_pos pa Hda), (ofZ_pos pb Hdb), (ofZ_pos _ Hdab).
  unfold add, SFadd. cbn [cond_Zopp].
  set (ea := Zpos (digits2_pos pa) - 53). set (eb := Zpos (digits2_pos pb) - 53).
  set (ez := Z.min ea eb).
  pose proof (shl_align_value (shl53 pa) ea ez ltac:(lia)) as Va.
  pose proof (shl_align_value (shl53 pb) eb ez ltac:(lia)) as Vb.
  rewrite (shl53_value pa Hda) in Va. rewrite (shl53_value pb Hdb) in Vb.
  change (Zpos (fst (shl_align (shl53 pa) ea ez)) + Zpos (fst (shl_align (shl53 pb) eb ez)))
    with (Zpos (fst (shl_align (shl53 pa) ea ez) + fst (shl_align (shl53 pb) eb ez))).
  unfold binary_normalize. apply binary_round_exact; [exact Hdab|lia|].
  rewrite Pos2Z.inj_add, Va, Vb, <- !Z.mul_assoc, <- !Z.pow_add_r by lia.
  replace (53 - Zpos (digits2_pos pa) + (ea - ez)) with (- ez) by lia.
  replace (53 - Zpos (digits2_pos pb) + (eb - ez)) with (- ez) by lia.
  rewrite Pos2Z.inj_add. ring.
Qed.

(** Hundred times an integer, divided by 100, is the integer. *)
Lemma div_100_exact (s : bool) (p : positive) :
  Zpos (digits2_pos p) <= 53 ->
  div (S754_finite s (100 * p) 0) (ofZ 100)
  = S754_finite s (shl53 p) (Zpos (digits2_pos p) - 53).
Proof.
  intros Hd. pose proof (digits2_bounds p) as [Hlo Hhi].
  set (dc := Zpos (digits2_pos p)) in *.
  assert (Hdc : 1 <= dc) by (unfold dc; lia).
  assert (Hd1 : dc + 6 <= Zpos (digits2_pos (100 * p)) <= dc + 7).
  { split.
    - assert (dc + 5 < Zpos (digits2_pos (100 * p))); [|lia].
      apply digits2_ge_pow; [lia|].
      replace (dc + 5) with (dc - 1 + 6) by lia. rewrite Z.pow_add_r by lia.
      change (2 ^ 6) with 64. rewrite Pos2Z.inj_mul. lia.
    - apply digits2_lt_pow; [lia|]. rewrite Z.pow_add_r by lia.
      change (2 ^ 7) with 128. rewrite Pos2Z.inj_mul. lia. }
  set (d1 := Zpos (digits2_pos (100 * p))) in *.
  change (ofZ 100) with (S754_finite false 7036874417766400 (-46)).
  unfold div, SFdiv, SFdiv_core_binary. rewrite xorb_false_r. cbn [Zdigits2].
  fold d1. change (Zpos (digits2_pos 7036874417766400)) with 53.
  assert (Hf : Z.min (fexp prec emax (d1 + 0 - (53 + -46))) (0 - -46) = d1 - 60).
  { unfold fexp, emin, prec, emax. lia. }
  rewrite Hf.
  replace (0 - -46 - (d1 - 60)) with (106 - d1) by lia.
  destruct (106 - d1) as [|sft|sft] eqn:Es; try lia.
  rewrite Z.shiftl_mul_pow2 by lia.
  assert (Hm' : Zpos (100 * p) * 2 ^ Zpos sft
                = (Zpos p * 2 ^ (60 - d1)) * Zpos 7036874417766400).
  { rewrite Pos2Z.inj_mul. replace (Zpos sft) with (60 - d1 + 46) by lia.
    rewrite Z.pow_add_r by lia. change (2 ^ 46) with 70368744177664. lia. }
  rewrite Hm'.
  assert (Hq : 0 < Zpos p * 2 ^ (60 - d1)).
  { apply Z.mul_pos_pos; [lia|]. apply Z.pow_pos_nonneg; lia. }
  destruct (Z.div_eucl (Zpos p * 2 ^ (60 - d1) * Zpos 7036874417766400) (Zpos 7036874417766400))
    as [q r] eqn:E.
  assert (Hqv : q = Zpos p * 2 ^ (60 - d1)).
  { transitivity ((Zpos p * 2 ^ (60 - d1) * Zpos 7036874417766400) / Zpos 7036874417766400).
    - unfold Z.div. rewrite E. reflexivity.
    - apply Z.div_mul. discriminate. }
  assert (Hrv : r = 0).
  { transitivity ((Zpos p * 2 ^ (60 - d1) * Zpos 7036874417766400) mod Zpos 7036874417766400).
    - unfold Z.modulo. rewrite E. reflexivity.
    - apply Z.mod_mul. discriminate. }
  subst r. change (new_location (Zpos 7036874417766400) 0) with loc_Exact.
  destruct q as [|Q|Q]; try lia.
  replace (d1 - 60) with (- (60 - d1)) by lia.
  apply round_aux_exact; [exact Hd|lia|exact Hqv].
Qed.

(** ** What rounding can return *)

Lemma shr_1_m (mrs : shr_record) :
  0 <= shr_m mrs -> shr_m (shr_1 mrs) = shr_m mrs / 2.
Proof.
  destruct mrs as [m r s]. simpl. destruct m as [|[p|p|]|p]; intros H; try lia.
  - reflexivity.
  - rewrite Pos2Z.inj_xI. cbn [shr_m]. apply Z.div_unique with 1; lia.
  - rewrite Pos2Z.inj_xO. cbn [shr_m]. apply Z.div_unique with 0; lia.
  - reflexivity.
Qed.

Lemma shr_iter_m (n : positive) (mrs : shr_record) :
  0 <= shr_m mrs ->
  shr_m (iter_pos shr_1 n mrs) = shr_m mrs / 2 ^ Zpos n.
Proof.
  revert mrs. induction n as [n IH|n IH|]; intros mrs H; simpl iter_pos.
  - assert (H1 : 0 <= shr_m (shr_1 mrs)) by (rewrite shr_1_m by lia; apply Z.div_pos; lia).
    assert (H2 : 0 <= shr_m (iter_pos shr_1 n (shr_1 mrs))).
    { rewrite IH by lia. apply Z.div_pos; [lia|]. apply Z.pow_pos_nonneg; lia. }
    rewrite IH, IH, shr_1_m by lia.
    assert (Hp : 0 < 2 ^ Zpos n) by (apply Z.pow_pos_nonneg; lia).
    rewrite !Z.div_div by lia. f_equal.
    replace (Zpos n~1) with (Zpos n + Zpos n + 1) by lia.
    rewrite !Z.pow_add_r by lia. change (2 ^ 1) with 2. ring.
  - assert (H2 : 0 <= shr_m (iter_pos shr_1 n mrs)).
    { rewrite IH by lia. apply Z.div_pos; [lia|]. apply Z.pow_pos_nonneg; lia. }
    rewrite IH, IH by lia.
    assert (Hp : 0 < 2 ^ Zpos n) by (apply Z.pow_pos_nonneg; lia).
    rewrite Z.div_div by lia. f_equal.
    replace (Zpos n~0) with (Zpos n + Zpos n) by lia.
    rewrite Z.pow_add_r by lia. ring.
  - rewrite shr_1_m by lia. reflexivity.
Qed.

Lemma shr_record_of_loc_m (m : Z) (l : location) : shr_m (shr_record_of_loc m l) = m.
Proof. destruct l as [|[| |]]; reflexivity. Qed.

(** Whatever goes in, the mantissa that [shr_fexp] leaves fits 53 bits. *)
Lemma shr_fexp_small (m e : Z) (l : location) :
  0 <= m -> 0 <= shr_m (fst (shr_fexp prec emax m e l)) < 2 ^ 53.
Proof.
  intros Hm. unfold shr_fexp, shr.
  pose proof (Zdigits2_bound m Hm) as Hd. pose proof (Zdigits2_nonneg m) as Hn.
  assert (Hf : Zdigits2 m + e - 53 <= fexp prec emax (Zdigits2 m + e)).
  { unfold fexp, prec. lia. }
  destruct (fexp prec emax (Zdigits2 m + e) - e) as [|n|n] eqn:En; cbn [fst].
  - rewrite shr_record_of_loc_m. split; [lia|].
    eapply Z.lt_le_trans; [exact Hd|]. apply Z.pow_le_mono_r; lia.
  - rewrite shr_iter_m by (rewrite shr_record_of_loc_m; lia).
    rewrite shr_record_of_loc_m.
    assert (Hp : 0 < 2 ^ Zpos n) by (apply Z.pow_pos_nonneg; lia).
    split; [apply Z.div_pos; lia|].
    apply Z.div_lt_upper_bound; [lia|].
    rewrite <- Z.pow_add_r by lia.
    eapply Z.lt_le_trans; [exact Hd|]. apply Z.pow_le_mono_r; lia.
  - rewrite shr_record_of_loc_m. split; [lia|].
    eapply Z.lt_le_trans; [exact Hd|]. apply Z.pow_le_mono_r; lia.
Qed.

Lemma shr_fexp_exponent (m e : Z) (l : location) :
  snd (shr_fexp prec emax m e l) = Z.max (fexp prec emax (Zdigits2 m + e)) e.
Proof.
  unfold shr_fexp, shr.
  destruct (fexp prec emax (Zdigits2 m + e) - e) as [|n|n] eqn:En; cbn [snd]; lia.
Qed.

Lemma round_nearest_even_nonneg (m : Z) (l : location) :
  0 <= m -> 0 <= round_nearest_even m l.
Proof. destruct l as [|[| |]]; simpl; try lia. destruct (Z.even m); lia. Qed.

Lemma round_nearest_even_le (m : Z) (l : location) : round_nearest_even m l <= m + 1.
Proof. destruct l as [|[| |]]; simpl; try lia. destruct (Z.even m); lia. Qed.

Lemma binary_round_aux_small (s : bool) (m e : Z) (l : location) :
  0 <= m -> small (binary_round_aux prec emax s m e l).
Proof.
  intros Hm. unfold binary_round_aux.
  pose proof (shr_fexp_small m e l Hm) as H1.
  destruct (shr_fexp prec emax m e l) as [mrs' e'] eqn:E1. cbn [fst] in H1.
  pose proof (round_nearest_even_nonneg (shr_m mrs') (loc_of_shr_record mrs') (proj1 H1)) as H2.
  pose proof (shr_fexp_small _ e' loc_Exact H2) as H3.
  destruct (shr_fexp prec emax (round_nearest_even (shr_m mrs') (loc_of_shr_record mrs')) e' loc_Exact)
    as [mrs'' e''] eqn:E2. cbn [fst] in H3.
  destruct (shr_m mrs'') as [|p|p]; cbn [small]; trivial.
  destruct (e'' <=? emax - prec); cbn [small]; trivial. lia.
Qed.

(** Products always have a mantissa of at most 53 bits. *)
Lemma mul_small (x y : number) : small (mul x y).
Proof.
  destruct x as [sx|sx| |sx mx ex], y as [sy|sy| |sy my ey];
    try (cbn [mul SFmul small]; exact I).
  apply binary_round_aux_small. lia.
Qed.

(** Rounding a value below [2^1023] does not overflow. *)
Lemma binary_round_aux_finite (s : bool) (m e : Z) (l : location) :
  0 <= m -> Zdigits2 m + e <= 1023 -> e <= 970 ->
  finite_signed s (binary_round_aux prec emax s m e l).
Proof.
  intros Hm Hd He. unfold binary_round_aux.
  pose proof (shr_fexp_small m e l Hm) as H1.
  pose proof (shr_fexp_exponent m e l) as X1.
  destruct (shr_fexp prec emax m e l) as [mrs' e'] eqn:E1. cbn [fst snd] in H1, X1.
  set (m2 := round_nearest_even (shr_m mrs') (loc_of_shr_record mrs')).
  assert (H2 : 0 <= m2 <= 2 ^ 53).
  { split; [apply round_nearest_even_nonneg; lia|].
    pose proof (round_nearest_even_le (shr_m mrs') (loc_of_shr_record mrs')). fold m2 in H. lia. }
  pose proof (shr_fexp_small m2 e' loc_Exact (proj1 H2)) as H3.
  pose proof (shr_fexp_exponent m2 e' loc_Exact) as X3.
  destruct (shr_fexp prec emax m2 e' loc_Exact) as [mrs'' e''] eqn:E2. cbn [fst snd] in H3, X3.
  assert (Hd2 : Zdigits2 m2 <= 54).
  { apply Zdigits2_le_pow; [lia|lia|].
    eapply Z.le_lt_trans; [apply H2|]. apply Z.pow_lt_mono_r; lia. }
  assert (He'' : e'' <= 971).
  { subst e'' e'. unfold fexp, emin, prec, emax in *. lia. }
  destruct (shr_m mrs'') as [|p|p] eqn:Em; cbn [finite_signed]; try reflexivity; try lia.
  replace (e'' <=? emax - prec) with true; [reflexivity|].
  symmetry. apply Z.leb_le. unfold emax, prec. lia.
Qed.

(** Dividing positive finite numbers whose quotient is below [2^1023]
    gives a zero or a finite positive number. *)
Lemma div_finite (mx my : positive) (ex ey : Z) :
  Zpos (digits2_pos mx) + ex - ey <= 1023 -> ex - ey <= 970 ->
  finite_signed false (div (S754_finite false mx ex) (S754_finite false my ey)).
Proof.
  intros Hd He. unfold div, SFdiv, SFdiv_core_binary. cbn [xorb Zdigits2].
  set (e' := Z.min (fexp prec emax (Zpos (digits2_pos mx) + ex - (Zpos (digits2_pos my) + ey))) (ex - ey)).
  set (sft := ex - ey - e').
  set (m' := match sft with Zpos _ => Z.shiftl (Zpos mx) sft | 0 => Zpos mx | Zneg _ => 0 end).
  assert (Hm' : 0 <= m' /\ Zdigits2 m' + e' <= Zpos (digits2_pos mx) + ex - ey).
  { unfold m'. destruct sft as [|k|k] eqn:Es.
    - simpl Zdigits2. lia.
    - rewrite Zdigits2_shiftl. split; [|lia].
      rewrite Z.shiftl_mul_pow2 by lia. apply Z.mul_nonneg_nonneg; [lia|].
      apply Z.pow_nonneg; lia.
    - unfold sft, e' in Es. lia. }
  destruct (Z.div_eucl m' (Zpos my)) as [q r] eqn:Eq.
  assert (Hq : q = m' / Zpos my) by (unfold Z.div; rewrite Eq; reflexivity).
  assert (Hq0 : 0 <= q <= m').
  { subst q. split; [apply Z.div_pos; lia|].
    apply Z.div_le_upper_bound; [lia|]. nia. }
  apply binary_round_aux_finite.
  - lia.
  - pose proof (Zdigits2_mono q m' Hq0). lia.
  - unfold e'. lia.
Qed.

(** The share of a non-negative integer in a positive one is a zero or a
    finite positive number. *)
Lemma div_ofZ_finite (a s : Z) :
  0 <= a < 2 ^ 53 -> 0 < s < 2 ^ 53 -> finite_signed false (div (ofZ a) (ofZ s)).
Proof.
  intros Ha Hs. destruct s as [|ps|ps]; try lia.
  assert (Hds : Zpos (digits2_pos ps) <= 53) by (apply digits2_lt_pow; lia).
  rewrite (ofZ_pos ps Hds).
  destruct a as [|pa|pa]; try lia; [reflexivity|].
  assert (Hda : Zpos (digits2_pos pa) <= 53) by (apply digits2_lt_pow; lia).
  rewrite (ofZ_pos pa Hda). apply div_finite.
  - rewrite (shl53_digits pa Hda). lia.
  - lia.
Qed.

(** With nothing left to share out, every share rounds to [+0]. *)
Lemma share_of_nothing (a s : Z) :
  0 <= a < 2 ^ 53 -> 0 < s < 2 ^ 53 ->
  Math_round (mul (div (ofZ a) (ofZ s)) (ofZ 0)) = ofZ 0.
Proof.
  intros Ha Hs. pose proof (div_ofZ_finite a s Ha Hs) as H.
  destruct (div (ofZ a) (ofZ s)) as [s'|s'| |s' m e]; cbn [finite_signed] in H;
    try contradiction; subst s'; reflexivity.
Qed.

(** ** [Math.round] and [toFixed] *)

(** Bounds on the rounded integer of a value below one unit in the last
    place of an integer. *)
Lemma round_half_up_pos_bounds (m : positive) (e : Z) :
  e < 0 -> 0 <= round_half_up false m e <= Zpos m.
Proof.
  intros He. unfold round_half_up, signed, cond_Zopp.
  destruct (0 <=? e) eqn:E; [apply Z.leb_le in E; lia|].
  assert (Hk : 2 <= 2 ^ (- e)).
  { change 2 with (2 ^ 1) at 1. apply Z.pow_le_mono_r; lia. }
  set (t := 2 ^ (- e)) in *. split.
  - apply Z.div_pos; lia.
  - apply Z.div_le_upper_bound; nia.
Qed.

Lemma round_half_up_neg_bounds (m : positive) (e : Z) :
  e < 0 -> - Zpos m <= round_half_up true m e <= 0.
Proof.
  intros He. unfold round_half_up, signed, cond_Zopp.
  destruct (0 <=? e) eqn:E; [apply Z.leb_le in E; lia|].
  assert (Hk : 2 <= 2 ^ (- e)).
  { change 2 with (2 ^ 1) at 1. apply Z.pow_le_mono_r; lia. }
  set (t := 2 ^ (- e)) in *. split.
  - apply Z.div_le_lower_bound; nia.
  - assert (H : (2 * - Zpos m + t) / (2 * t) < 1); [|lia].
    apply Z.div_lt_upper_bound; lia.
Qed.

(** [round_half_up] is the nearest integer, the upper one on a tie:
    [z - 1/2 <= m * 2^e < z + 1/2], scaled by [2 * 2^(-e)]. *)
Lemma round_half_up_nearest (s : bool) (m : positive) (e : Z) :
  e < 0 ->
  let z := round_half_up s m e in
  (2 * z - 1) * 2 ^ (- e) <= 2 * signed s m < (2 * z + 1) * 2 ^ (- e).
Proof.
  intros He z. unfold z, round_half_up.
  destruct (0 <=? e) eqn:E; [apply Z.leb_le in E; lia|].
  assert (Hk : 0 < 2 ^ (- e)) by (apply Z.pow_pos_nonneg; lia).
  set (t := 2 ^ (- e)) in *. set (a := 2 * signed s m + t).
  pose proof (Z.div_mod a (2 * t) ltac:(lia)) as Hdm.
  pose proof (Z.mod_pos_bound a (2 * t) ltac:(lia)) as Hmod.
  unfold a in *. nia.
Qed.

Lemma intValue_finite_int (s : bool) (p : positive) :
  Zpos (digits2_pos p) <= 53 ->
  intValue (S754_finite s (shl53 p) (Zpos (digits2_pos p) - 53)) = Some (signed s p).
Proof.
  intros Hd. unfold intValue. rewrite (shl53_value p Hd).
  destruct (0 <=? Zpos (digits2_pos p) - 53) eqn:E.
  - apply Z.leb_le in E. replace (Zpos (digits2_pos p) - 53) with 0 by lia.
    f_equal. unfold signed, shl53.
    replace (53 - Zpos (digits2_pos p)) with 0 by lia. destruct s; simpl; lia.
  - replace (- (Zpos (digits2_pos p) - 53)) with (53 - Zpos (digits2_pos p)) by lia.
    assert (Ht : 0 < 2 ^ (53 - Zpos (digits2_pos p))) by (apply Z.pow_pos_nonneg; lia).
    rewrite Z.mod_mul by lia. simpl Z.eqb. cbv iota. f_equal.
    unfold signed. rewrite (shl53_value p Hd).
    destruct s; unfold cond_Zopp.
    + rewrite <- Z.mul_opp_l, Z.div_mul by lia. reflexivity.
    + rewrite Z.div_mul by lia. reflexivity.
Qed.

(** Integer literals below [2^53] in magnitude denote themselves. *)
Lemma intValue_ofZ_gen (z : Z) : Z.abs z < 2 ^ 53 -> intValue (ofZ z) = Some z.
Proof.
  intros Hz. destruct z as [|p|p].
  - reflexivity.
  - assert (Hd : Zpos (digits2_pos p) <= 53) by (apply digits2_lt_pow; lia).
    rewrite (ofZ_pos p Hd). apply (intValue_finite_int false p Hd).
  - assert (Hd : Zpos (digits2_pos p) <= 53) by (apply digits2_lt_pow; lia).
    rewrite (ofZ_neg p Hd). apply (intValue_finite_int true p Hd).
Qed.

Lemma intValue_ofZ (k : Z) : -1 <= k <= 300 -> intValue (ofZ k) = Some k.
Proof.
  intros H. apply intValue_ofZ_gen. change (2 ^ 53) with 9007199254740992. lia.
Qed.


(** [Math.round] returns the nearest integer of a finite number and
    passes [NaN] and the infinities through. *)
Lemma Math_round_nearest (x : number) :
  small x ->
  match x with
  | S754_zero _ | S754_finite _ _ _ =>
      exists z, nearest_int x z /\ intValue (Math_round x) = Some z
  | _ => Math_round x = x
  end.
Proof.
  intros Hsm. destruct x as [s|s| |s m e]; try reflexivity.
  - exists 0. split; reflexivity.
  - cbn [small] in Hsm.
    exists (round_half_up s m e). unfold nearest_int, Math_round.
    destruct (0 <=? e) eqn:He.
    + split.
      * unfold round_half_up. rewrite He. reflexivity.
      * unfold intValue, round_half_up. rewrite He. reflexivity.
    + apply Z.leb_gt in He. split.
      * apply (round_half_up_nearest s m e He).
      * assert (Hb : Z.abs (round_half_up s m e) <= Zpos m).
        { destruct s.
          - pose proof (round_half_up_neg_bounds m e He). lia.
          - pose proof (round_half_up_pos_bounds m e He). lia. }
        destruct (round_half_up s m e =? 0) eqn:Ez.
        -- apply Z.eqb_eq in Ez. rewrite Ez. reflexivity.
        -- apply intValue_ofZ_gen. lia.
Qed.

Lemma Math_round_rounds (w : number) :
  small w -> rounded_to_integer w (Math_round w).
Proof.
  intros H. pose proof (Math_round_nearest w H) as Hn.
  destruct w; exact Hn.
Qed.

(** [Math.round] leaves an integer as it is. *)
Lemma Math_round_int (s : bool) (p : positive) :
  Zpos (digits2_pos p) <= 53 ->
  Math_round (S754_finite s (shl53 p) (Zpos (digits2_pos p) - 53))
  = S754_finite s (shl53 p) (Zpos (digits2_pos p) - 53).
Proof.
  intros Hd. pose proof (shl53_value p Hd) as Hv.
  unfold Math_round. destruct (0 <=? Zpos (digits2_pos p) - 53) eqn:E; [reflexivity|].
  apply Z.leb_gt in E.
  assert (Ht : 0 < 2 ^ (53 - Zpos (digits2_pos p))) by (apply Z.pow_pos_nonneg; lia).
  assert (Hz : round_half_up s (shl53 p) (Zpos (digits2_pos p) - 53) = signed s p).
  { unfold round_half_up. rewrite (proj2 (Z.leb_gt _ _) E).
    replace (- (Zpos (digits2_pos p) - 53)) with (53 - Zpos (digits2_pos p)) by lia.
    set (t := 2 ^ (53 - Zpos (digits2_pos p))) in *.
    symmetry. apply Z.div_unique with t; [lia|].
    unfold signed. rewrite Hv. fold t. destruct s; unfold cond_Zopp; ring. }
  rewrite Hz. destruct s; unfold signed, cond_Zopp.
  - cbn [Z.eqb Z.opp]. apply (binary_round_int true p Hd).
  - cbn [Z.eqb]. apply (binary_round_int false p Hd).
Qed.

Lemma Math_round_ofZ (z : Z) : Z.abs z < 2 ^ 53 -> Math_round (ofZ z) = ofZ z.
Proof.
  intros Hz. destruct z as [|p|p]; [reflexivity| |].
  - assert (Hd : Zpos (digits2_pos p) <= 53) by (apply digits2_lt_pow; lia).
    rewrite (ofZ_pos p Hd). apply Math_round_int, Hd.
  - assert (Hd : Zpos (digits2_pos p) <= 53) by (apply digits2_lt_pow; lia).
    rewrite (ofZ_neg p Hd). apply Math_round_int, Hd.
Qed.

Lemma toFixed_digits_nearest (m : positive) (e f : Z) :
  0 <= f -> nearest_scaled m e f (toFixed_digits m e f).
Proof.
  intros Hf. unfold nearest_scaled, toFixed_digits.
  assert (Ht : 0 < 2 ^ Z.max (- e) 0) by (apply Z.pow_pos_nonneg; lia).
  set (t := 2 ^ Z.max (- e) 0) in *.
  set (a := 2 * 10 ^ f * Zpos m * 2 ^ Z.max e 0).
  pose proof (Z.div_mod (a + t) (2 * t) ltac:(lia)) as Hdm.
  pose proof (Z.mod_pos_bound (a + t) (2 * t) ltac:(lia)) as Hmod.
  nia.
Qed.

Lemma toFixed_number_rounds (v : number) (f : Z) :
  0 <= f -> rounded_to_decimals f v (toFixed_number v f).
Proof.
  intros Hf. destruct v as [s|s| |s m e]; try reflexivity.
  unfold rounded_to_decimals, toFixed_number.
  exists (toFixed_digits m e f). split; [apply toFixed_digits_nearest, Hf|].
  destruct (10 ^ 21 * 2 ^ Z.max (- e) 0 <=? Zpos m * 2 ^ Z.max e 0) eqn:E.
  - right. apply Z.leb_le in E. split; [exact E|reflexivity].
  - left. unfold decimal. destruct (toFixed_digits m e f); reflexivity.
Qed.

(** [toFixed(2)] leaves an integer as it is. *)
Lemma toFixed_number_int (s : bool) (p : positive) :
  Zpos (digits2_pos p) <= 53 ->
  toFixed_number (S754_finite s (shl53 p) (Zpos (digits2_pos p) - 53)) 2
  = S754_finite s (shl53 p) (Zpos (digits2_pos p) - 53).
Proof.
  intros Hd. pose proof (shl53_value p Hd) as Hv.
  pose proof (digits2_bounds p) as [_ Hhi].
  assert (Hp : Zpos p < 2 ^ 53).
  { eapply Z.lt_le_trans; [exact Hhi|]. apply Z.pow_le_mono_r; lia. }
  change (2 ^ 53) with 9007199254740992 in Hp.
  set (e := Zpos (digits2_pos p) - 53) in *.
  assert (He : Z.max (- e) 0 = 53 - Zpos (digits2_pos p) /\ Z.max e 0 = 0) by (unfold e; lia).
  destruct He as [He1 He2].
  assert (Ht : 0 < 2 ^ (53 - Zpos (digits2_pos p))) by (apply Z.pow_pos_nonneg; lia).
  unfold toFixed_number, toFixed_digits. rewrite He1, He2, Hv.
  set (t := 2 ^ (53 - Zpos (digits2_pos p))) in *.
  change (10 ^ 21) with 1000000000000000000000. change (10 ^ 2) with 100.
  change (2 ^ 0) with 1.
  replace (1000000000000000000000 * t <=? Zpos p * t * 1) with false
    by (symmetry; apply Z.leb_gt; nia).
  replace ((2 * 100 * (Zpos p * t) * 1 + t) / (2 * t)) with (Zpos (100 * p)).
  - apply div_100_exact, Hd.
  - apply Z.div_unique with t; [lia|]. rewrite Pos2Z.inj_mul. ring.
Qed.

Lemma toFixed_number_ofZ (z : Z) :
  Z.abs z < 2 ^ 53 -> toFixed_number (ofZ z) 2 = ofZ z.
Proof.
  intros Hz. destruct z as [|p|p]; [reflexivity| |].
  - assert (Hd : Zpos (digits2_pos p) <= 53) by (apply digits2_lt_pow; lia).
    rewrite (ofZ_pos p Hd). apply toFixed_number_int, Hd.
  - assert (Hd : Zpos (digits2_pos p) <= 53) by (apply digits2_lt_pow; lia).
    rewrite (ofZ_neg p Hd). apply toFixed_number_int, Hd.
Qed.

(** ** The two clamps *)

Lemma clampZ_range (x : number) : 0 <= clampZ x <= 100.
Proof. destruct x as [s|[|]| |s m e]; simpl; lia. Qed.

Lemma min_100_small :
  forallb (fun z => number_eqb (Math_min (ofZ 100) (ofZ z)) (ofZ (Z.min 100 z)))
    (Zrange 1 127) = true.
Proof. vm_compute. reflexivity. Qed.

Lemma max_0_small :
  forallb (fun z => number_eqb (Math_max (ofZ 0) (ofZ z)) (ofZ z)) (Zrange 0 100) = true.
Proof. vm_compute. reflexivity. Qed.

Lemma Math_max_0_ofZ (k : Z) : 0 <= k <= 100 -> Math_max (ofZ 0) (ofZ k) = ofZ k.
Proof.
  intros H. apply number_eqb_eq.
  apply (forall_Zrange _ 0 100 max_0_small k H).
Qed.

Lemma Math_min_100_ofZ (z : Z) :
  0 < z < 2 ^ 53 -> Math_min (ofZ 100) (ofZ z) = ofZ (Z.min 100 z).
Proof.
  intros Hz. destruct (Z.le_gt_cases z 127) as [Hs|Hb].
  - apply number_eqb_eq. apply (forall_Zrange _ 1 127 min_100_small z). lia.
  - destruct z as [|p|p]; try lia.
    assert (Hd : Zpos (digits2_pos p) <= 53) by (apply digits2_lt_pow; lia).
    assert (Hd' : 7 < Zpos (digits2_pos p)).
    { apply digits2_ge_pow; [lia|]. change (2 ^ 7) with 128. lia. }
    rewrite Z.min_l by lia. rewrite (ofZ_pos p Hd).
    change (ofZ 100) with (S754_finite false 7036874417766400 (-46)).
    unfold Math_min, SFltb, SFcompare.
    destruct (Z.compare_spec (Zpos (digits2_pos p) - 53) (-46)); try lia.
    reflexivity.
Qed.

(** The clamp of [setAllocForChannel] on anything but [NaN]. *)
Lemma clampVal_spec (x : number) :
  wf x -> isNaN x = false -> clampVal x = ofZ (clampZ x).
Proof.
  intros Hwf Hnan. destruct x as [s|s| |s m e]; try discriminate.
  - destruct s; reflexivity.
  - destruct s; reflexivity.
  - pose proof (wf_digits s m e Hwf) as Hd.
    unfold clampVal, clampZ, Math_round.
    destruct (0 <=? e) eqn:He.
    + apply Z.leb_le in He.
      assert (Hm : Zpos (digits2_pos m) = 53) by (apply (wf_digits_normal s m e Hwf); lia).
      pose proof (digits2_bounds m) as [Hlo _]. rewrite Hm in Hlo.
      change (2 ^ (53 - 1)) with 4503599627370496 in Hlo.
      assert (Hp : 0 < 2 ^ e) by (apply Z.pow_pos_nonneg; lia).
      unfold round_half_up. assert (E : (0 <=? e) = true) by (apply Z.leb_le; lia). rewrite E.
      destruct s; unfold signed, cond_Zopp.
      * rewrite Z.max_l by nia. reflexivity.
      * rewrite Z.min_l by nia.
        change (ofZ 100) with (S754_finite false 7036874417766400 (-46)).
        unfold Math_min, SFltb, SFcompare.
        destruct (Z.compare_spec e (-46)); try lia. reflexivity.
    + apply Z.leb_gt in He. destruct s.
      * pose proof (round_half_up_neg_bounds m e He) as Hb.
        destruct (round_half_up true m e) as [|p|p] eqn:Hz; try lia.
        -- reflexivity.
        -- simpl Z.eqb. cbv iota.
           assert (Hp : Zpos (digits2_pos p) <= 53).
           { transitivity (Zpos (digits2_pos m)); [apply digits2_mono; lia|exact Hd]. }
           rewrite (ofZ_neg p Hp). reflexivity.
      * pose proof (round_half_up_pos_bounds m e He) as Hb.
        destruct (round_half_up false m e) as [|p|p] eqn:Hz; try lia.
        -- reflexivity.
        -- simpl Z.eqb. cbv iota.
           assert (Hp : Zpos (digits2_pos p) <= 53).
           { transitivity (Zpos (digits2_pos m)); [apply digits2_mono; lia|exact Hd]. }
           assert (Hlt : 0 < Zpos p < 2 ^ 53).
           { split; [lia|]. pose proof (digits2_bounds p) as [_ Hhi].
             eapply Z.lt_le_trans; [exact Hhi|]. apply Z.pow_le_mono_r; lia. }
           rewrite (Math_min_100_ofZ _ Hlt).
           rewrite Math_max_0_ofZ by lia. f_equal. lia.
Qed.

(** A clamped value is left alone by the clamp. *)
Lemma clampVal_fixed_check :
  forallb (fun k => number_eqb (clampVal (ofZ k)) (ofZ k)) (Zrange 0 100) = true.
Proof. vm_compute. reflexivity. Qed.

Lemma clampVal_ofZ (k : Z) : 0 <= k <= 100 -> clampVal (ofZ k) = ofZ k.
Proof.
  intros H. apply number_eqb_eq. apply (forall_Zrange _ 0 100 clampVal_fixed_check k H).
Qed.

Ltac finish_ofZ k :=
  match goal with
  | |- _ = ofZ ?z => replace z with k; [reflexivity|]
  end.

(** What [clampPercent] computes on a well-formed number. *)
Lemma clampPercent_spec (n : number) :
  wf n ->
  clampPercent n =
    match n with
    | S754_nan => ofZ 0
    | S754_zero s => S754_zero s
    | _ => ofZ (clampZ n)
    end.
Proof.
  intros Hwf. destruct n as [s|s| |s m e].
  - destruct s; reflexivity.
  - destruct s; reflexivity.
  - reflexivity.
  - pose proof (wf_digits s m e Hwf) as Hd.
    pose proof (digits2_bounds m) as [Hlo Hhi].
    unfold clampPercent, clampZ. cbn [isNaN]. destruct s.
    + (* negative *)
      replace (lt (S754_finite true m e) (ofZ 0)) with true by reflexivity.
      finish_ofZ 0. unfold round_half_up.
      destruct (0 <=? e) eqn:He.
      * apply Z.leb_le in He. assert (0 < 2 ^ e) by (apply Z.pow_pos_nonneg; lia).
        unfold signed, cond_Zopp. nia.
      * apply Z.leb_gt in He. pose proof (round_half_up_neg_bounds m e He) as Hb.
        unfold round_half_up in Hb. rewrite (proj2 (Z.leb_gt 0 e) He) in Hb. lia.
    + replace (lt (S754_finite false m e) (ofZ 0)) with false by reflexivity.
      change (ofZ 100) with (S754_finite false 7036874417766400 (-46)).
      unfold gt, SFltb, SFcompare.
      destruct (Z.compare_spec (-46) e) as [Heq|Hlt|Hgt].
      * (* same binade as 100 *)
        subst e. rewrite Pos.compare_cont_spec. simpl Pos.switch_Eq.
        unfold Math_round, round_half_up. change (0 <=? -46) with false. cbv iota.
        unfold signed, cond_Zopp. change (2 ^ (- -46)) with 70368744177664.
        destruct (Pos.compare_spec 7036874417766400 m) as [E|L|G]; cbn [Pos.switch_Eq].
        -- subst m. reflexivity.
        -- apply Pos2Z.pos_lt_pos in L.
           assert (100 <= (2 * Zpos m + 70368744177664) / (2 * 70368744177664)).
           { apply Z.div_le_lower_bound; lia. }
           finish_ofZ 100. lia.
        -- apply Pos2Z.pos_lt_pos in G.
           assert (Hz : 0 <= (2 * Zpos m + 70368744177664) / (2 * 70368744177664) <= 100).
           { split; [apply Z.div_pos; lia|].
             assert ((2 * Zpos m + 70368744177664) / (2 * 70368744177664) < 101); [|lia].
             apply Z.div_lt_upper_bound; lia. }
           rewrite Z.max_r, Z.min_r by lia.
           destruct ((2 * Zpos m + 70368744177664) / (2 * 70368744177664)); try reflexivity; lia.
      * (* above the binade of 100 *)
        assert (Hm : Zpos (digits2_pos m) = 53) by (apply (wf_digits_normal false m e Hwf); lia).
        rewrite Hm in Hlo. change (2 ^ (53 - 1)) with 4503599627370496 in Hlo.
        finish_ofZ 100. unfold round_half_up, signed, cond_Zopp.
        destruct (0 <=? e) eqn:He.
        -- apply Z.leb_le in He. assert (0 < 2 ^ e) by (apply Z.pow_pos_nonneg; lia). nia.
        -- apply Z.leb_gt in He.
           assert (Ht : 0 < 2 ^ (- e) <= 2 ^ 45).
           { split; [apply Z.pow_pos_nonneg; lia|apply Z.pow_le_mono_r; lia]. }
           change (2 ^ 45) with 35184372088832 in Ht. set (t := 2 ^ (- e)) in *.
           assert (100 <= (2 * Zpos m + t) / (2 * t)).
           { apply Z.div_le_lower_bound; nia. }
           lia.
      * (* below the binade of 100 *)
        unfold Math_round.
        assert (He : (0 <=? e) = false) by (apply Z.leb_gt; lia). rewrite He.
        assert (Hm : Zpos m < 2 ^ 53).
        { eapply Z.lt_le_trans; [exact Hhi|]. apply Z.pow_le_mono_r; lia. }
        change (2 ^ 53) with 9007199254740992 in Hm.
        assert (Ht : 2 ^ 47 <= 2 ^ (- e)) by (apply Z.pow_le_mono_r; lia).
        change (2 ^ 47) with 140737488355328 in Ht.
        assert (Hz : 0 <= round_half_up false m e <= 100).
        { unfold round_half_up. rewrite He. unfold signed, cond_Zopp.
          set (t := 2 ^ (- e)) in *. split; [apply Z.div_pos; lia|].
          assert ((2 * Zpos m + t) / (2 * t) < 101); [|lia].
          apply Z.div_lt_upper_bound; lia. }
        rewrite Z.max_r, Z.min_r by lia.
        destruct (round_half_up false m e); try reflexivity; lia.
Qed.





(** ** [computeForecast] at 0, at 100 and at [NaN] *)

(** An improvement of exactly 100 sends every finite CPA to 0. *)
Lemma computeForecast_100 (last : Forecast) :
  JS.isFinite (CPA last) = true -> CPA (computeForecast last (ofZ 100)) = ofZ 0.
Proof.
  unfold computeForecast. cbn [CPA].
  change (ofZ 1 - ofZ 100 / ofZ 100)%js with (S754_zero false).
  destruct (CPA last) as [s|s| |s m e]; try discriminate; reflexivity.
Qed.

(** Improvement 0 leaves only the two roundings. *)
Lemma computeForecast_0 (x : Forecast) :
  wf (CPA x) -> wf (Conversions x) ->
  computeForecast x (ofZ 0)
  = {| CPA := toFixed_number (CPA x) 2; Conversions := Math_round (Conversions x) |}.
Proof.
  intros H1 H2. unfold computeForecast.
  change (ofZ 1 - ofZ 0 / ofZ 100)%js with (ofZ 1).
  change (ofZ 1 + ofZ 0 / ofZ 100)%js with (ofZ 1).
  rewrite (mul_1_r _ H1), (mul_1_r _ H2). reflexivity.
Qed.



(** ** [setAllocForChannel] *)

Lemma setAllocForChannel_val (mediaAlloc : Alloc) (channel : Channel) (rawVal : number) :
  setAllocForChannel mediaAlloc channel rawVal
  = setAllocVal mediaAlloc channel (clampVal rawVal).
Proof. unfold setAllocForChannel, setAllocVal, clampVal. cbv zeta. reflexivity. Qed.

Ltac alloc_cbn :=
  cbn [filter keys Channel_eqb negb fold_left get set a_OOH a_TV a_Digital a_CTV
       allocOfZ List.length values find others othersSum].

(** The selected channel always ends up holding [val]. *)
Lemma setAllocVal_selected (mediaAlloc : Alloc) (channel : Channel) (val : number) :
  get (setAllocVal mediaAlloc channel val) channel = val.
Proof.
  unfold setAllocVal.
  destruct channel; alloc_cbn;
    repeat match goal with
           | |- context [if ?c then _ else _] => destruct c
           end; reflexivity.
Qed.

Lemma othersSum_ofZ (a b c d : Z) (ch : Channel) :
  0 <= a -> 0 <= b -> 0 <= c -> 0 <= d -> a + b + c + d < 2 ^ 53 ->
  exists s, 0 <= s < 2 ^ 53 /\ othersSum (allocOfZ a b c d) ch = ofZ s
    /\ (forall k, In k (others ch) -> exists x, 0 <= x <= s /\ get (allocOfZ a b c d) k = ofZ x).
Proof.
  intros Ha Hb Hc Hd Hs. unfold othersSum.
  destruct ch; alloc_cbn.
  - exists (b + c + d). split; [lia|]. split.
    + rewrite !add_ofZ by lia. reflexivity.
    + intros k [<-|[<-|[<-|[]]]]; alloc_cbn; eexists; (split; [|reflexivity]); lia.
  - exists (a + c + d). split; [lia|]. split.
    + rewrite !add_ofZ by lia. reflexivity.
    + intros k [<-|[<-|[<-|[]]]]; alloc_cbn; eexists; (split; [|reflexivity]); lia.
  - exists (a + b + d). split; [lia|]. split.
    + rewrite !add_ofZ by lia. reflexivity.
    + intros k [<-|[<-|[<-|[]]]]; alloc_cbn; eexists; (split; [|reflexivity]); lia.
  - exists (a + b + c). split; [lia|]. split.
    + rewrite !add_ofZ by lia. reflexivity.
    + intros k [<-|[<-|[<-|[]]]]; alloc_cbn; eexists; (split; [|reflexivity]); lia.
Qed.

(** Setting a channel to 100 leaves nothing for the others. *)
Lemma setAllocVal_100 (a b c d : Z) (ch : Channel) :
  0 <= a -> 0 <= b -> 0 <= c -> 0 <= d -> a + b + c + d < 2 ^ 53 ->
  setAllocVal (allocOfZ a b c d) ch (ofZ 100) = set (allocOfZ 0 0 0 0) ch (ofZ 100).
Proof.
  intros Ha Hb Hc Hd Hs.
  destruct (othersSum_ofZ a b c d ch Ha Hb Hc Hd Hs) as [s [Hs' [Hsum Hget]]].
  unfold setAllocVal. fold (others ch). fold (othersSum (allocOfZ a b c d) ch).
  rewrite Hsum, (gt_ofZ_0 s Hs').
  change (Math_max (ofZ 0) (ofZ 100 - ofZ 100)%js) with (ofZ 0).
  destruct (0 <? s) eqn:Epos.
  - apply Z.ltb_lt in Epos.
    assert (Hshare : forall k, In k (others ch) ->
              Math_round (get (allocOfZ a b c d) k / ofZ s * ofZ 0)%js = ofZ 0).
    { intros k Hk. destruct (Hget k Hk) as [x [Hx ->]]. apply share_of_nothing; lia. }
    destruct ch; cbn [others filter keys Channel_eqb negb fold_left] in *;
      rewrite !Hshare by (simpl; tauto); reflexivity.
  - destruct ch; reflexivity.
Qed.

(** When the others do not sum to a positive number their current
    values are not read at all. *)
Lemma setAllocVal_no_weights (m : Alloc) (ch : Channel) (v : number) :
  gt (othersSum m ch) (ofZ 0) = false ->
  setAllocVal m ch v = setAllocVal (allocOfZ 0 0 0 0) ch v.
Proof.
  intros H. unfold setAllocVal. fold (others ch).
  fold (othersSum m ch). fold (othersSum (allocOfZ 0 0 0 0) ch). rewrite H.
  replace (gt (othersSum (allocOfZ 0 0 0 0) ch) (ofZ 0)) with false
    by (destruct ch; reflexivity).
  destruct ch; reflexivity.
Qed.

Lemma strictEq_0_not_gt (x : number) :
  strictEq x (ofZ 0) = true -> gt x (ofZ 0) = false.
Proof. destruct x as [s|[|]| |[|] m e]; simpl; try discriminate; reflexivity. Qed.

Lemma evenSplit_check (ch : Channel) :
  forallb (fun k => Alloc_eqb (setAllocVal (allocOfZ 0 0 0 0) ch (ofZ k)) (evenSplit ch k))
    (Zrange 0 100) = true.
Proof. destruct ch; vm_compute; reflexivity. Qed.

Lemma setAllocVal_evenSplit (ch : Channel) (k : Z) :
  0 <= k <= 100 -> setAllocVal (allocOfZ 0 0 0 0) ch (ofZ k) = evenSplit ch k.
Proof.
  intros H. apply Alloc_eqb_eq. apply (forall_Zrange _ 0 100 (evenSplit_check ch) k H).
Qed.

(** The current value of the selected channel is not read. *)
Lemma setAllocVal_own_value (m : Alloc) (ch : Channel) (x v : number) :
  setAllocVal (set m ch x) ch v = setAllocVal m ch v.
Proof.
  destruct m as [x1 x2 x3 x4]. unfold setAllocVal.
  destruct ch; cbn [set get a_OOH a_TV a_Digital a_CTV filter keys Channel_eqb negb fold_left];
    reflexivity.
Qed.

Lemma add_NaN_l (x : number) : (NaN + x)%js = NaN.
Proof. destruct x; reflexivity. Qed.

Lemma add_NaN_r (x : number) : (x + NaN)%js = NaN.
Proof. destruct x; reflexivity. Qed.

(** One [NaN] among the others makes their sum [NaN]. *)
Lemma othersSum_NaN (m : Alloc) (ch : Channel) :
  (exists k, In k (others ch) /\ get m k = NaN) -> othersSum m ch = NaN.
Proof.
  intros [k [Hk E]]. unfold othersSum.
  destruct ch; cbn [others filter keys Channel_eqb negb fold_left] in *;
    destruct Hk as [<-|[<-|[<-|[]]]]; rewrite E;
    rewrite ?add_NaN_r, ?add_NaN_l; reflexivity.
Qed.

Lemma setAllocVal_zero_100 (ch : Channel) :
  setAllocVal (allocOfZ 0 0 0 0) ch (ofZ 100) = set (allocOfZ 0 0 0 0) ch (ofZ 100).
Proof. destruct ch; reflexivity. Qed.

(** Setting a channel to 100 leaves nothing for the others, whatever
    they hold. *)
Lemma setAllocVal_100_any (m : Alloc) (ch : Channel) :
  (forall k, In k (others ch) -> shareValue (get m k)) ->
  setAllocVal m ch (ofZ 100) = set (allocOfZ 0 0 0 0) ch (ofZ 100).
Proof.
  intros H.
  assert (Hcase : (exists k, In k (others ch) /\ get m k = NaN)
                  \/ (forall k, In k (others ch) ->
                        exists n, 0 <= n < 2 ^ 51 /\ get m k = ofZ n)).
  { destruct ch; cbn [others filter keys Channel_eqb negb] in *.
    all: match goal with
         | H : forall k, In k [?x; ?y; ?z] -> _ |- _ =>
             destruct (H x ltac:(simpl; tauto)) as [Ex|Ex];
             [left; exists x; split; [simpl; tauto|exact Ex]|];
             destruct (H y ltac:(simpl; tauto)) as [Ey|Ey];
             [left; exists y; split; [simpl; tauto|exact Ey]|];
             destruct (H z ltac:(simpl; tauto)) as [Ez|Ez];
             [left; exists z; split; [simpl; tauto|exact Ez]|];
             right; intros k [<-|[<-|[<-|[]]]]; assumption
         end. }
  destruct Hcase as [Hnan|Hint].
  - rewrite setAllocVal_no_weights by (rewrite (othersSum_NaN m ch Hnan); reflexivity).
    apply setAllocVal_zero_100.
  - rewrite <- (setAllocVal_own_value m ch (ofZ 0)).
    change (2 ^ 51) with 2251799813685248 in Hint.
    destruct ch; cbn [others filter keys Channel_eqb negb] in Hint.
    + destruct (Hint TV ltac:(simpl; tauto)) as [b [Hb Eb]].
      destruct (Hint Digital ltac:(simpl; tauto)) as [c [Hc Ec]].
      destruct (Hint CTV ltac:(simpl; tauto)) as [d [Hd Ed]].
      destruct m as [x1 x2 x3 x4]. cbn [get set a_OOH a_TV a_Digital a_CTV] in *. subst.
      apply (setAllocVal_100 0 b c d OOH); lia.
    + destruct (Hint OOH ltac:(simpl; tauto)) as [b [Hb Eb]].
      destruct (Hint Digital ltac:(simpl; tauto)) as [c [Hc Ec]].
      destruct (Hint CTV ltac:(simpl; tauto)) as [d [Hd Ed]].
      destruct m as [x1 x2 x3 x4]. cbn [get set a_OOH a_TV a_Digital a_CTV] in *. subst.
      apply (setAllocVal_100 b 0 c d TV); lia.
    + destruct (Hint OOH ltac:(simpl; tauto)) as [b [Hb Eb]].
      destruct (Hint TV ltac:(simpl; tauto)) as [c [Hc Ec]].
      destruct (Hint CTV ltac:(simpl; tauto)) as [d [Hd Ed]].
      destruct m as [x1 x2 x3 x4]. cbn [get set a_OOH a_TV a_Digital a_CTV] in *. subst.
      apply (setAllocVal_100 b c 0 d Digital); lia.
    + destruct (Hint OOH ltac:(simpl; tauto)) as [b [Hb Eb]].
      destruct (Hint TV ltac:(simpl; tauto)) as [c [Hc Ec]].
      destruct (Hint Digital ltac:(simpl; tauto)) as [d [Hd Ed]].
      destruct m as [x1 x2 x3 x4]. cbn [get set a_OOH a_TV a_Digital a_CTV] in *. subst.
      apply (setAllocVal_100 b c d 0 CTV); lia.
Qed.

(** ** The performance log *)

Section Log.

Variable insights : list (string * Insight).
Variable numberToString : number -> string.

Lemma lastPoint_snoc (d : list PerformancePoint) (last : PerformancePoint) :
  lastPoint (d ++ [last]) = Some last.
Proof.
  unfold lastPoint. rewrite length_app. cbn [List.length].
  replace (List.length d + 1 - 1)%nat with (List.length d) by lia.
  rewrite nth_error_app2 by lia. rewrite Nat.sub_diag. reflexivity.
Qed.

Lemma applyImprovement_log (label : string) (improvement_arg : option number)
    (st : AppState) (d : list PerformancePoint) (last : PerformancePoint) :
  performanceData st = d ++ [last] ->
  exists st',
    applyImprovement insights numberToString label improvement_arg st = Some st'
    /\ performanceData st'
       = performanceData st
         ++ [forecastPoint label last
               (chosenImprovement insights (findParentPanel insights label) improvement_arg)]
    /\ mediaAlloc st' = mediaAlloc st.
Proof.
  intros Hd. unfold applyImprovement. rewrite Hd, lastPoint_snoc.
  eexists. split; [reflexivity|]. split; reflexivity.
Qed.

Lemma includes_false (l : list string) (x : string) :
  ~ In x l -> includes l x = false.
Proof.
  intros H. unfold includes. apply not_true_is_false. intros E.
  apply existsb_exists in E. destruct E as [y [Hy Ey]].
  apply String.eqb_eq in Ey. subst y. contradiction.
Qed.

Lemma someNamed_false {A : Type} (l : list (string * A)) (label : string) :
  ~ In label (map fst l) -> someNamed l label = false.
Proof.
  intros H. unfold someNamed. apply not_true_is_false. intros E.
  apply existsb_exists in E. destruct E as [y [Hy Ey]].
  apply String.eqb_eq in Ey. apply H. rewrite <- Ey. apply in_map, Hy.
Qed.

Lemma findParentPanel_unknown (label : string) :
  ~ In label (map fst insights) ->
  ~ In label (map fst mediaInventorySubcategories) ->
  ~ In label (map fst dataFeedSubcategories) ->
  findParentPanel insights label = None.
Proof.
  intros H1 H2 H3. unfold findParentPanel.
  rewrite (includes_false _ _ H1), (someNamed_false _ _ H2), (someNamed_false _ _ H3).
  reflexivity.
Qed.

End Log.

(** ** The improvement a call applies *)

Lemma includes_In (l : list string) (x : string) : includes l x = true -> In x l.
Proof.
  unfold includes. intros H. apply existsb_exists in H. destruct H as [y [Hy E]].
  apply String.eqb_eq in E. subst y. exact Hy.
Qed.

Lemma In_includes (l : list string) (x : string) : In x l -> includes l x = true.
Proof.
  unfold includes. intros H. apply existsb_exists. exists x. split; [exact H|].
  apply String.eqb_refl.
Qed.

Lemma lookup_In {A : Type} (l : list (string * A)) (k : string) :
  In k (map fst l) -> exists v, lookup l k = Some v.
Proof.
  induction l as [|[k' v'] l IH]; cbn [map fst In lookup]; [contradiction|].
  intros [E|H].
  - subst k'. rewrite String.eqb_refl. exists v'. reflexivity.
  - destruct (String.eqb k' k); [exists v'; reflexivity|apply IH, H].
Qed.

Lemma someNamed_In {A : Type} (l : list (string * A)) (label : string) :
  someNamed l label = true -> In label (map fst l).
Proof.
  unfold someNamed. intros H. apply existsb_exists in H. destruct H as [y [Hy E]].
  apply String.eqb_eq in E. subst label. apply in_map, Hy.
Qed.

Lemma In_someNamed {A : Type} (l : list (string * A)) (label : string) :
  In label (map fst l) -> someNamed l label = true.
Proof.
  unfold someNamed. intros H. apply in_map_iff in H. destruct H as [y [E Hy]].
  apply existsb_exists. exists y. split; [exact Hy|]. apply String.eqb_eq, E.
Qed.

Lemma includes_not_In (l : list string) (x : string) : includes l x = false -> ~ In x l.
Proof. intros H Hin. rewrite (In_includes _ _ Hin) in H. discriminate H. Qed.

Lemma someNamed_not_In {A : Type} (l : list (string * A)) (label : string) :
  someNamed l label = false -> ~ In label (map fst l).
Proof. intros H Hin. rewrite (In_someNamed _ _ Hin) in H. discriminate H. Qed.

(** [findParentPanel] returns the panel the label stands for. *)
Lemma findParentPanel_parentPanelOf (insights : list (string * Insight)) (label : string) :
  parentPanelOf insights label (findParentPanel insights label).
Proof.
  unfold findParentPanel.
  destruct (includes (map fst insights) label) eqn:E1.
  - apply parent_self, includes_In, E1.
  - apply includes_not_In in E1.
    destruct (someNamed mediaInventorySubcategories label) eqn:E2.
    + apply parent_media; [exact E1|apply someNamed_In, E2].
    + apply someNamed_not_In in E2.
      destruct (someNamed dataFeedSubcategories label) eqn:E3.
      * apply parent_feed; [exact E1|exact E2|apply someNamed_In, E3].
      * apply someNamed_not_In in E3. apply parent_none; assumption.
Qed.

Lemma parentPanelOf_unique (insights : list (string * Insight)) (label : string)
    (p q : option string) :
  parentPanelOf insights label p -> parentPanelOf insights label q -> p = q.
Proof.
  intros Hp Hq. destruct Hp; destruct Hq; try reflexivity; contradiction.
Qed.

(** The entry under a key is what the property lookup returns. *)
Lemma entryOf_lookup {A : Type} (obj : list (string * A)) (key : string) (v : A) :
  entryOf obj key v <-> lookup obj key = Some v.
Proof.
  split.
  - intros [l1 [l2 [E Hn]]]. subst obj.
    induction l1 as [|[k' v'] l1 IH]; cbn [app lookup].
    + rewrite String.eqb_refl. reflexivity.
    + cbn [map fst In] in Hn.
      destruct (String.eqb k' key) eqn:Ek.
      * apply String.eqb_eq in Ek. exfalso. apply Hn. left. exact Ek.
      * apply IH. intros H. apply Hn. right. exact H.
  - induction obj as [|[k' v'] obj IH]; cbn [lookup]; [intros H; discriminate H|].
    destruct (String.eqb k' key) eqn:Ek.
    + intros H. injection H as ->. apply String.eqb_eq in Ek. subst k'.
      exists [], obj. split; [reflexivity|]. cbn [map In]. tauto.
    + intros H. destruct (IH H) as [l1 [l2 [E Hn]]]. subst obj.
      exists ((k', v') :: l1), l2. split; [reflexivity|].
      cbn [map fst In]. intros [E|Hin]; [|exact (Hn Hin)].
      subst k'. rewrite String.eqb_refl in Ek. discriminate Ek.
Qed.

(** The improvement [applyImprovement] computes is the one the call
    applies. *)
Lemma chosenImprovement_chosen (insights : list (string * Insight)) (label : string)
    (improvement_arg : option number) :
  improvementChosen insights label improvement_arg
    (chosenImprovement insights (findParentPanel insights label) improvement_arg).
Proof.
  destruct improvement_arg as [x|]; [apply chosen_argument|].
  pose proof (findParentPanel_parentPanelOf insights label) as Hp.
  unfold chosenImprovement.
  destruct (findParentPanel insights label) as [k|]; cbn [truthyKey].
  - destruct (String.eqb k EmptyString) eqn:Ek.
    + apply String.eqb_eq in Ek. apply chosen_zero. intros p info Hq Hne _.
      pose proof (parentPanelOf_unique _ _ _ _ Hp Hq) as E. injection E as <-.
      contradiction.
    + destruct (lookup insights k) as [info|] eqn:El.
      * unfold JS.or. destruct (truthy (improvement info)) eqn:Et.
        -- apply (chosen_of_panel insights label k info Hp).
           ++ intros E. subst k. discriminate Ek.
           ++ apply entryOf_lookup, El.
           ++ exact Et.
        -- apply chosen_zero. intros p info' Hq _ He.
           pose proof (parentPanelOf_unique _ _ _ _ Hp Hq) as E. injection E as <-.
           apply entryOf_lookup in He. rewrite El in He. injection He as <-. exact Et.
      * apply chosen_zero. intros p info' Hq _ He.
        pose proof (parentPanelOf_unique _ _ _ _ Hp Hq) as E. injection E as <-.
        apply entryOf_lookup in He. rewrite El in He. discriminate He.
  - apply chosen_zero. intros p info Hq _ _.
    pose proof (parentPanelOf_unique _ _ _ _ Hp Hq) as E. discriminate E.
Qed.

(** A call applies one improvement and no other. *)
Lemma improvementChosen_unique (insights : list (string * Insight)) (label : string)
    (improvement_arg : option number) (x y : number) :
  improvementChosen insights label improvement_arg x ->
  improvementChosen insights label improvement_arg y -> x = y.
Proof.
  intros Hx Hy.
  destruct Hx as [x|p info Hp Hne He Ht|Hz].
  - inversion Hy. reflexivity.
  - inversion Hy as [|q info' Hq Hne' He' Ht'|Hz'].
    + pose proof (parentPanelOf_unique _ _ _ _ Hp Hq) as E. injection E as <-.
      apply entryOf_lookup in He, He'. rewrite He in He'. injection He' as <-. reflexivity.
    + rewrite (Hz' p info Hp Hne He) in Ht. discriminate Ht.
  - inversion Hy as [|q info' Hq Hne' He' Ht'|Hz'].
    + rewrite (Hz q info' Hq Hne' He') in Ht'. discriminate Ht'.
    + reflexivity.
Qed.

(** The performance log of a reachable state is never empty, so
    [applyImprovement] always finds a last point. *)
Lemma reachable_log_nonempty insights numberToString (st : AppState) :
  reachable insights numberToString st ->
  exists d last, performanceData st = d ++ [last].
Proof.
  induction 1 as [|st ch raw _ IH|st label imp st' _ IH Happ].
  - exists (firstn 3 initialPerformanceData), (nth 3 initialPerformanceData
      {| cycle := EmptyString; actualCPA := NaN; actualConversions := NaN;
         forecastCPA := NaN; forecastConversions := NaN |}).
    reflexivity.
  - exact IH.
  - destruct IH as [d [last Hd]].
    destruct (applyImprovement_log insights numberToString label imp st d last Hd)
      as [st'' [E [Hlog _]]].
    rewrite E in Happ. injection Happ as <-.
    eexists. eexists. exact Hlog.
Qed.

(** So no call of [applyImprovement] the component can make throws. *)
Lemma applyImprovement_never_throws insights numberToString (st : AppState)
    (label : string) (improvement_arg : option number) :
  reachable insights numberToString st ->
  exists st',
    applyImprovement insights numberToString label improvement_arg st = Some st'
    /\ reachable insights numberToString st'.
Proof.
  intros Hr. destruct (reachable_log_nonempty _ _ st Hr) as [d [last Hd]].
  destruct (applyImprovement_log insights numberToString label improvement_arg st d last Hd)
    as [st' [E _]].
  exists st'. split; [exact E|]. exact (reach_apply _ _ st label improvement_arg st' Hr E).
Qed.

(** * The properties the specification states *)

(** C1 fails on the code.  From the initial allocation, moving OOH to 0
    and then Digital to 4 leaves [{OOH: 0, TV: 65, Digital: 4, CTV: 32}],
    which sums to 101: both shares round up (64.5 and 31.5), and the
    fix-up, applied to OOH, is cut off at 0.  The component reaches that
    state by two moves of the slider. *)
Theorem setAlloc_sum_drift :
  let a1 := setAllocForChannel initialMediaAlloc OOH (ofZ 0) in
  let a2 := setAllocForChannel a1 Digital (ofZ 4) in
  a1 = allocOfZ 0 43 36 21 /\ a2 = allocOfZ 0 65 4 32
  /\ allocTotal a2 = ofZ 101 /\ strictNe (allocTotal a2) (ofZ 100) = true
  /\ forall insights numberToString,
       reachable insights numberToString
         {| mediaAlloc := a2;
            performanceData := initialPerformanceData;
            aiActivities := initialAiActivities |}.
Proof.
  cbv zeta. split; [vm_compute; reflexivity|]. split; [vm_compute; reflexivity|].
  split; [vm_compute; reflexivity|]. split; [vm_compute; reflexivity|].
  intros insights numberToString.
  apply (reach_alloc insights numberToString
           {| mediaAlloc := setAllocForChannel initialMediaAlloc OOH (ofZ 0);
              performanceData := initialPerformanceData;
              aiActivities := initialAiActivities |} Digital (ofZ 4)).
  apply (reach_alloc insights numberToString initialState OOH (ofZ 0)).
  apply reach_init.
Qed.

(** The same drift in one step from an allocation that sums to 100. *)
Example sum_drift_one_step :
  setAllocForChannel (allocOfZ 98 0 1 1) OOH (ofZ 99) = allocOfZ 99 0 1 1.
Proof. vm_compute. reflexivity. Qed.

(** C2. For every pair [last] and every percentage [p],
    [computeForecast last p] holds [CPA last * (1 - p/100)] rounded to
    two decimals and [Conversions last * (1 + p/100)] rounded to the
    nearest integer; with [p = 100] a finite CPA becomes 0. *)
Theorem computeForecast_spec (last : Forecast) (p : number) :
  rounded_to_decimals 2 (CPA last * (ofZ 1 - p / ofZ 100))%js
    (CPA (computeForecast last p))
  /\ rounded_to_integer (Conversions last * (ofZ 1 + p / ofZ 100))%js
       (Conversions (computeForecast last p))
  /\ (JS.isFinite (CPA last) = true ->
      CPA (computeForecast last (ofZ 100)) = ofZ 0).
Proof.
  split; [|split].
  - apply toFixed_number_rounds. lia.
  - apply Math_round_rounds, mul_small.
  - apply computeForecast_100.
Qed.

(** The theorem at the development test [{CPA: 80, Conversions: 50}]. *)
Lemma computeForecast_spec_witness :
  JS.isFinite (ofZ 80) = true
  /\ CPA (computeForecast {| CPA := ofZ 80; Conversions := ofZ 50 |} (ofZ 100)) = ofZ 0.
Proof.
  split; [reflexivity|].
  apply (computeForecast_spec {| CPA := ofZ 80; Conversions := ofZ 50 |} (ofZ 100)).
  reflexivity.
Defined.

(** C3. [computeCompositeImprovement] returns 0 when the allocation
    sums to 0 or less, and otherwise the weighted rate rounded to one
    decimal; on the equal allocation that is the average of the four
    rates rounded to one decimal, and on the all-zero allocation 0. *)
Theorem compositeImprovement_spec (alloc : Alloc) :
  computeCompositeImprovement alloc
  = (if le (allocSum alloc) (ofZ 0) then ofZ 0 else one_decimal (weightedRate alloc))
  /\ computeCompositeImprovement (allocOfZ 25 25 25 25) = one_decimal averageRate
  /\ computeCompositeImprovement (allocOfZ 0 0 0 0) = ofZ 0.
Proof.
  split; [|split].
  - unfold computeCompositeImprovement, allocSum, weightedRate, one_decimal.
    cbn [map snd fst values mediaInventorySubcategories fold_left keys get lookup String.eqb
         Ascii.eqb Bool.eqb].
    reflexivity.
  - vm_compute. reflexivity.
  - vm_compute. reflexivity.
Qed.

Example composite_equal_allocation :
  computeCompositeImprovement (allocOfZ 25 25 25 25) = dec 74 1.
Proof. vm_compute. reflexivity. Qed.




(** C5 as stated fails: improvement 0 still rounds, so a CPA of 33.333
    comes back as 33.33. *)
Lemma computeForecast_0_not_identity :
  computeForecast {| CPA := dec 33333 3; Conversions := ofZ 200 |} (ofZ 0)
  <> {| CPA := dec 33333 3; Conversions := ofZ 200 |}.
Proof. vm_compute. discriminate. Qed.

Example computeForecast_0_rounds :
  computeForecast {| CPA := dec 33333 3; Conversions := ofZ 200 |} (ofZ 0)
  = {| CPA := dec 3333 2; Conversions := ofZ 200 |}
  /\ computeForecast {| CPA := ofZ 40; Conversions := dec 5 1 |} (ofZ 0)
     = {| CPA := ofZ 40; Conversions := ofZ 1 |}.
Proof. split; vm_compute; reflexivity. Qed.

(** C5, as the code has it: improvement 0 returns the pair with its CPA
    rounded to two decimals and its Conversions rounded to the nearest
    integer, so it is the identity exactly on the pairs that these two
    roundings leave unchanged; every integer-valued pair is one. *)
Theorem computeForecast_0_identity (x : Forecast) :
  wf (CPA x) -> wf (Conversions x) ->
  computeForecast x (ofZ 0)
  = {| CPA := toFixed_number (CPA x) 2; Conversions := Math_round (Conversions x) |}
  /\ (computeForecast x (ofZ 0) = x
      <-> toFixed_number (CPA x) 2 = CPA x /\ Math_round (Conversions x) = Conversions x)
  /\ (forall a b : Z,
        Z.abs a < 2 ^ 53 -> Z.abs b < 2 ^ 53 ->
        x = {| CPA := ofZ a; Conversions := ofZ b |} -> computeForecast x (ofZ 0) = x).
Proof.
  intros H1 H2. pose proof (computeForecast_0 x H1 H2) as E. split; [exact E|].
  rewrite E. split.
  - destruct x as [c n]. cbn [CPA Conversions]. split.
    + intros H. injection H as Hc Hn. split; assumption.
    + intros [Hc Hn]. rewrite Hc, Hn. reflexivity.
  - intros a b Ha Hb ->. cbn [CPA Conversions].
    rewrite (toFixed_number_ofZ a Ha), (Math_round_ofZ b Hb). reflexivity.
Qed.

(** The theorem at the pair [{CPA: 100, Conversions: 200}] of the
    development test, which improvement 0 returns unchanged. *)
Lemma computeForecast_0_identity_witness :
  (wf (ofZ 100) /\ wf (ofZ 200))
  /\ computeForecast {| CPA := ofZ 100; Conversions := ofZ 200 |} (ofZ 0)
     = {| CPA := ofZ 100; Conversions := ofZ 200 |}.
Proof.
  split; [split; reflexivity|].
  apply (computeForecast_0_identity {| CPA := ofZ 100; Conversions := ofZ 200 |});
    [reflexivity|reflexivity|split; reflexivity].
Defined.

(** C6. A call of [applyImprovement] on a log that ends in [last]
    appends exactly one point and leaves the recorded points as they
    were, in their order; the new point carries the actual fields of
    [last] forward, and its forecast fields are [computeForecast] of the
    forecast fields of [last] and the chosen improvement: the argument
    of the call when it has one, otherwise the improvement the insight
    table holds for the panel of the label, and 0 when there is none. *)
Theorem applyImprovement_appends (insights : list (string * Insight))
    (numberToString : number -> string) (label : string)
    (improvement_arg : option number) (st : AppState)
    (d : list PerformancePoint) (last : PerformancePoint) :
  performanceData st = d ++ [last] ->
  exists st' pt imp,
    applyImprovement insights numberToString label improvement_arg st = Some st'
    /\ performanceData st' = performanceData st ++ [pt]
    /\ actualCPA pt = actualCPA last
    /\ actualConversions pt = actualConversions last
    /\ improvementChosen insights label improvement_arg imp
    /\ {| CPA := forecastCPA pt; Conversions := forecastConversions pt |}
       = computeForecast
           {| CPA := forecastCPA last; Conversions := forecastConversions last |}
           imp.
Proof.
  intros Hd.
  destruct (applyImprovement_log insights numberToString label improvement_arg st d last Hd)
    as [st' [E [Hlog _]]].
  exists st'.
  exists (forecastPoint label last
            (chosenImprovement insights (findParentPanel insights label) improvement_arg)).
  exists (chosenImprovement insights (findParentPanel insights label) improvement_arg).
  split; [exact E|]. split; [exact Hlog|].
  unfold forecastPoint. cbn [actualCPA actualConversions forecastCPA forecastConversions].
  split; [reflexivity|]. split; [reflexivity|].
  split; [apply chosenImprovement_chosen|reflexivity].
Qed.

(** The theorem on the freshly mounted component, for the panel
    "Creative": cycle 4 is the last point, the table holds 12 for the
    panel, and the new point forecasts a CPA of 35.2 and 213
    conversions. *)
Lemma applyImprovement_appends_witness :
  performanceData initialState
  = firstn 3 initialPerformanceData
    ++ [ {| cycle := "Cycle 4"; actualCPA := ofZ 38; actualConversions := ofZ 195;
            forecastCPA := ofZ 40; forecastConversions := ofZ 190 |} ]
  /\ exists st' pt imp,
       (applyImprovement baseInsights (fun _ => EmptyString) "Creative" None initialState
        = Some st'
        /\ performanceData st' = performanceData initialState ++ [pt]
        /\ actualCPA pt = ofZ 38
        /\ actualConversions pt = ofZ 195
        /\ improvementChosen baseInsights "Creative" None imp
        /\ {| CPA := forecastCPA pt; Conversions := forecastConversions pt |}
           = computeForecast {| CPA := ofZ 40; Conversions := ofZ 190 |} imp)
       /\ imp = ofZ 12
       /\ forecastCPA pt = dec 352 1
       /\ forecastConversions pt = ofZ 213.
Proof.
  split; [reflexivity|].
  destruct (applyImprovement_appends baseInsights (fun _ => EmptyString) "Creative" None
              initialState (firstn 3 initialPerformanceData)
              {| cycle := "Cycle 4"; actualCPA := ofZ 38; actualConversions := ofZ 195;
                 forecastCPA := ofZ 40; forecastConversions := ofZ 190 |} eq_refl)
    as [st' [pt [imp H]]].
  exists st', pt, imp. split; [exact H|].
  destruct H as [_ [_ [_ [_ [Hi Hf]]]]].
  assert (E : imp = ofZ 12).
  { apply (improvementChosen_unique baseInsights "Creative" None imp (ofZ 12) Hi).
    apply (chosen_of_panel baseInsights "Creative" "Creative"
             {| text := "Test new ad concepts with different CTAs and visuals to boost engagement.";
                improvement := ofZ 12;
                aiControl := ["Automated creative variant generation"; "Dynamic CTA testing"];
                aiRequest := ["Direct integration with creative approval workflows";
                              "Access to DAM for assets"] |}).
    - apply parent_self. simpl. tauto.
    - intros C. discriminate C.
    - exists (firstn 3 baseInsights), (skipn 4 baseInsights). split; [reflexivity|].
      simpl. intros [C|[C|[C|[]]]]; discriminate C.
    - reflexivity. }
  split; [exact E|]. subst imp.
  assert (C : computeForecast {| CPA := ofZ 40; Conversions := ofZ 190 |} (ofZ 12)
              = {| CPA := dec 352 1; Conversions := ofZ 213 |}) by (vm_compute; reflexivity).
  pose proof (eq_trans Hf C) as Hpt.
  split; [exact (f_equal CPA Hpt)|exact (f_equal Conversions Hpt)].
Defined.

(** C7. For every current allocation, setting a channel to 100 gives
    that channel 100 and each of the three others 0, whatever the prior
    weights: the others may hold any non-negative integers (or [NaN]), and
    the channel itself anything. *)
Theorem setAlloc_to_100 (mediaAlloc : Alloc) (channel : Channel) :
  (forall k, In k (others channel) -> shareValue (get mediaAlloc k)) ->
  setAllocForChannel mediaAlloc channel (ofZ 100)
  = set (allocOfZ 0 0 0 0) channel (ofZ 100).
Proof.
  intros H.
  rewrite setAllocForChannel_val, (clampVal_ofZ 100) by lia.
  now apply setAllocVal_100_any.
Qed.

(** The theorem at the initial allocation, for the channel OOH. *)
Lemma setAlloc_to_100_witness :
  (forall k, In k (others OOH) -> shareValue (get initialMediaAlloc k))
  /\ setAllocForChannel initialMediaAlloc OOH (ofZ 100) = allocOfZ 100 0 0 0.
Proof.
  assert (H : forall k, In k (others OOH) -> shareValue (get initialMediaAlloc k)).
  { intros k [<-|[<-|[<-|[]]]]; right.
    - exists 30. split; [lia|reflexivity].
    - exists 25. split; [lia|reflexivity].
    - exists 15. split; [lia|reflexivity]. }
  split; [exact H|]. apply (setAlloc_to_100 initialMediaAlloc OOH H).
Defined.

(** C8. When the three other channels currently sum to 0, each of
    them receives [floor (remaining / 3)] with [remaining = 100 - val],
    and the leftover [remaining mod 3] goes to the first of them in key
    order: the result is [evenSplit]. *)
Theorem setAlloc_even_split (mediaAlloc : Alloc) (channel : Channel) (rawVal : number) :
  wf rawVal -> isNaN rawVal = false ->
  strictEq (othersSum mediaAlloc channel) (ofZ 0) = true ->
  exists k : Z,
    0 <= k <= 100 /\ clampVal rawVal = ofZ k
    /\ setAllocForChannel mediaAlloc channel rawVal = evenSplit channel k.
Proof.
  intros Hwf Hnan Hsum. exists (clampZ rawVal).
  pose proof (clampZ_range rawVal) as Hr.
  pose proof (clampVal_spec rawVal Hwf Hnan) as Hv.
  split; [exact Hr|]. split; [exact Hv|].
  rewrite setAllocForChannel_val, Hv.
  rewrite setAllocVal_no_weights by (apply strictEq_0_not_gt, Hsum).
  apply setAllocVal_evenSplit, Hr.
Qed.

(** The theorem at [{OOH: 100, TV: 0, Digital: 0, CTV: 0}], moving OOH
    to 49.6: OOH becomes 50, TV 18 (16 and the leftover 2), the rest 16. *)
Lemma setAlloc_even_split_witness :
  (wf (dec 496 1) /\ isNaN (dec 496 1) = false
   /\ strictEq (othersSum (allocOfZ 100 0 0 0) OOH) (ofZ 0) = true)
  /\ exists k : Z,
       0 <= k <= 100 /\ clampVal (dec 496 1) = ofZ k
       /\ setAllocForChannel (allocOfZ 100 0 0 0) OOH (dec 496 1) = evenSplit OOH k.
Proof.
  split; [repeat split|].
  apply (setAlloc_even_split (allocOfZ 100 0 0 0) OOH (dec 496 1)); reflexivity.
Defined.

Example even_split_example :
  setAllocForChannel (allocOfZ 100 0 0 0) OOH (dec 496 1) = allocOfZ 50 18 16 16.
Proof. vm_compute. reflexivity. Qed.

(** C9. With a label that is no panel of the insight table and no
    subcategory, and no explicit improvement, the lookup yields no panel,
    the improvement is 0, and the appended forecast is [computeForecast]
    of the previous forecast with improvement 0. *)
Theorem applyImprovement_unknown_label (insights : list (string * Insight))
    (numberToString : number -> string) (label : string) (st : AppState)
    (d : list PerformancePoint) (last : PerformancePoint) :
  ~ In label (map fst insights) ->
  ~ In label (map fst mediaInventorySubcategories) ->
  ~ In label (map fst dataFeedSubcategories) ->
  performanceData st = d ++ [last] ->
  findParentPanel insights label = None
  /\ chosenImprovement insights (findParentPanel insights label) None = ofZ 0
  /\ exists st',
       applyImprovement insights numberToString label None st = Some st'
       /\ performanceData st'
          = performanceData st ++ [forecastPoint label last (ofZ 0)].
Proof.
  intros H1 H2 H3 Hd.
  pose proof (findParentPanel_unknown insights label H1 H2 H3) as Hp.
  split; [exact Hp|]. split; [rewrite Hp; reflexivity|].
  destruct (applyImprovement_log insights numberToString label None st d last Hd)
    as [st' [E [Hlog _]]].
  exists st'. split; [exact E|]. rewrite Hlog, Hp. reflexivity.
Qed.

(** The theorem on the freshly mounted component, for the label
    "Overview", which is a panel of the navigation but has no insight. *)
Lemma applyImprovement_unknown_label_witness :
  (~ In "Overview"%string (map fst baseInsights)
   /\ ~ In "Overview"%string (map fst mediaInventorySubcategories)
   /\ ~ In "Overview"%string (map fst dataFeedSubcategories))
  /\ exists st',
       applyImprovement baseInsights (fun _ => EmptyString) "Overview" None initialState
       = Some st'
       /\ performanceData st'
          = initialPerformanceData
            ++ [ {| cycle := "Forecast: Overview";
                    actualCPA := ofZ 38; actualConversions := ofZ 195;
                    forecastCPA := ofZ 40; forecastConversions := ofZ 190 |} ].
Proof.
  assert (H : ~ In "Overview"%string (map fst baseInsights)
              /\ ~ In "Overview"%string (map fst mediaInventorySubcategories)
              /\ ~ In "Overview"%string (map fst dataFeedSubcategories)).
  { simpl. repeat split; intros H; repeat (destruct H as [H|H]; [discriminate H|]); exact H. }
  split; [exact H|]. destruct H as [H1 [H2 H3]].
  destruct (applyImprovement_unknown_label baseInsights (fun _ => EmptyString) "Overview"
              initialState (firstn 3 initialPerformanceData)
              {| cycle := "Cycle 4"; actualCPA := ofZ 38; actualConversions := ofZ 195;
                 forecastCPA := ofZ 40; forecastConversions := ofZ 190 |}
              H1 H2 H3 eq_refl) as [_ [_ [st' [E Hlog]]]].
  exists st'. split; [exact E|]. rewrite Hlog. vm_compute. reflexivity.
Defined.

(** In the second copy of the component "AI Activities" is an entry of
    the table, with improvement 0; in the first it is an unknown label.
    Either way the improvement applied is 0. *)
Example ai_activities_label :
  findParentPanel baseInsights "AI Activities" = None
  /\ findParentPanel inlineInsights "AI Activities" = Some "AI Activities"%string
  /\ chosenImprovement baseInsights (findParentPanel baseInsights "AI Activities") None = ofZ 0
  /\ chosenImprovement inlineInsights (findParentPanel inlineInsights "AI Activities") None
     = ofZ 0.
Proof. repeat split. Qed.



(** C10. For every number [n], [NaN] and the infinities included,
    [clampPercent n] is an integer of [[0, 100]]: 0 for [NaN] and for
    negative inputs, 100 for inputs above 100, and the nearest integer of
    an input in range. *)
Theorem clampPercent_range (n : number) :
  wf n ->
  exists k : Z,
    0 <= k <= 100 /\ intValue (clampPercent n) = Some k
    /\ (isNaN n = true -> k = 0)
    /\ (lt n (ofZ 0) = true -> k = 0)
    /\ (gt n (ofZ 100) = true -> k = 100)
    /\ (isNaN n = false -> lt n (ofZ 0) = false -> gt n (ofZ 100) = false ->
        nearest_int n k).
Proof.
  intros Hwf.
  set (k := match n with S754_nan | S754_zero _ => 0 | _ => clampZ n end).
  assert (Hr : 0 <= k <= 100).
  { unfold k. destruct n; try lia; apply clampZ_range. }
  assert (Hv : intValue (clampPercent n) = Some k).
  { rewrite (clampPercent_spec n Hwf). unfold k.
    destruct n as [s|s| |s m e]; try reflexivity.
    - apply intValue_ofZ. pose proof (clampZ_range (S754_infinity s)). lia.
    - apply intValue_ofZ. pose proof (clampZ_range (S754_finite s m e)). lia. }
  exists k. repeat split; try apply Hr; try exact Hv.
  - intros Hn. unfold k. destruct n; try discriminate. reflexivity.
  - intros Hlt.
    assert (E : clampPercent n = ofZ 0).
    { unfold clampPercent. rewrite Hlt. destruct (isNaN n); reflexivity. }
    rewrite E in Hv. simpl in Hv. congruence.
  - intros Hgt.
    assert (E : clampPercent n = ofZ 100).
    { unfold clampPercent. rewrite Hgt.
      destruct n as [s|[|]| |[|] m e]; try discriminate; reflexivity. }
    rewrite E in Hv. rewrite (intValue_ofZ 100) in Hv by lia. congruence.
  - intros Hn Hlt Hgt.
    assert (E : clampPercent n = Math_round n).
    { unfold clampPercent. rewrite Hn, Hlt, Hgt. reflexivity. }
    pose proof (Math_round_nearest n (wf_small n Hwf)) as Hnear.
    destruct n as [s|[|]| |s m e]; try discriminate.
    + destruct Hnear as [z [Hz Hi]]. rewrite E, Hi in Hv.
      replace k with z by congruence. exact Hz.
    + destruct Hnear as [z [Hz Hi]]. rewrite E, Hi in Hv.
      replace k with z by congruence. exact Hz.
Qed.

(** The theorem at the in-range input 49.6 of the development test. *)
Lemma clampPercent_range_witness :
  wf (dec 496 1) /\
  exists k : Z,
    0 <= k <= 100 /\ intValue (clampPercent (dec 496 1)) = Some k
    /\ (isNaN (dec 496 1) = true -> k = 0)
    /\ (lt (dec 496 1) (ofZ 0) = true -> k = 0)
    /\ (gt (dec 496 1) (ofZ 100) = true -> k = 100)
    /\ (isNaN (dec 496 1) = false -> lt (dec 496 1) (ofZ 0) = false ->
        gt (dec 496 1) (ofZ 100) = false -> nearest_int (dec 496 1) k).
Proof.
  split; [reflexivity | apply (clampPercent_range (dec 496 1)); reflexivity].
Defined.

(** * Further properties of the code *)

(** ** More about the number model *)

Lemma bounded_shl53_gen (p : positive) (j : Z) :
  Zpos (digits2_pos p) <= 53 -> -1021 <= Zpos (digits2_pos p) + j <= 1024 ->
  bounded prec emax (shl53 p) (Zpos (digits2_pos p) - 53 + j) = true.
Proof.
  intros Hd Hj. unfold bounded, canonical_mantissa. rewrite (shl53_digits p Hd).
  apply andb_true_intro. split.
  - apply Z.eqb_eq. unfold fexp, emin, prec, emax. lia.
  - apply Z.leb_le. unfold prec, emax. lia.
Qed.

Lemma wf_exponent (s : bool) (m : positive) (e : Z) :
  wf (S754_finite s m e) -> -1074 <= e <= 971.
Proof.
  unfold wf, valid_binary, bounded, canonical_mantissa. intros H.
  apply andb_prop in H. destruct H as [Hc Hb]. apply Z.eqb_eq in Hc. apply Z.leb_le in Hb.
  unfold fexp, emin, prec, emax in *. lia.
Qed.

Lemma shr_fexp_m (m e : Z) (l : location) :
  0 <= m ->
  shr_m (fst (shr_fexp prec emax m e l))
  = m / 2 ^ (Z.max (fexp prec emax (Zdigits2 m + e)) e - e).
Proof.
  intros Hm. unfold shr_fexp, shr.
  destruct (fexp prec emax (Zdigits2 m + e) - e) as [|n|n] eqn:En; cbn [fst].
  - rewrite shr_record_of_loc_m. replace (Z.max _ e - e) with 0 by lia.
    rewrite Z.pow_0_r, Z.div_1_r. reflexivity.
  - rewrite shr_iter_m by (rewrite shr_record_of_loc_m; lia).
    rewrite shr_record_of_loc_m. f_equal. f_equal. lia.
  - rewrite shr_record_of_loc_m. replace (Z.max _ e - e) with 0 by lia.
    rewrite Z.pow_0_r, Z.div_1_r. reflexivity.
Qed.

Lemma round_nearest_even_ge (m : Z) (l : location) : m <= round_nearest_even m l.
Proof. destruct l as [|[| |]]; simpl; try lia. destruct (Z.even m); lia. Qed.

(** The result of rounding, in terms of the mantissa [m2] that the first
    shift and the rounding leave at the exponent [e1]. *)
Lemma binary_round_aux_shape (s : bool) (m e : Z) (l : location) :
  0 <= m ->
  let e1 := Z.max (fexp prec emax (Zdigits2 m + e)) e in
  exists m2 : Z,
    m / 2 ^ (e1 - e) <= m2 <= m / 2 ^ (e1 - e) + 1 /\ m2 <= 2 ^ 53
    /\ ((m2 = 0 /\ binary_round_aux prec emax s m e l = S754_zero s)
        \/ (0 < m2 < 2 ^ 53
            /\ binary_round_aux prec emax s m e l
               = if e1 <=? 971 then S754_finite s (Z.to_pos m2) e1 else S754_infinity s)
        \/ (m2 = 2 ^ 53
            /\ binary_round_aux prec emax s m e l
               = if e1 + 1 <=? 971 then S754_finite s 4503599627370496 (e1 + 1)
                 else S754_infinity s)).
Proof.
  intros Hm e1. unfold binary_round_aux.
  pose proof (shr_fexp_small m e l Hm) as H1.
  pose proof (shr_fexp_exponent m e l) as X1.
  pose proof (shr_fexp_m m e l Hm) as M1.
  destruct (shr_fexp prec emax m e l) as [mrs' e'] eqn:E1. cbn [fst snd] in H1, X1, M1.
  fold e1 in X1, M1. subst e'.
  set (m2 := round_nearest_even (shr_m mrs') (loc_of_shr_record mrs')).
  assert (H2 : shr_m mrs' <= m2 <= shr_m mrs' + 1).
  { split; [apply round_nearest_even_ge|apply round_nearest_even_le]. }
  exists m2. rewrite <- M1. split; [exact H2|]. split; [lia|].
  assert (He1 : -1074 <= e1) by (unfold e1, fexp, emin, prec, emax; lia).
  unfold shr_fexp, shr. 
  destruct (Z.eq_dec m2 0) as [Z0|NZ0]; [left|right].
  - split; [exact Z0|]. rewrite Z0. simpl Zdigits2.
    destruct (fexp prec emax (0 + e1) - e1) as [|n|n] eqn:En; cbn [shr_record_of_loc shr_m].
    + reflexivity.
    + assert (X : shr_m (iter_pos shr_1 n (Build_shr_record 0 false false)) = 0).
      { rewrite shr_iter_m by (cbn; lia). cbn [shr_m]. apply Z.div_0_l.
        apply Z.pow_nonzero; lia. }
      rewrite X. reflexivity.
    + reflexivity.
  - assert (Hpos : 0 < m2) by lia.
    destruct (Z.eq_dec m2 (2 ^ 53)) as [Hbig|Hsm]; [right|left].
    + split; [exact Hbig|]. rewrite Hbig.
      change (Zdigits2 (2 ^ 53)) with 54.
      assert (En : fexp prec emax (54 + e1) - e1 = 1) by (unfold fexp, emin, prec, emax; lia).
      rewrite En. cbn [shr_record_of_loc iter_pos]. 
      change (shr_1 {| shr_m := 2 ^ 53; shr_r := false; shr_s := false |})
        with {| shr_m := 4503599627370496; shr_r := false; shr_s := false |}.
      cbn [shr_m]. unfold emax, prec. change (1024 - 53) with 971. reflexivity.
    + split; [lia|].
      assert (Hd : Zdigits2 m2 <= 53) by (apply Zdigits2_le_pow; lia).
      assert (En : fexp prec emax (Zdigits2 m2 + e1) - e1 <= 0)
        by (unfold fexp, emin, prec, emax; lia).
      assert (X : (match fexp prec emax (Zdigits2 m2 + e1) - e1 with
                   | Z.pos p => (iter_pos shr_1 p (shr_record_of_loc m2 loc_Exact),
                                 e1 + (fexp prec emax (Zdigits2 m2 + e1) - e1))
                   | _ => (shr_record_of_loc m2 loc_Exact, e1)
                   end) = (shr_record_of_loc m2 loc_Exact, e1)).
      { destruct (fexp prec emax (Zdigits2 m2 + e1) - e1); try reflexivity. lia. }
      rewrite X. cbn [shr_record_of_loc shr_m].
      destruct m2 as [|p|p]; try lia. unfold emax, prec. change (1024 - 53) with 971.
      reflexivity.
Qed.

Lemma binary_round_aux_not_nan (s : bool) (m e : Z) (l : location) :
  0 <= m -> isNaN (binary_round_aux prec emax s m e l) = false.
Proof.
  intros Hm. destruct (binary_round_aux_shape s m e l Hm) as [m2 [_ [_ Hc]]].
  destruct Hc as [[_ ->]|[[_ ->]|[_ ->]]]; try reflexivity.
  - destruct (_ <=? 971); reflexivity.
  - destruct (_ <=? 971); reflexivity.
Qed.

Lemma ofZ_not_nan (z : Z) : isNaN (ofZ z) = false.
Proof.
  destruct z as [|p|p]; [reflexivity| |]; unfold ofZ, binary_normalize, binary_round;
    destruct (shl_align _ _ _) as [mz ez]; apply binary_round_aux_not_nan; lia.
Qed.

Lemma Math_round_not_nan (x : number) : isNaN x = false -> isNaN (Math_round x) = false.
Proof.
  destruct x as [s|s| |s m e]; try (intros H; exact H). intros _. unfold Math_round.
  destruct (0 <=? e); [reflexivity|].
  destruct (round_half_up s m e =? 0); [reflexivity|apply ofZ_not_nan].
Qed.

Lemma mul_finite_not_nan (x : number) (s : bool) (m : positive) (e : Z) :
  isNaN x = false -> isNaN (mul x (S754_finite s m e)) = false.
Proof.
  destruct x as [sx|sx| |sx mx ex]; try discriminate; intros _; try reflexivity.
  unfold mul, SFmul. apply binary_round_aux_not_nan. lia.
Qed.

Lemma Math_max_floor (s : bool) (m : positive) (e : Z) (y : number) :
  le (S754_finite s m e) (S754_finite s m e) = true -> isNaN y = false ->
  le (S754_finite s m e) (Math_max (S754_finite s m e) y) = true.
Proof.
  intros Hrefl Hy. destruct y as [sy|sy| |sy my ey]; try discriminate;
    unfold Math_max; destruct (SFltb _ _) eqn:L; try exact Hrefl;
    unfold le, SFleb; unfold SFltb in L;
    destruct (SFcompare _ _) as [[| |]|]; try discriminate; reflexivity.
Qed.

Lemma shl_align_spec (m : positive) (e ez : Z) :
  snd (shl_align m e ez) = Z.min e ez
  /\ Zpos (fst (shl_align m e ez)) = Zpos m * 2 ^ (e - Z.min e ez).
Proof.
  unfold shl_align. destruct (ez - e) as [|d|d] eqn:Hd; cbn [fst snd].
  - split; [lia|]. replace (e - Z.min e ez) with 0 by lia. lia.
  - split; [lia|]. replace (e - Z.min e ez) with 0 by lia. lia.
  - split; [lia|]. rewrite iter_xO_pow. f_equal. f_equal. lia.
Qed.

(** ** Integers as numbers *)

(** The aligned sum or difference of two integers, normalized. *)
Lemma normalize_int (z M ez : Z) :
  Z.abs z < 2 ^ 53 -> ez <= 0 -> M = z * 2 ^ (- ez) ->
  binary_normalize prec emax M ez false = ofZ z.
Proof.
  intros Hz He HM.
  assert (Hp : 0 < 2 ^ (- ez)) by (apply Z.pow_pos_nonneg; lia).
  destruct z as [|p|p].
  - rewrite HM. reflexivity.
  - assert (Hd : Zpos (digits2_pos p) <= 53) by (apply digits2_lt_pow; lia).
    destruct M as [|P|P]; try nia.
    rewrite (ofZ_pos p Hd). cbn [binary_normalize].
    apply binary_round_exact; [exact Hd|exact He|exact HM].
  - assert (Hd : Zpos (digits2_pos p) <= 53) by (apply digits2_lt_pow; lia).
    destruct M as [|P|P]; try nia.
    rewrite (ofZ_neg p Hd). cbn [binary_normalize].
    apply binary_round_exact; [exact Hd|exact He|]. 
    change (Zneg P) with (- Zpos P) in HM. change (Zneg p) with (- Zpos p) in HM. nia.
Qed.

(** A non-zero integer below [2^53], as a number. *)
Lemma ofZ_finite (z : Z) :
  Z.abs z < 2 ^ 53 -> z <> 0 ->
  exists p, Zpos p = Z.abs z /\ Zpos (digits2_pos p) <= 53
    /\ ofZ z = S754_finite (z <? 0) (shl53 p) (Zpos (digits2_pos p) - 53).
Proof.
  intros Hz Hnz. destruct z as [|p|p]; try congruence.
  - assert (Hd : Zpos (digits2_pos p) <= 53) by (apply digits2_lt_pow; lia).
    exists p. split; [reflexivity|]. split; [exact Hd|]. apply (ofZ_pos p Hd).
  - assert (Hd : Zpos (digits2_pos p) <= 53) by (apply digits2_lt_pow; lia).
    exists p. split; [reflexivity|]. split; [exact Hd|]. apply (ofZ_neg p Hd).
Qed.

Lemma aligned_int (z : Z) (p : positive) (ez : Z) :
  Zpos p = Z.abs z -> Zpos (digits2_pos p) <= 53 -> ez <= Zpos (digits2_pos p) - 53 ->
  cond_Zopp (z <? 0) (Zpos (fst (shl_align (shl53 p) (Zpos (digits2_pos p) - 53) ez)))
  = z * 2 ^ (- ez).
Proof.
  intros Hp Hd He.
  rewrite (shl_align_value _ _ _ He), (shl53_value p Hd), <- Z.mul_assoc, <- Z.pow_add_r by lia.
  replace (53 - Zpos (digits2_pos p) + (Zpos (digits2_pos p) - 53 - ez)) with (- ez) by lia.
  destruct (z <? 0) eqn:E; cbn [cond_Zopp].
  - apply Z.ltb_lt in E. rewrite Hp. rewrite Z.abs_neq by lia. ring.
  - apply Z.ltb_ge in E. rewrite Hp. rewrite Z.abs_eq by lia. ring.
Qed.

(** Addition and subtraction of integers are exact below [2^53]. *)
Lemma add_ofZ_signed (a b : Z) :
  Z.abs a < 2 ^ 53 -> Z.abs b < 2 ^ 53 -> Z.abs (a + b) < 2 ^ 53 ->
  add (ofZ a) (ofZ b) = ofZ (a + b).
Proof.
  intros Ha Hb Hab.
  destruct (Z.eq_dec a 0) as [->|Ha0].
  { rewrite Z.add_0_l. destruct (Z.eq_dec b 0) as [->|Hb0]; [reflexivity|].
    destruct (ofZ_finite b Hb Hb0) as [p [_ [_ ->]]]. reflexivity. }
  destruct (ofZ_finite a Ha Ha0) as [pa [Hpa [Hda Ea]]].
  destruct (Z.eq_dec b 0) as [->|Hb0].
  { rewrite Z.add_0_r, Ea. reflexivity. }
  destruct (ofZ_finite b Hb Hb0) as [pb [Hpb [Hdb Eb]]].
  rewrite Ea, Eb. unfold add, SFadd.
  set (ez := Z.min (Zpos (digits2_pos pa) - 53) (Zpos (digits2_pos pb) - 53)).
  apply normalize_int; [exact Hab|lia|].
  rewrite (aligned_int a pa ez Hpa Hda) by lia.
  rewrite (aligned_int b pb ez Hpb Hdb) by lia. ring.
Qed.

Lemma sub_ofZ_signed (a b : Z) :
  Z.abs a < 2 ^ 53 -> Z.abs b < 2 ^ 53 -> Z.abs (a - b) < 2 ^ 53 ->
  sub (ofZ a) (ofZ b) = ofZ (a - b).
Proof.
  intros Ha Hb Hab.
  destruct (Z.eq_dec b 0) as [->|Hb0].
  { rewrite Z.sub_0_r. destruct (Z.eq_dec a 0) as [->|Ha0]; [reflexivity|].
    destruct (ofZ_finite a Ha Ha0) as [p [_ [_ ->]]]. reflexivity. }
  destruct (ofZ_finite b Hb Hb0) as [pb [Hpb [Hdb Eb]]].
  destruct (Z.eq_dec a 0) as [->|Ha0].
  { rewrite Z.sub_0_l, Eb.
    assert (Hnb : Z.abs (- b) < 2 ^ 53) by lia.
    destruct (ofZ_finite (- b) Hnb ltac:(lia)) as [q [Hq [Hdq ->]]].
    assert (q = pb) by lia. subst q.
    change (ofZ 0) with (S754_zero false). cbn [sub SFsub].
    f_equal. destruct (b <? 0) eqn:E1, (- b <? 0) eqn:E2; try reflexivity;
      [apply Z.ltb_lt in E1; apply Z.ltb_lt in E2|apply Z.ltb_ge in E1; apply Z.ltb_ge in E2]; lia. }
  destruct (ofZ_finite a Ha Ha0) as [pa [Hpa [Hda Ea]]].
  rewrite Ea, Eb. unfold sub, SFsub.
  set (ez := Z.min (Zpos (digits2_pos pa) - 53) (Zpos (digits2_pos pb) - 53)).
  apply normalize_int; [exact Hab|lia|].
  rewrite (aligned_int a pa ez Hpa Hda) by lia.
  rewrite (aligned_int b pb ez Hpb Hdb) by lia. ring.
Qed.

(** Comparisons of integers below [2^53]. *)
Lemma compare_shl53 (p q : positive) :
  Zpos (digits2_pos p) <= 53 -> Zpos (digits2_pos q) <= 53 ->
  match Zpos (digits2_pos p) - 53 ?= Zpos (digits2_pos q) - 53 with
  | Lt => Lt
  | Gt => Gt
  | Eq => Pos.compare_cont Eq (shl53 p) (shl53 q)
  end = (Zpos p ?= Zpos q).
Proof.
  intros Hp Hq.
  pose proof (digits2_bounds p) as Bp. pose proof (digits2_bounds q) as Bq.
  destruct (Z.compare_spec (Zpos (digits2_pos p) - 53) (Zpos (digits2_pos q) - 53)) as [E|E|E].
  - change (Pos.compare_cont Eq (shl53 p) (shl53 q)) with (Zpos (shl53 p) ?= Zpos (shl53 q)).
    rewrite (shl53_value p Hp), (shl53_value q Hq).
    replace (Zpos (digits2_pos q)) with (Zpos (digits2_pos p)) by lia.
    assert (Ht : 0 < 2 ^ (53 - Zpos (digits2_pos p))) by (apply Z.pow_pos_nonneg; lia).
    set (t := 2 ^ (53 - Zpos (digits2_pos p))) in *.
    destruct (Z.compare_spec (Zpos p) (Zpos q)) as [F|F|F].
    + rewrite F. apply Z.compare_refl.
    + apply Z.compare_lt_iff. nia.
    + apply Z.compare_gt_iff. nia.
  - symmetry. apply Z.compare_lt_iff.
    assert (H : 2 ^ Zpos (digits2_pos p) <= 2 ^ (Zpos (digits2_pos q) - 1))
      by (apply Z.pow_le_mono_r; lia).
    lia.
  - symmetry. apply Z.compare_gt_iff.
    assert (H : 2 ^ Zpos (digits2_pos q) <= 2 ^ (Zpos (digits2_pos p) - 1))
      by (apply Z.pow_le_mono_r; lia).
    lia.
Qed.

Lemma compare_ofZ (a b : Z) :
  Z.abs a < 2 ^ 53 -> Z.abs b < 2 ^ 53 ->
  SFcompare (ofZ a) (ofZ b) = Some (a ?= b).
Proof.
  intros Ha Hb.
  destruct a as [|pa|pa], b as [|pb|pb];
    try (assert (Hda : Zpos (digits2_pos pa) <= 53) by (apply digits2_lt_pow; lia));
    try (assert (Hdb : Zpos (digits2_pos pb) <= 53) by (apply digits2_lt_pow; lia));
    try rewrite (ofZ_pos pa Hda); try rewrite (ofZ_neg pa Hda);
    try rewrite (ofZ_pos pb Hdb); try rewrite (ofZ_neg pb Hdb);
    try reflexivity.
  - cbn [SFcompare]. f_equal. apply (compare_shl53 pa pb Hda Hdb).
  - cbn [SFcompare]. f_equal.
    pose proof (compare_shl53 pa pb Hda Hdb) as H.
    change (Zneg pa ?= Zneg pb) with (CompOpp (Zpos pa ?= Zpos pb)).
    rewrite <- H.
    destruct (Zpos (digits2_pos pa) - 53 ?= Zpos (digits2_pos pb) - 53); reflexivity.
Qed.

Lemma lt_ofZ (a b : Z) :
  Z.abs a < 2 ^ 53 -> Z.abs b < 2 ^ 53 -> lt (ofZ a) (ofZ b) = (a <? b).
Proof.
  intros Ha Hb. unfold lt, SFltb. rewrite (compare_ofZ a b Ha Hb). unfold Z.ltb.
  destruct (a ?= b); reflexivity.
Qed.

Lemma le_ofZ (a b : Z) :
  Z.abs a < 2 ^ 53 -> Z.abs b < 2 ^ 53 -> le (ofZ a) (ofZ b) = (a <=? b).
Proof.
  intros Ha Hb. unfold le, SFleb. rewrite (compare_ofZ a b Ha Hb). unfold Z.leb.
  destruct (a ?= b); reflexivity.
Qed.

Lemma strictEq_ofZ (a b : Z) :
  Z.abs a < 2 ^ 53 -> Z.abs b < 2 ^ 53 -> strictEq (ofZ a) (ofZ b) = (a =? b).
Proof.
  intros Ha Hb. unfold strictEq, SFeqb. rewrite (compare_ofZ a b Ha Hb). unfold Z.eqb.
  destruct a, b; try reflexivity; cbn [Z.compare]; 
    destruct (Pos.compare_spec p p0); try reflexivity; subst;
    try (rewrite Pos.eqb_refl; reflexivity);
    try (symmetry; apply Pos.eqb_neq; lia).
Qed.

Lemma strictNe_ofZ (a b : Z) :
  Z.abs a < 2 ^ 53 -> Z.abs b < 2 ^ 53 -> strictNe (ofZ a) (ofZ b) = negb (a =? b).
Proof. intros Ha Hb. unfold strictNe. fold (strictEq (ofZ a) (ofZ b)). now rewrite strictEq_ofZ. Qed.

Lemma Math_max_ofZ (a b : Z) :
  Z.abs a < 2 ^ 53 -> Z.abs b < 2 ^ 53 ->
  Math_max (ofZ a) (ofZ b) = ofZ (Z.max a b).
Proof.
  intros Ha Hb. pose proof (lt_ofZ a b Ha Hb) as H. unfold lt in H.
  assert (E : Math_max (ofZ a) (ofZ b) = if SFltb (ofZ a) (ofZ b) then ofZ b else ofZ a).
  { destruct (Z.eq_dec a 0) as [->|Ha0], (Z.eq_dec b 0) as [->|Hb0]; try reflexivity.
    - destruct (ofZ_finite b Hb Hb0) as [p [_ [_ ->]]]. reflexivity.
    - destruct (ofZ_finite a Ha Ha0) as [p [_ [_ ->]]]. reflexivity.
    - destruct (ofZ_finite a Ha Ha0) as [p [_ [_ ->]]].
      destruct (ofZ_finite b Hb Hb0) as [q [_ [_ ->]]]. reflexivity. }
  rewrite E, H. destruct (a <? b) eqn:L.
  - apply Z.ltb_lt in L. rewrite Z.max_r by lia. reflexivity.
  - apply Z.ltb_ge in L. rewrite Z.max_l by lia. reflexivity.
Qed.

Lemma Math_min_ofZ (a b : Z) :
  Z.abs a < 2 ^ 53 -> Z.abs b < 2 ^ 53 ->
  Math_min (ofZ a) (ofZ b) = ofZ (Z.min a b).
Proof.
  intros Ha Hb. pose proof (lt_ofZ b a Hb Ha) as H. unfold lt in H.
  assert (E : Math_min (ofZ a) (ofZ b) = if SFltb (ofZ b) (ofZ a) then ofZ b else ofZ a).
  { destruct (Z.eq_dec a 0) as [->|Ha0], (Z.eq_dec b 0) as [->|Hb0]; try reflexivity.
    - destruct (ofZ_finite b Hb Hb0) as [p [_ [_ ->]]]. reflexivity.
    - destruct (ofZ_finite a Ha Ha0) as [p [_ [_ ->]]]. reflexivity.
    - destruct (ofZ_finite a Ha Ha0) as [p [_ [_ ->]]].
      destruct (ofZ_finite b Hb Hb0) as [q [_ [_ ->]]]. reflexivity. }
  rewrite E, H. destruct (b <? a) eqn:L.
  - apply Z.ltb_lt in L. rewrite Z.min_r by lia. reflexivity.
  - apply Z.ltb_ge in L. rewrite Z.min_l by lia. reflexivity.
Qed.

Lemma or_ofZ (z : Z) : 0 <= z < 2 ^ 53 -> JS.or (ofZ z) (ofZ 0) = ofZ z.
Proof.
  intros Hz. destruct (Z.eq_dec z 0) as [->|Hnz]; [reflexivity|].
  destruct (ofZ_finite z ltac:(lia) Hnz) as [p [_ [_ ->]]]. reflexivity.
Qed.

Lemma add_ofZ_zero (a : Z) (s : bool) :
  Z.abs a < 2 ^ 53 -> add (ofZ a) (S754_zero s) = ofZ a.
Proof.
  intros Ha. destruct (Z.eq_dec a 0) as [->|Hnz].
  - destruct s; reflexivity.
  - destruct (ofZ_finite a Ha Hnz) as [p [_ [_ ->]]]. reflexivity.
Qed.

Lemma lt_ofZ_zero_r (a : Z) (s : bool) :
  Z.abs a < 2 ^ 53 -> lt (ofZ a) (S754_zero s) = (a <? 0).
Proof.
  intros Ha. destruct (Z.eq_dec a 0) as [->|Hnz]; [reflexivity|].
  destruct (ofZ_finite a Ha Hnz) as [p [_ [_ ->]]].
  unfold lt, SFltb, SFcompare. destruct (a <? 0); reflexivity.
Qed.

Lemma lt_ofZ_zero_l (a : Z) (s : bool) :
  Z.abs a < 2 ^ 53 -> lt (S754_zero s) (ofZ a) = (0 <? a).
Proof.
  intros Ha. destruct (Z.eq_dec a 0) as [->|Hnz]; [reflexivity|].
  destruct (ofZ_finite a Ha Hnz) as [p [_ [_ ->]]].
  unfold lt, SFltb, SFcompare. destruct (a <? 0) eqn:E.
  - apply Z.ltb_lt in E. symmetry. apply Z.ltb_ge. lia.
  - apply Z.ltb_ge in E. symmetry. apply Z.ltb_lt. lia.
Qed.

Lemma intValue_inj (a b : Z) :
  Z.abs a < 2 ^ 53 -> Z.abs b < 2 ^ 53 -> ofZ a = ofZ b -> a = b.
Proof.
  intros Ha Hb E. pose proof (intValue_ofZ_gen a Ha) as Ia.
  pose proof (intValue_ofZ_gen b Hb) as Ib. rewrite E in Ia. congruence.
Qed.

(** ** Rounding, measured in rationals *)

Lemma pow2_pos (e : Z) : (0 < pow2 e)%Q.
Proof. apply Qpower_0_lt. reflexivity. Qed.

Lemma pow2_add (a b : Z) : (pow2 (a + b) == pow2 a * pow2 b)%Q.
Proof. apply Qpower_plus. discriminate. Qed.

Lemma pow2_le (a b : Z) : a <= b -> (pow2 a <= pow2 b)%Q.
Proof. intros H. apply Qpower_le_compat_l; [exact H|]. discriminate. Qed.

Lemma pow2_Z (n : Z) : 0 <= n -> (pow2 n == inject_Z (2 ^ n))%Q.
Proof. intros H. unfold pow2. rewrite (Zpower_Qpower 2 n H). reflexivity. Qed.

Lemma pow2_lt (a b : Z) : a < b -> (pow2 a < pow2 b)%Q.
Proof. intros H. apply Qpower_lt_compat_l; [exact H|]. reflexivity. Qed.

(** A value below [2^n] has at most [n - e] digits at the exponent [e]. *)
Lemma digits_below (m e n : Z) :
  0 <= m -> (inject_Z m * pow2 e < pow2 n)%Q -> Zdigits2 m + e <= Z.max n e.
Proof.
  intros Hm Hv. destruct (Z.eq_dec m 0) as [->|Hnz]; [simpl; lia|].
  assert (Hen : e < n).
  { destruct (Z.lt_ge_cases e n) as [H|H]; [exact H|exfalso].
    pose proof (pow2_le n e H) as Hp. pose proof (pow2_pos e) as Hpe.
    assert (H1 : (inject_Z 1 <= inject_Z m)%Q) by (rewrite <- Zle_Qle; lia).
    change (inject_Z 1) with 1%Q in H1.
    assert (H2 : (pow2 e <= inject_Z m * pow2 e)%Q).
    { setoid_replace (pow2 e) with (1 * pow2 e)%Q at 1 by ring.
      apply Qmult_le_compat_r; [exact H1|]. lra. }
    lra. }
  assert (Hlt : m < 2 ^ (n - e)).
  { rewrite Zlt_Qlt. rewrite <- (pow2_Z (n - e)) by lia.
    replace n with ((n - e) + e) in Hv by lia. rewrite pow2_add in Hv.
    pose proof (pow2_pos e) as Hpe.
    apply Qmult_lt_r in Hv; assumption. }
  pose proof (Zdigits2_le_pow m (n - e)). lia.
Qed.

(** Rounding stays within one unit in the last place of the value that
    is rounded.  The value [v] lies in [[m, m + 1)] at the exponent [e],
    and [u] bounds the exponent of the result. *)
Lemma round_aux_Q (s : bool) (m e : Z) (l : location) (v : Q) (n u : Z) :
  0 <= m ->
  (inject_Z m * pow2 e <= v)%Q -> (v < inject_Z (m + 1) * pow2 e)%Q ->
  (v < pow2 n)%Q -> n - 53 <= u -> -1074 <= u -> e <= u -> u <= 970 ->
  let r := binary_round_aux prec emax s m e l in
  (r = S754_zero s
   \/ exists mf ef, r = S754_finite s mf ef /\ e <= ef <= u + 1 /\ Zpos mf < 2 ^ 53)
  /\ (v - pow2 u <= Qmag r)%Q /\ (Qmag r <= v + pow2 u)%Q.
Proof.
  intros Hm Hlo Hhi Hn Hu1 Hu2 Hu3 Hu4 r.
  assert (Hd : Zdigits2 m + e <= Z.max n e).
  { apply digits_below; [exact Hm|]. lra. }
  destruct (binary_round_aux_shape s m e l Hm) as [m2 [Hm2 [Hle Hcase]]].
  fold r in Hcase.
  set (e1 := Z.max (fexp prec emax (Zdigits2 m + e)) e) in *.
  assert (He1 : e <= e1 <= u) by (unfold e1, fexp, emin, prec, emax; lia).
  set (k := e1 - e) in *.
  assert (Hk : 0 <= k) by (unfold k; lia).
  assert (Hp : 0 < 2 ^ k) by (apply Z.pow_pos_nonneg; lia).
  set (m1 := m / 2 ^ k) in *.
  assert (Hdiv : m1 * 2 ^ k <= m < (m1 + 1) * 2 ^ k).
  { unfold m1. pose proof (Z.mul_div_le m (2 ^ k) Hp).
    pose proof (Z.mul_succ_div_gt m (2 ^ k) Hp). lia. }
  assert (Hm1 : 0 <= m1) by (unfold m1; apply Z.div_pos; lia).
  (* the value, in units of 2^e1 *)
  assert (Ee1 : (pow2 e1 == inject_Z (2 ^ k) * pow2 e)%Q).
  { replace e1 with (k + e) by (unfold k; lia). rewrite pow2_add, (pow2_Z k Hk). reflexivity. }
  pose proof (pow2_pos e) as Hpe. pose proof (pow2_pos e1) as Hpe1.
  assert (V1 : (inject_Z m1 * pow2 e1 <= v)%Q).
  { rewrite Ee1. 
    assert (X : (inject_Z m1 * inject_Z (2 ^ k) <= inject_Z m)%Q).
    { rewrite <- inject_Z_mult, <- Zle_Qle. lia. }
    apply (Qmult_le_compat_r _ _ (pow2 e)) in X; [|lra]. lra. }
  assert (V2 : (v <= inject_Z (m1 + 1) * pow2 e1)%Q).
  { rewrite Ee1.
    assert (X : (inject_Z (m + 1) <= inject_Z (m1 + 1) * inject_Z (2 ^ k))%Q).
    { rewrite <- inject_Z_mult, <- Zle_Qle. lia. }
    apply (Qmult_le_compat_r _ _ (pow2 e)) in X; [|lra]. lra. }
  assert (Hmag : (Qmag r == inject_Z m2 * pow2 e1)%Q).
  { destruct Hcase as [[Hz ->]|[[Hr ->]|[Hb ->]]].
    - rewrite Hz. cbn [Qmag]. ring.
    - replace (e1 <=? 971) with true by (symmetry; apply Z.leb_le; lia).
      cbn [Qmag]. rewrite Z2Pos.id by lia. reflexivity.
    - replace (e1 + 1 <=? 971) with true by (symmetry; apply Z.leb_le; lia).
      cbn [Qmag]. rewrite Hb. rewrite (Z.add_comm e1 1), pow2_add.
      change (pow2 1) with 2%Q. change (inject_Z (2 ^ 53)) with (inject_Z 4503599627370496 * 2)%Q.
      ring. }
  split.
  - destruct Hcase as [[Hz ->]|[[Hr ->]|[Hb ->]]].
    + left. reflexivity.
    + right. replace (e1 <=? 971) with true by (symmetry; apply Z.leb_le; lia).
      exists (Z.to_pos m2), e1. split; [reflexivity|]. split; [lia|].
      rewrite Z2Pos.id by lia. lia.
    + right. replace (e1 + 1 <=? 971) with true by (symmetry; apply Z.leb_le; lia).
      exists 4503599627370496%positive, (e1 + 1). split; [reflexivity|]. split; lia.
  - rewrite Hmag.
    assert (B1 : (inject_Z m1 <= inject_Z m2)%Q) by (rewrite <- Zle_Qle; lia).
    assert (B2 : (inject_Z m2 <= inject_Z (m1 + 1))%Q) by (rewrite <- Zle_Qle; lia).
    apply (Qmult_le_compat_r _ _ (pow2 e1)) in B1; [|lra].
    apply (Qmult_le_compat_r _ _ (pow2 e1)) in B2; [|lra].
    rewrite inject_Z_plus in V2, B2. 
    pose proof (pow2_le e1 u (proj2 He1)) as Hpu.
    change (inject_Z 1) with 1%Q in *.
    split; lra.
Qed.

(** Rounding an integer multiple of [2^e], on both sides. *)
Lemma binary_round_Q2 (s : bool) (p : positive) (e n u : Z) :
  (inject_Z (Zpos p) * pow2 e < pow2 n)%Q ->
  n - 53 <= u -> -1074 <= u -> e <= u -> u <= 970 ->
  let r := binary_round prec emax s p e in
  (r = S754_zero s
   \/ exists mf ef, r = S754_finite s mf ef /\ ef <= u + 1 /\ Zpos mf < 2 ^ 53)
  /\ (inject_Z (Zpos p) * pow2 e - pow2 u <= Qmag r)%Q
  /\ (Qmag r <= inject_Z (Zpos p) * pow2 e + pow2 u)%Q.
Proof.
  intros Hv Hu1 Hu2 Hu3 Hu4 r. unfold r, binary_round.
  pose proof (shl_align_spec p e (fexp prec emax (Zpos (digits2_pos p) + e))) as [Hs Hf].
  destruct (shl_align p e (fexp prec emax (Zpos (digits2_pos p) + e))) as [mz ez].
  cbn [fst snd] in Hs, Hf.
  assert (Hez : ez <= e) by lia.
  assert (E : (inject_Z (Zpos mz) * pow2 ez == inject_Z (Zpos p) * pow2 e)%Q).
  { rewrite Hf, inject_Z_mult, <- (pow2_Z (e - Z.min e (fexp prec emax (Zpos (digits2_pos p) + e)))) by lia.
    rewrite <- Qmult_assoc, <- pow2_add. rewrite <- Hs.
    replace (e - ez + ez) with e by lia. reflexivity. }
  pose proof (pow2_pos ez) as Hp.
  destruct (round_aux_Q s (Zpos mz) ez loc_Exact (inject_Z (Zpos p) * pow2 e)%Q n u)
    as [Hsh Hb]; try assumption; try lia.
  - rewrite E. lra.
  - rewrite <- E, inject_Z_plus. change (inject_Z 1) with 1%Q. lra.
  - split; [|exact Hb].
    destruct Hsh as [Hz|[mf [ef [Er [Hef Hmf]]]]]; [left; exact Hz|right].
    exists mf, ef. split; [exact Er|]. split; lia.
Qed.

Lemma mul_Q (sx sy : bool) (mx my : positive) (ex ey n u : Z) :
  let x := S754_finite sx mx ex in
  let y := S754_finite sy my ey in
  (Qmag x * Qmag y < pow2 n)%Q -> n - 53 <= u -> -1074 <= u -> ex + ey <= u -> u <= 970 ->
  (mul x y = S754_zero (xorb sx sy)
   \/ exists mf ef, mul x y = S754_finite (xorb sx sy) mf ef
                    /\ ex + ey <= ef <= u + 1 /\ Zpos mf < 2 ^ 53)
  /\ (Qmag x * Qmag y - pow2 u <= Qmag (mul x y))%Q
  /\ (Qmag (mul x y) <= Qmag x * Qmag y + pow2 u)%Q.
Proof.
  intros x y Hn Hu1 Hu2 Hu3 Hu4.
  assert (E : (inject_Z (Zpos (mx * my)) * pow2 (ex + ey) == Qmag x * Qmag y)%Q).
  { cbn [Qmag x y]. rewrite pow2_add, Pos2Z.inj_mul, inject_Z_mult. ring. }
  pose proof (pow2_pos (ex + ey)) as Hp.
  unfold mul. cbn [SFmul x y].
  apply (round_aux_Q (xorb sx sy) (Zpos (mx * my)) (ex + ey) loc_Exact
           (Qmag x * Qmag y)%Q n u); try assumption; try lia.
  - rewrite E. lra.
  - rewrite <- E. rewrite inject_Z_plus. change (inject_Z 1) with 1%Q. lra.
Qed.

Lemma div_Q (sx sy : bool) (mx my : positive) (ex ey n u : Z) :
  let x := S754_finite sx mx ex in
  let y := S754_finite sy my ey in
  (Qmag x / Qmag y < pow2 n)%Q -> n - 53 <= u -> -1074 <= u ->
  Z.min (fexp prec emax (Zpos (digits2_pos mx) + ex - (Zpos (digits2_pos my) + ey))) (ex - ey) <= u ->
  u <= 970 ->
  (div x y = S754_zero (xorb sx sy)
   \/ exists mf ef, div x y = S754_finite (xorb sx sy) mf ef
                    /\ ef <= u + 1 /\ Zpos mf < 2 ^ 53)
  /\ (Qmag x / Qmag y - pow2 u <= Qmag (div x y))%Q
  /\ (Qmag (div x y) <= Qmag x / Qmag y + pow2 u)%Q.
Proof.
  intros x y Hn Hu1 Hu2 Hu3 Hu4.
  unfold div. cbn [SFdiv x y]. unfold SFdiv_core_binary. cbn [Zdigits2].
  set (e' := Z.min (fexp prec emax (Zpos (digits2_pos mx) + ex - (Zpos (digits2_pos my) + ey))) (ex - ey)) in *.
  remember (ex - ey - e') as sft eqn:Esft.
  assert (Hs : 0 <= sft) by (unfold e' in Esft; lia).
  set (m' := match sft with Zpos _ => Z.shiftl (Zpos mx) sft | 0 => Zpos mx | Zneg _ => 0 end).
  assert (Hm' : m' = Zpos mx * 2 ^ sft).
  { unfold m'. destruct sft as [|k|k]; try lia.
    apply Z.shiftl_mul_pow2. lia. }
  assert (Hm'pos : 0 < m').
  { rewrite Hm'. apply Z.mul_pos_pos; [lia|]. apply Z.pow_pos_nonneg; lia. }
  clearbody m'.
  destruct (Z.div_eucl m' (Zpos my)) as [q r] eqn:Eq.
  pose proof (Z_div_mod m' (Zpos my) eq_refl) as Hdm. rewrite Eq in Hdm.
  destruct Hdm as [Hdm Hr].
  assert (Hq : 0 <= q) by nia.
  pose proof (pow2_pos e') as Hpe. pose proof (pow2_pos ey) as Hpey.
  pose proof (pow2_pos ex) as Hpex.
  assert (Hmy : (0 < inject_Z (Zpos my))%Q) by (change 0%Q with (inject_Z 0); rewrite <- Zlt_Qlt; lia).
  assert (Ev : (Qmag x / Qmag y == inject_Z m' * pow2 e' / inject_Z (Zpos my))%Q).
  { cbn [Qmag x y]. rewrite Hm', inject_Z_mult, <- (pow2_Z sft Hs).
    replace ex with (sft + e' + ey) at 1 by lia.
    rewrite !pow2_add. field. split; lra. }
  set (v := (Qmag x / Qmag y)%Q) in *.
  assert (Hv1 : (inject_Z q * pow2 e' <= v)%Q).
  { rewrite Ev. apply Qle_shift_div_l; [exact Hmy|].
    assert (X : (inject_Z q * inject_Z (Zpos my) <= inject_Z m')%Q).
    { rewrite <- inject_Z_mult, <- Zle_Qle. lia. }
    apply (Qmult_le_compat_r _ _ (pow2 e')) in X; [|lra]. lra. }
  assert (Hv2 : (v < inject_Z (q + 1) * pow2 e')%Q).
  { rewrite Ev. apply Qlt_shift_div_r; [exact Hmy|].
    assert (X : (inject_Z m' < inject_Z (q + 1) * inject_Z (Zpos my))%Q).
    { rewrite <- inject_Z_mult, <- Zlt_Qlt. lia. }
    apply (Qmult_lt_compat_r _ _ (pow2 e')) in X; [|lra]. lra. }
  pose proof (round_aux_Q (xorb sx sy) q e' (new_location (Zpos my) r) v n u
                Hq Hv1 Hv2 Hn Hu1 Hu2 Hu3 Hu4) as [Hshape Hb].
  cbv zeta in Hshape, Hb. split; [|exact Hb].
  destruct Hshape as [Hz|[mf [ef [E [Hef Hmf]]]]]; [left; exact Hz|right].
  exists mf, ef. split; [exact E|]. split; lia.
Qed.

Lemma Qmag_ofZ (z : Z) : 0 <= z < 2 ^ 53 -> (Qmag (ofZ z) == inject_Z z)%Q.
Proof.
  intros Hz. destruct z as [|p|p]; try lia; [reflexivity|].
  assert (Hd : Zpos (digits2_pos p) <= 53) by (apply digits2_lt_pow; lia).
  rewrite (ofZ_pos p Hd). cbn [Qmag]. rewrite (shl53_value p Hd), inject_Z_mult.
  rewrite <- (pow2_Z (53 - Zpos (digits2_pos p))) by lia.
  rewrite <- Qmult_assoc, <- pow2_add.
  replace (53 - Zpos (digits2_pos p) + (Zpos (digits2_pos p) - 53)) with 0 by lia.
  change (pow2 0) with 1%Q. ring.
Qed.

Lemma Qmag_nonneg (x : number) : (0 <= Qmag x)%Q.
Proof.
  destruct x as [s|s| |s m e]; cbn [Qmag]; try lra.
  pose proof (pow2_pos e). apply Qmult_le_0_compat; [|lra].
  change 0%Q with (inject_Z 0). rewrite <- Zle_Qle. lia.
Qed.

Lemma nonneg_weaken (u u' : Z) (x : number) : u <= u' -> nonneg u x -> nonneg u' x.
Proof.
  intros H [->|[m [e [-> [He Hm]]]]]; [left; reflexivity|right].
  exists m, e. split; [reflexivity|]. split; [lia|exact Hm].
Qed.

(** The sum of two non-negative numbers. *)
Lemma add_nonneg_Q (x y : number) (n u : Z) :
  nonneg u x -> nonneg u y -> (Qmag x + Qmag y < pow2 n)%Q ->
  n - 53 <= u -> -1074 <= u -> u <= 970 ->
  nonneg (u + 1) (add x y)
  /\ (Qmag x + Qmag y - pow2 u <= Qmag (add x y))%Q
  /\ (Qmag (add x y) <= Qmag x + Qmag y + pow2 u)%Q.
Proof.
  intros Hx Hy Hv Hu1 Hu2 Hu3. pose proof (pow2_pos u) as Hpu.
  destruct Hx as [->|[mx [ex [-> [Hex Hmx]]]]].
  - destruct Hy as [->|[my [ey [-> [Hey Hmy]]]]].
    + cbn [add SFadd Qmag]. split; [left; reflexivity|]. split; lra.
    + cbn [add SFadd]. split.
      * right. exists my, ey. split; [reflexivity|]. split; [lia|exact Hmy].
      * cbn [Qmag]. split; lra.
  - destruct Hy as [->|[my [ey [-> [Hey Hmy]]]]].
    + cbn [add SFadd]. split.
      * right. exists mx, ex. split; [reflexivity|]. split; [lia|exact Hmx].
      * cbn [Qmag]. split; lra.
    + unfold add, SFadd. cbn [cond_Zopp].
      set (ez := Z.min ex ey).
      pose proof (shl_align_spec mx ex ez) as [_ Va].
      pose proof (shl_align_spec my ey ez) as [_ Vb].
      replace (Z.min ex ez) with ez in Va by (unfold ez; lia).
      replace (Z.min ey ez) with ez in Vb by (unfold ez; lia).
      set (a := fst (shl_align mx ex ez)) in *. set (b := fst (shl_align my ey ez)) in *.
      change (Zpos a + Zpos b) with (Zpos (a + b)). cbn [binary_normalize].
      assert (E : (inject_Z (Zpos (a + b)) * pow2 ez
                   == Qmag (S754_finite false mx ex) + Qmag (S754_finite false my ey))%Q).
      { cbn [Qmag]. rewrite Pos2Z.inj_add, inject_Z_plus, Va, Vb, !inject_Z_mult.
        rewrite <- (pow2_Z (ex - ez)) by (unfold ez; lia).
        rewrite <- (pow2_Z (ey - ez)) by (unfold ez; lia).
        rewrite Qmult_plus_distr_l, <- !Qmult_assoc, <- !pow2_add.
        replace (ex - ez + ez) with ex by lia. replace (ey - ez + ez) with ey by lia.
        reflexivity. }
      assert (Hv' : (inject_Z (Zpos (a + b)) * pow2 ez < pow2 n)%Q) by (rewrite E; exact Hv).
      assert (Hez : ez <= u) by (unfold ez; lia).
      destruct (binary_round_Q2 false (a + b) ez n u Hv' Hu1 Hu2 Hez Hu3) as [Hsh Hb].
      rewrite E in Hb. split; [|exact Hb].
      destruct Hsh as [Hz|[mf [ef [Er [Hef Hmf]]]]]; [left; exact Hz|right].
      exists mf, ef. split; [exact Er|]. split; [lia|exact Hmf].
Qed.

(** The product of two non-negative numbers. *)
Lemma mul_nonneg_Q (x y : number) (ux uy n u : Z) :
  nonneg ux x -> nonneg uy y -> (Qmag x * Qmag y < pow2 n)%Q ->
  n - 53 <= u -> -1074 <= u -> ux + uy <= u -> u <= 970 ->
  nonneg (u + 1) (mul x y)
  /\ (Qmag x * Qmag y - pow2 u <= Qmag (mul x y))%Q
  /\ (Qmag (mul x y) <= Qmag x * Qmag y + pow2 u)%Q.
Proof.
  intros Hx Hy Hv Hu1 Hu2 Hu3 Hu4. pose proof (pow2_pos u) as Hpu.
  destruct Hx as [->|[mx [ex [-> [Hex Hmx]]]]].
  - destruct Hy as [->|[my [ey [-> [Hey Hmy]]]]];
      cbn [mul SFmul xorb Qmag]; (split; [left; reflexivity|split; lra]).
  - destruct Hy as [->|[my [ey [-> [Hey Hmy]]]]].
    + cbn [mul SFmul xorb]. split; [left; reflexivity|].
      set (q := Qmag (S754_finite false mx ex)). cbn [Qmag]. split; lra.
    + destruct (mul_Q false false mx my ex ey n u Hv Hu1 Hu2 ltac:(lia) Hu4) as [Hsh Hb].
      cbn [xorb] in Hsh. split; [|exact Hb].
      destruct Hsh as [Hz|[mf [ef [Er [Hef Hmf]]]]]; [left; exact Hz|right].
      exists mf, ef. split; [exact Er|]. split; [lia|exact Hmf].
Qed.

(** The share [a / s] of a part in a whole, as the engine computes it. *)
Lemma share_Q (a s : Z) :
  0 < a <= s -> s < 2 ^ 53 ->
  let q := div (ofZ a) (ofZ s) in
  (q = S754_zero false
   \/ exists mf ef, q = S754_finite false mf ef /\ ef <= -51 /\ Zpos mf < 2 ^ 53)
  /\ (inject_Z a / inject_Z s - pow2 (-52) <= Qmag q)%Q
  /\ (Qmag q <= inject_Z a / inject_Z s + pow2 (-52))%Q.
Proof.
  intros Ha Hs.
  destruct a as [|pa|pa]; try lia. destruct s as [|ps|ps]; try lia.
  assert (Hda : Zpos (digits2_pos pa) <= 53) by (apply digits2_lt_pow; lia).
  assert (Hds : Zpos (digits2_pos ps) <= 53) by (apply digits2_lt_pow; lia).
  assert (Hdd : Zpos (digits2_pos pa) <= Zpos (digits2_pos ps)) by (apply digits2_mono; lia).
  pose proof (Qmag_ofZ (Zpos pa) ltac:(lia)) as Ea.
  pose proof (Qmag_ofZ (Zpos ps) ltac:(lia)) as Es.
  rewrite (ofZ_pos pa Hda), (ofZ_pos ps Hds) in *.
  assert (Hps : (0 < inject_Z (Zpos ps))%Q) by (change 0%Q with (inject_Z 0); rewrite <- Zlt_Qlt; lia).
  assert (Hle : (inject_Z (Zpos pa) / inject_Z (Zpos ps) <= 1)%Q).
  { apply Qle_shift_div_r; [exact Hps|]. rewrite Qmult_1_l, <- Zle_Qle. lia. }
  cbv zeta.
  pose proof (div_Q false false (shl53 pa) (shl53 ps) (Zpos (digits2_pos pa) - 53)
                (Zpos (digits2_pos ps) - 53) 1 (-52)) as H.
  cbv zeta in H. rewrite Ea, Es in H. cbn [xorb] in H.
  rewrite !shl53_digits in H by assumption.
  apply H.
  - change (pow2 1) with 2%Q. lra.
  - lia.
  - lia.
  - unfold fexp, emin, prec, emax. lia.
  - lia.
Qed.

(** The share of a part in a whole is a non-negative number near [a / s]. *)
Lemma share_nonneg_Q (a s : Z) :
  0 <= a <= s -> 0 < s < 2 ^ 53 ->
  nonneg (-51) (div (ofZ a) (ofZ s))
  /\ (inject_Z a / inject_Z s - pow2 (-52) <= Qmag (div (ofZ a) (ofZ s)))%Q
  /\ (Qmag (div (ofZ a) (ofZ s)) <= inject_Z a / inject_Z s + pow2 (-52))%Q.
Proof.
  intros Ha Hs. destruct (Z.eq_dec a 0) as [->|Hnz].
  - destruct s as [|ps|ps]; try lia.
    assert (Hds : Zpos (digits2_pos ps) <= 53) by (apply digits2_lt_pow; lia).
    rewrite (ofZ_pos ps Hds). cbn [div SFdiv ofZ binary_normalize xorb Qmag].
    split; [left; reflexivity|].
    change (inject_Z 0 / inject_Z (Zpos ps))%Q with (0 * / inject_Z (Zpos ps))%Q.
    pose proof (pow2_pos (-52)). split; lra.
  - destruct (share_Q a s ltac:(lia) ltac:(lia)) as [Hq Hb]. cbv zeta in Hq, Hb.
    split; [|exact Hb].
    destruct Hq as [Hz|[mf [ef [E H]]]]; [left; exact Hz|right]. exists mf, ef. tauto.
Qed.

(** [Math.round] of a non-negative number below [2^53]: the nearest
    integer, as a number. *)
Lemma Math_round_Q (x : number) :
  (x = S754_zero false
   \/ exists m e, x = S754_finite false m e /\ e < 0 /\ Zpos m < 2 ^ 53) ->
  exists z : Z,
    0 <= z < 2 ^ 53 /\ Math_round x = ofZ z
    /\ (inject_Z z - (1 # 2) <= Qmag x)%Q /\ (Qmag x < inject_Z z + (1 # 2))%Q.
Proof.
  intros [->|[m [e [-> [He Hm]]]]].
  - exists 0. split; [lia|]. split; [reflexivity|]. cbn [Qmag]. change (inject_Z 0) with 0%Q. split; lra.
  - pose proof (round_half_up_nearest false m e He) as Hn. cbv zeta in Hn.
    pose proof (round_half_up_pos_bounds m e He) as Hb.
    set (z := round_half_up false m e) in *.
    exists z. split; [lia|]. split.
    + unfold Math_round. replace (0 <=? e) with false by (symmetry; apply Z.leb_gt; lia).
      fold z. destruct (z =? 0) eqn:Ez; [|reflexivity].
      apply Z.eqb_eq in Ez. rewrite Ez. reflexivity.
    + unfold signed, cond_Zopp in Hn. cbn [Qmag].
      assert (Hk : 0 <= - e) by lia.
      pose proof (pow2_pos e) as Hpe.
      assert (E1 : (inject_Z (2 ^ (- e)) * pow2 e == 1)%Q).
      { rewrite <- (pow2_Z (- e) Hk), <- pow2_add. replace (- e + e) with 0 by lia. reflexivity. }
      destruct Hn as [H1 H2].
      assert (H1z : 2 * z * 2 ^ (- e) <= 2 * Zpos m + 2 ^ (- e)) by lia.
      assert (H2z : 2 * Zpos m < 2 * z * 2 ^ (- e) + 2 ^ (- e)) by lia.
      rewrite Zle_Qle in H1z. rewrite Zlt_Qlt in H2z.
      rewrite !inject_Z_plus, !inject_Z_mult in H1z, H2z.
      change (inject_Z 2) with 2%Q in *.
      apply (Qmult_le_compat_r _ _ (pow2 e)) in H1z; [|lra].
      apply (Qmult_lt_compat_r _ _ (pow2 e)) in H2z; [|lra].
      set (P := inject_Z (2 ^ (- e))) in *. set (t := pow2 e) in *.
      set (Z' := inject_Z z) in *. set (M := inject_Z (Zpos m)) in *.
      assert (H1' : (2 * Z' * (P * t) <= 2 * M * t + P * t)%Q) by lra.
      assert (H2' : (2 * M * t < 2 * Z' * (P * t) + P * t)%Q) by lra.
      rewrite E1 in H1', H2'. split; lra.
Qed.

(** [Math.round] of a number of either sign below [2^53]: an integer no
    further than one half from it. *)
Lemma Math_round_signed (s : bool) (m : positive) (e : Z) :
  e < 0 -> Zpos m < 2 ^ 53 ->
  exists z : Z,
    Math_round (S754_finite s m e) = (if z =? 0 then S754_zero s else ofZ z)
    /\ Z.abs z < 2 ^ 53
    /\ (inject_Z (Z.abs z) <= Qmag (S754_finite s m e) + (1 # 2))%Q.
Proof.
  intros He Hm. exists (round_half_up s m e).
  pose proof (round_half_up_nearest s m e He) as Hn. cbv zeta in Hn.
  set (z := round_half_up s m e) in *.
  split; [unfold Math_round; replace (0 <=? e) with false by (symmetry; apply Z.leb_gt; lia);
          reflexivity|].
  assert (Hk : 0 <= - e) by lia.
  pose proof (pow2_pos e) as Hpe.
  assert (Hp : 0 < 2 ^ (- e)) by (apply Z.pow_pos_nonneg; lia).
  assert (E1 : (inject_Z (2 ^ (- e)) * pow2 e == 1)%Q).
  { rewrite <- (pow2_Z (- e) Hk), <- pow2_add. replace (- e + e) with 0 by lia. reflexivity. }
  assert (Hz : Z.abs z <= Zpos m
               /\ 2 * Z.abs z * 2 ^ (- e) <= 2 * Zpos m + 2 ^ (- e)).
  { destruct s.
    - pose proof (round_half_up_neg_bounds m e He) as Hb. fold z in Hb.
      unfold signed, cond_Zopp in Hn. split; [lia|]. rewrite Z.abs_neq by lia. lia.
    - pose proof (round_half_up_pos_bounds m e He) as Hb. fold z in Hb.
      unfold signed, cond_Zopp in Hn. split; [lia|]. rewrite Z.abs_eq by lia. lia. }
  destruct Hz as [Hz1 Hz2]. split; [lia|].
  cbn [Qmag]. rewrite Zle_Qle in Hz2.
  rewrite !inject_Z_plus, !inject_Z_mult in Hz2. change (inject_Z 2) with 2%Q in Hz2.
  apply (Qmult_le_compat_r _ _ (pow2 e)) in Hz2; [|lra].
  set (P := inject_Z (2 ^ (- e))) in *. set (t := pow2 e) in *.
  set (Z' := inject_Z (Z.abs z)) in *. set (M := inject_Z (Zpos m)) in *.
  assert (H' : (2 * Z' * (P * t) <= 2 * M * t + P * t)%Q) by lra.
  rewrite E1 in H'. lra.
Qed.

(** The share of [r] that goes to a part [a] of a whole [s]:
    [Math.round((a / s) * r)] is an integer nearest to [a * r / s]. *)
Lemma share_rounded (a s r : Z) :
  0 <= a <= s -> 0 < s <= 2 ^ 40 -> 0 <= r <= 100 ->
  exists z : Z,
    0 <= z /\ Math_round (mul (div (ofZ a) (ofZ s)) (ofZ r)) = ofZ z
    /\ 2 * z * s - 2 * a * r <= s /\ 2 * a * r - 2 * z * s <= s.
Proof.
  intros Ha Hs Hr.
  assert (Hs53 : s < 2 ^ 53).
  { eapply Z.le_lt_trans; [apply Hs|]. apply Z.pow_lt_mono_r; lia. }
  destruct (Z.eq_dec r 0) as [->|Hr0].
  { exists 0. split; [lia|]. split; [|lia]. apply share_of_nothing; lia. }
  destruct (Z.eq_dec a 0) as [->|Ha0].
  { exists 0. split; [lia|]. split; [|lia].
    destruct s as [|ps|ps]; try lia.
    assert (Hds : Zpos (digits2_pos ps) <= 53) by (apply digits2_lt_pow; lia).
    rewrite (ofZ_pos ps Hds). destruct r as [|pr|pr]; try lia.
    assert (Hdr : Zpos (digits2_pos pr) <= 53) by (apply digits2_lt_pow; lia).
    rewrite (ofZ_pos pr Hdr). reflexivity. }
  destruct (share_Q a s ltac:(lia) Hs53) as [Hq [Hq1 Hq2]]. cbv zeta in Hq, Hq1, Hq2.
  set (q := div (ofZ a) (ofZ s)) in *.
  pose proof (Qmag_ofZ r ltac:(lia)) as Er.
  destruct r as [|pr|pr]; try lia.
  assert (Hdr : Zpos (digits2_pos pr) <= 7).
  { apply digits2_lt_pow; [lia|]. change (2 ^ 7) with 128. lia. }
  rewrite (ofZ_pos pr ltac:(lia)) in *.
  set (R := inject_Z (Zpos pr)) in *. set (A := inject_Z a). set (S := inject_Z s).
  fold A S in Hq1, Hq2.
  assert (HR : (1 <= R <= 100)%Q).
  { unfold R. change 1%Q with (inject_Z 1). change 100%Q with (inject_Z 100).
    rewrite <- !Zle_Qle. lia. }
  assert (HS : (1 <= S)%Q) by (unfold S; change 1%Q with (inject_Z 1); rewrite <- Zle_Qle; lia).
  assert (HS40 : (S <= inject_Z (2 ^ 40))%Q) by (unfold S; rewrite <- Zle_Qle; lia).
  assert (HA : (1 <= A)%Q) by (unfold A; change 1%Q with (inject_Z 1); rewrite <- Zle_Qle; lia).
  assert (HAS : (A <= S)%Q) by (unfold A, S; rewrite <- Zle_Qle; lia).
  assert (Hfrac : (0 < A / S <= 1)%Q).
  { split; [apply Qlt_shift_div_l; lra|apply Qle_shift_div_r; lra]. }
  set (F := (A / S)%Q) in *.
  change (pow2 (-52)) with (1 # 4503599627370496)%Q in Hq1, Hq2.
  (* the product *)
  assert (Hp : (mul q (S754_finite false (shl53 pr) (Zpos (digits2_pos pr) - 53))
                = S754_zero false
                \/ exists mf ef,
                     mul q (S754_finite false (shl53 pr) (Zpos (digits2_pos pr) - 53))
                     = S754_finite false mf ef /\ ef < 0 /\ Zpos mf < 2 ^ 53)
               /\ (Qmag q * R - pow2 (-46)
                   <= Qmag (mul q (S754_finite false (shl53 pr) (Zpos (digits2_pos pr) - 53))))%Q
               /\ (Qmag (mul q (S754_finite false (shl53 pr) (Zpos (digits2_pos pr) - 53)))
                   <= Qmag q * R + pow2 (-46))%Q).
  { destruct Hq as [Hz|[mf [ef [E [Hef Hmf]]]]].
    - rewrite Hz. cbn [mul SFmul xorb Qmag]. split; [left; reflexivity|].
      change (pow2 (-46)) with (1 # 70368744177664)%Q. split; lra.
    - rewrite E in *.
      pose proof (mul_Q false false mf (shl53 pr) ef (Zpos (digits2_pos pr) - 53) 7 (-46)) as H.
      cbv zeta in H. cbn [xorb] in H. rewrite Er in H.
      assert (Hlt : (Qmag (S754_finite false mf ef) * R < pow2 7)%Q).
      { change (pow2 7) with 128%Q.
        set (qv := Qmag (S754_finite false mf ef)) in *.
        assert (X : (qv * R <= (F + (1 # 4503599627370496)) * R)%Q).
        { apply Qmult_le_compat_r; lra. }
        assert (Y : ((F + (1 # 4503599627370496)) * R <= (1 + (1 # 4503599627370496)) * R)%Q).
        { apply Qmult_le_compat_r; lra. }
        lra. }
      destruct (H Hlt ltac:(lia) ltac:(lia) ltac:(lia) ltac:(lia)) as [Hsh Hb].
      split; [|exact Hb].
      destruct Hsh as [Hz|[mf' [ef' [E' [Hef' Hmf']]]]]; [left; exact Hz|right].
      exists mf', ef'. split; [exact E'|]. split; lia. }
  set (p := mul q (S754_finite false (shl53 pr) (Zpos (digits2_pos pr) - 53))) in *.
  destruct Hp as [Hp [Hp1 Hp2]].
  change (pow2 (-46)) with (1 # 70368744177664)%Q in Hp1, Hp2.
  assert (Hp' : p = S754_zero false
                \/ exists m e, p = S754_finite false m e /\ e < 0 /\ Zpos m < 2 ^ 53).
  { destruct Hp as [Hz|[mf [ef [E H]]]]; [left; exact Hz|right]. exists mf, ef. tauto. }
  destruct (Math_round_Q p Hp') as [z [Hz [Ez [Hz1 Hz2]]]].
  exists z. split; [lia|]. split; [exact Ez|].
  set (qv := Qmag q) in *. set (pv := Qmag p) in *. set (Zq := inject_Z z) in *.
  assert (X1 : ((F - (1 # 4503599627370496)) * R <= qv * R)%Q)
    by (apply Qmult_le_compat_r; lra).
  assert (X2 : (qv * R <= (F + (1 # 4503599627370496)) * R)%Q)
    by (apply Qmult_le_compat_r; lra).
  assert (EF : (F * R * S == A * R)%Q) by (unfold F; field; lra).
  change (inject_Z (2 ^ 40)) with 1099511627776%Q in HS40.
  (* Zq - F R is within 1/2 + c, c tiny *)
  assert (U : (Zq - F * R <= (1 # 2) + (1 # 17592186044416))%Q) by lra.
  assert (L : (F * R - Zq <= (1 # 2) + (1 # 17592186044416))%Q) by lra.
  apply (Qmult_le_compat_r _ _ S) in U; [|lra].
  apply (Qmult_le_compat_r _ _ S) in L; [|lra].
  assert (U' : (2 * Zq * S - 2 * (A * R) < S + 1)%Q) by lra.
  assert (L' : (2 * (A * R) - 2 * Zq * S < S + 1)%Q) by lra.
  unfold Zq, S, A, R in U', L'.
  change 2%Q with (inject_Z 2) in U', L'. change 1%Q with (inject_Z 1) in U', L'.
  rewrite <- !inject_Z_mult, <- !inject_Z_plus in U', L'.
  assert (U'' : (inject_Z (2 * z * s) - inject_Z (2 * (a * Zpos pr)) < inject_Z (s + 1))%Q) by exact U'.
  assert (L'' : (inject_Z (2 * (a * Zpos pr)) - inject_Z (2 * z * s) < inject_Z (s + 1))%Q) by exact L'.
  unfold Qminus in U'', L''. rewrite <- !inject_Z_opp, <- !inject_Z_plus, <- Zlt_Qlt in U'', L''.
  split; lia.
Qed.

(** ** The two clamps *)

Lemma clampPercent_fixed_check :
  forallb (fun k => number_eqb (clampPercent (ofZ k)) (ofZ k)) (Zrange 0 100) = true.
Proof. vm_compute. reflexivity. Qed.

Lemma clampPercent_ofZ (k : Z) : 0 <= k <= 100 -> clampPercent (ofZ k) = ofZ k.
Proof.
  intros H. apply number_eqb_eq. apply (forall_Zrange _ 0 100 clampPercent_fixed_check k H).
Qed.

Lemma strictEq_ofZ_check :
  forallb (fun k => strictEq (ofZ k) (ofZ k)) (Zrange 0 100) = true.
Proof. vm_compute. reflexivity. Qed.

(** X1. [clampPercent] is idempotent: a clamped percentage is left as
    it is. *)
Theorem clampPercent_idempotent (n : number) :
  wf n -> clampPercent (clampPercent n) = clampPercent n.
Proof.
  intros Hwf. rewrite (clampPercent_spec n Hwf).
  destruct n as [s|s| |s m e].
  - destruct s; reflexivity.
  - apply clampPercent_ofZ, clampZ_range.
  - reflexivity.
  - apply clampPercent_ofZ, clampZ_range.
Qed.

Lemma clampPercent_idempotent_witness :
  wf (dec 496 1)
  /\ clampPercent (clampPercent (dec 496 1)) = clampPercent (dec 496 1).
Proof.
  split; [reflexivity|]. apply (clampPercent_idempotent (dec 496 1)). reflexivity.
Defined.

(** X2. The clamp at the head of [setAllocForChannel] and [clampPercent]
    agree on every number but [NaN] (up to the sign of a zero): the
    selected channel ends up with [clampPercent] of the raw value.  On
    [NaN] they part: the allocation receives [NaN], [clampPercent] gives 0. *)
Theorem clamps_agree (mediaAlloc : Alloc) (channel : Channel) (rawVal : number) :
  wf rawVal ->
  if isNaN rawVal
  then isNaN (get (setAllocForChannel mediaAlloc channel rawVal) channel) = true
       /\ clampPercent rawVal = ofZ 0
  else strictEq (get (setAllocForChannel mediaAlloc channel rawVal) channel)
         (clampPercent rawVal) = true.
Proof.
  intros Hwf. rewrite setAllocForChannel_val, setAllocVal_selected.
  destruct (isNaN rawVal) eqn:Hn.
  - destruct rawVal; try discriminate. split; reflexivity.
  - rewrite (clampVal_spec rawVal Hwf Hn), (clampPercent_spec rawVal Hwf).
    pose proof (clampZ_range rawVal) as Hr.
    destruct rawVal as [s|s| |s m e]; try discriminate.
    + destruct s; reflexivity.
    + apply (forall_Zrange _ 0 100 strictEq_ofZ_check _ Hr).
    + apply (forall_Zrange _ 0 100 strictEq_ofZ_check _ Hr).
Qed.

Lemma clamps_agree_witness :
  wf Infinity
  /\ strictEq (get (setAllocForChannel initialMediaAlloc TV Infinity) TV)
       (clampPercent Infinity) = true.
Proof.
  split; [reflexivity|]. exact (clamps_agree initialMediaAlloc TV Infinity eq_refl).
Defined.

(** ** Moves of the slider *)

(** X3. The value a channel holds before it is set plays no part in the
    result. *)
Theorem setAlloc_ignores_own_value (mediaAlloc : Alloc) (channel : Channel) (x rawVal : number) :
  setAllocForChannel (set mediaAlloc channel x) channel rawVal
  = setAllocForChannel mediaAlloc channel rawVal.
Proof. rewrite !setAllocForChannel_val. apply setAllocVal_own_value. Qed.

(** The last steps of [setAllocForChannel]: the total and the fix-up. *)
Lemma fixup_int (t x : Z) :
  0 <= t <= 2 ^ 40 -> 0 <= x <= 2 ^ 40 ->
  Math_max (ofZ 0) (ofZ x + (ofZ 100 - ofZ t))%js
  = ofZ (Z.max 0 (x + 100 - t)).
Proof.
  intros Ht Hx.
  assert (P : 2 ^ 40 + 200 < 2 ^ 53) by (change (2 ^ 40) with 1099511627776; change (2 ^ 53) with 9007199254740992; lia).
  rewrite sub_ofZ_signed by lia.
  rewrite add_ofZ_signed by lia.
  rewrite Math_max_ofZ by lia. f_equal. lia.
Qed.

Lemma setAllocVal_weighted (f : Channel -> Z) (ch : Channel) (k : Z) :
  (forall c, 0 <= f c) -> 0 < sumZ f (others ch) <= 2 ^ 40 -> 0 <= k <= 100 ->
  exists g : Channel -> Z,
    setAllocVal (allocZ f) ch (ofZ k) = allocZ g
    /\ g ch = k
    /\ (forall o, In o (tl (others ch)) ->
          0 <= g o <= 100 - k
          /\ 2 * g o * sumZ f (others ch) - 2 * f o * (100 - k) <= sumZ f (others ch)
          /\ 2 * f o * (100 - k) - 2 * g o * sumZ f (others ch) <= sumZ f (others ch))
    /\ g (hd ch (others ch)) = Z.max 0 (100 - k - sumZ g (tl (others ch))).
Proof.
  intros Hf Hs Hk.
  assert (P40 : 2 ^ 40 = 1099511627776) by reflexivity.
  assert (P53 : 2 ^ 53 = 9007199254740992) by reflexivity.
  pose proof (Hf OOH) as H1. pose proof (Hf TV) as H2.
  pose proof (Hf Digital) as H3. pose proof (Hf CTV) as H4.
  assert (Hshare : forall o, In o (others ch) ->
            exists z, (0 <= z <= 100 - k)
              /\ Math_round (mul (div (ofZ (f o)) (ofZ (sumZ f (others ch)))) (ofZ (100 - k)))
                 = ofZ z
              /\ 2 * z * sumZ f (others ch) - 2 * f o * (100 - k) <= sumZ f (others ch)
              /\ 2 * f o * (100 - k) - 2 * z * sumZ f (others ch) <= sumZ f (others ch)).
  { intros o Ho.
    assert (Hos : f o <= sumZ f (others ch)).
    { unfold sumZ. destruct ch; cbn [others filter keys Channel_eqb negb fold_left] in *;
        destruct Ho as [<-|[<-|[<-|[]]]]; lia. }
    destruct (share_rounded (f o) (sumZ f (others ch)) (100 - k)) as [z [Hz [E [U L]]]];
      [split; [apply Hf|exact Hos]|lia|lia|].
    exists z. split; [split; [exact Hz|nia]|]. split; [exact E|]. split; assumption. }
  assert (Hin : In (hd ch (others ch)) (others ch)
                /\ In (nth 1 (others ch) ch) (others ch)
                /\ In (nth 2 (others ch) ch) (others ch)).
  { destruct ch; simpl; tauto. }
  destruct Hin as [I1 [I2 I3]].
  destruct (Hshare _ I1) as [z1 [Hz1 [E1 [U1 L1]]]].
  destruct (Hshare _ I2) as [z2 [Hz2 [E2 [U2 L2]]]].
  destruct (Hshare _ I3) as [z3 [Hz3 [E3 [U3 L3]]]].
  clear Hshare I1 I2 I3.
  exists (place ch k (Z.max 0 (100 - k - (z2 + z3))) z2 z3).
  unfold setAllocVal, allocZ.
  destruct ch; unfold sumZ in *;
    cbn [others filter keys Channel_eqb negb fold_left hd tl nth place] in *.
  all: (split; [|split; [reflexivity|split]]);
    [ alloc_cbn; rewrite !add_ofZ by lia;
      rewrite gt_ofZ_0 by lia;
      match goal with
      | |- context [0 <? ?s] => replace (0 <? s) with true by (symmetry; apply Z.ltb_lt; lia)
      end;
      rewrite sub_ofZ_signed by lia; rewrite Math_max_ofZ by lia;
      replace (Z.max 0 (100 - k)) with (100 - k) by lia;
      rewrite E1, E2, E3; alloc_cbn;
      rewrite !or_ofZ by lia; rewrite !add_ofZ by lia;
      rewrite strictNe_ofZ by lia;
      match goal with
      | |- context [negb (?t =? 100)] =>
          destruct (t =? 100) eqn:Et; cbn [negb];
          [ apply Z.eqb_eq in Et; unfold allocOfZ; f_equal; f_equal; lia
          | alloc_cbn; rewrite fixup_int by lia; unfold allocOfZ; f_equal; f_equal; lia ]
      end
    | intros o [<-|[<-|[]]]; (split; [assumption|split; assumption])
    | f_equal; lia ].
Qed.

Lemma othersSum_allocZ (f : Channel -> Z) (ch : Channel) :
  (forall c, 0 <= f c) -> sumZ f (others ch) < 2 ^ 53 ->
  othersSum (allocZ f) ch = ofZ (sumZ f (others ch)).
Proof.
  intros Hf Hs. pose proof (Hf OOH). pose proof (Hf TV). pose proof (Hf Digital).
  pose proof (Hf CTV).
  unfold othersSum, allocZ, sumZ in *.
  destruct ch; cbn [others filter keys Channel_eqb negb fold_left] in *; alloc_cbn;
    rewrite !add_ofZ by lia; reflexivity.
Qed.

(** With nothing to weigh by, the split is even. *)
Lemma setAllocVal_even (f : Channel -> Z) (ch : Channel) (k : Z) :
  (forall c, 0 <= f c) -> sumZ f (others ch) = 0 -> 0 <= k <= 100 ->
  setAllocVal (allocZ f) ch (ofZ k)
  = allocZ (place ch k ((100 - k) / 3 + (100 - k) mod 3) ((100 - k) / 3) ((100 - k) / 3)).
Proof.
  intros Hf Hs Hk.
  rewrite setAllocVal_no_weights.
  - rewrite (setAllocVal_evenSplit ch k Hk). unfold evenSplit, allocZ.
    destruct ch; reflexivity.
  - rewrite othersSum_allocZ by (try assumption; rewrite Hs; reflexivity).
    rewrite Hs. reflexivity.
Qed.

(** One move of the slider, on an allocation of non-negative integers. *)
Lemma setAllocVal_int (f : Channel -> Z) (ch : Channel) (k : Z) :
  (forall c, 0 <= f c) -> sumZ f (others ch) <= 2 ^ 40 -> 0 <= k <= 100 ->
  exists g : Channel -> Z,
    setAllocVal (allocZ f) ch (ofZ k) = allocZ g
    /\ g ch = k
    /\ (forall c, 0 <= g c <= 100)
    /\ 100 <= sumZ g keys <= 101.
Proof.
  intros Hf Hs Hk.
  assert (Hs0 : 0 <= sumZ f (others ch)).
  { pose proof (Hf OOH). pose proof (Hf TV). pose proof (Hf Digital). pose proof (Hf CTV).
    unfold sumZ. destruct ch; cbn [others filter keys Channel_eqb negb fold_left]; lia. }
  destruct (Z.eq_dec (sumZ f (others ch)) 0) as [Hz|Hnz].
  - eexists. split; [apply (setAllocVal_even f ch k Hf Hz Hk)|].
    pose proof (Z.div_mod (100 - k) 3 ltac:(lia)) as Hdm.
    pose proof (Z.mod_pos_bound (100 - k) 3 ltac:(lia)) as Hmod.
    assert (Hper : 0 <= (100 - k) / 3) by (apply Z.div_pos; lia).
    split; [destruct ch; reflexivity|]. split.
    + intros c. destruct ch, c; cbn [place]; lia.
    + unfold sumZ. destruct ch; cbn [keys fold_left place]; lia.
  - destruct (setAllocVal_weighted f ch k Hf ltac:(lia) Hk) as [g [E [Hg [Hsh Hfirst]]]].
    exists g. split; [exact E|]. split; [exact Hg|].
    pose proof (Hf OOH). pose proof (Hf TV). pose proof (Hf Digital). pose proof (Hf CTV).
    unfold sumZ in *.
    destruct ch; cbn [others filter keys Channel_eqb negb fold_left hd tl] in *.
    all: match type of Hsh with
         | forall o, In o [?o2; ?o3] -> _ =>
             destruct (Hsh o2 ltac:(simpl; tauto)) as [R2 [U2 _]];
             destruct (Hsh o3 ltac:(simpl; tauto)) as [R3 [U3 _]]
         end.
    all: split; [intros c; destruct c; lia|nia].
Qed.

Lemma sumZ_others_nonneg (f : Channel -> Z) (ch : Channel) :
  (forall c, 0 <= f c) -> 0 <= sumZ f (others ch).
Proof.
  intros Hf. pose proof (Hf OOH). pose proof (Hf TV). pose proof (Hf Digital).
  pose proof (Hf CTV).
  unfold sumZ. destruct ch; cbn [others filter keys Channel_eqb negb fold_left]; lia.
Qed.

Lemma setAllocForChannel_int (f : Channel -> Z) (ch : Channel) (rawVal : number) :
  (forall c, 0 <= f c) -> sumZ f (others ch) <= 2 ^ 40 ->
  wf rawVal -> isNaN rawVal = false ->
  exists g : Channel -> Z,
    setAllocForChannel (allocZ f) ch rawVal = allocZ g
    /\ g ch = clampZ rawVal
    /\ (forall c, 0 <= g c <= 100)
    /\ 100 <= sumZ g keys <= 101.
Proof.
  intros Hf Hs Hwf Hnan.
  rewrite setAllocForChannel_val, (clampVal_spec rawVal Hwf Hnan).
  apply setAllocVal_int; [exact Hf|exact Hs|apply clampZ_range].
Qed.

(** X4. One move of the slider on an allocation of non-negative
    integers leaves integers between 0 and 100, the clamped value on the
    selected channel, and a total of 100 or 101. *)
Theorem setAlloc_percentages (f : Channel -> Z) (channel : Channel) (rawVal : number) :
  (forall c, 0 <= f c) -> sumZ f (others channel) <= 2 ^ 40 ->
  wf rawVal -> isNaN rawVal = false ->
  exists g : Channel -> Z,
    setAllocForChannel (allocZ f) channel rawVal = allocZ g
    /\ g channel = clampZ rawVal
    /\ (forall c, 0 <= g c <= 100)
    /\ 100 <= sumZ g keys <= 101.
Proof. apply setAllocForChannel_int. Qed.

Lemma setAlloc_percentages_witness :
  ((forall c, 0 <= place OOH 30 30 25 15 c) /\ sumZ (place OOH 30 30 25 15) (others Digital) <= 2 ^ 40
   /\ wf (dec 496 1) /\ isNaN (dec 496 1) = false)
  /\ exists g : Channel -> Z,
       setAllocForChannel (allocZ (place OOH 30 30 25 15)) Digital (dec 496 1) = allocZ g
       /\ g Digital = clampZ (dec 496 1)
       /\ (forall c, 0 <= g c <= 100)
       /\ 100 <= sumZ g keys <= 101.
Proof.
  assert (H : forall c, 0 <= place OOH 30 30 25 15 c) by (intros c; destruct c; simpl; lia).
  split; [split; [exact H|split; [vm_compute; discriminate|split; reflexivity]]|].
  apply (setAlloc_percentages (place OOH 30 30 25 15) Digital (dec 496 1) H);
    [vm_compute; discriminate|reflexivity|reflexivity].
Defined.

Lemma sliderReachable_int (m : Alloc) :
  sliderReachable m ->
  exists g : Channel -> Z,
    m = allocZ g /\ (forall c, 0 <= g c <= 100) /\ 100 <= sumZ g keys <= 101.
Proof.
  induction 1 as [|m ch raw Hr IH Hwf Hnan].
  - exists (place OOH 30 30 25 15). split; [reflexivity|]. split.
    + intros c. destruct c; cbn [place]; lia.
    + unfold sumZ. cbn [keys fold_left place]. lia.
  - destruct IH as [f [-> [Hf _]]].
    destruct (setAllocForChannel_int f ch raw) as [g [E [_ [Hg Hs]]]];
      [intros c; apply Hf| |exact Hwf|exact Hnan|].
    + assert (P : 300 <= 2 ^ 40) by (apply Z.leb_le; reflexivity).
      pose proof (Hf OOH). pose proof (Hf TV). pose proof (Hf Digital). pose proof (Hf CTV).
      unfold sumZ. destruct ch; cbn [others filter keys Channel_eqb negb fold_left]; lia.
    + exists g. split; [exact E|]. split; assumption.
Qed.

(** X5. Whatever the history of slider moves (none of them [NaN]),
    the allocation on display consists of integer percentages between 0
    and 100 that total 100 or 101. *)
Theorem slider_history_percentages (m : Alloc) :
  sliderReachable m ->
  exists g : Channel -> Z,
    m = allocZ g /\ (forall c, 0 <= g c <= 100) /\ 100 <= sumZ g keys <= 101.
Proof. apply sliderReachable_int. Qed.

Lemma slider_history_percentages_witness :
  sliderReachable (setAllocForChannel (setAllocForChannel initialMediaAlloc OOH (ofZ 0)) Digital (ofZ 4))
  /\ exists g : Channel -> Z,
       setAllocForChannel (setAllocForChannel initialMediaAlloc OOH (ofZ 0)) Digital (ofZ 4)
       = allocZ g
       /\ (forall c, 0 <= g c <= 100) /\ 100 <= sumZ g keys <= 101.
Proof.
  assert (H : sliderReachable
                (setAllocForChannel (setAllocForChannel initialMediaAlloc OOH (ofZ 0))
                   Digital (ofZ 4))).
  { apply slider_move; [apply slider_move; [apply slider_init|reflexivity|reflexivity]
                       |reflexivity|reflexivity]. }
  split; [exact H|]. apply (slider_history_percentages _ H).
Defined.

(** X6. When the other channels hold something, the two later ones (in
    key order) receive the integers nearest to their proportional share
    of [100 - val], and the first one receives what is then left of 100,
    but never less than 0. *)
Theorem setAlloc_shares (f : Channel -> Z) (channel : Channel) (rawVal : number) :
  (forall c, 0 <= f c) -> 0 < sumZ f (others channel) <= 2 ^ 40 ->
  wf rawVal -> isNaN rawVal = false ->
  exists g : Channel -> Z,
    setAllocForChannel (allocZ f) channel rawVal = allocZ g
    /\ g channel = clampZ rawVal
    /\ (forall o, In o (tl (others channel)) ->
          Z.abs (2 * (g o * sumZ f (others channel) - f o * (100 - clampZ rawVal)))
          <= sumZ f (others channel))
    /\ g (hd channel (others channel))
       = Z.max 0 (100 - clampZ rawVal - sumZ g (tl (others channel))).
Proof.
  intros Hf Hs Hwf Hnan.
  rewrite setAllocForChannel_val, (clampVal_spec rawVal Hwf Hnan).
  destruct (setAllocVal_weighted f channel (clampZ rawVal) Hf Hs (clampZ_range rawVal))
    as [g [E [Hg [Hsh Hfirst]]]].
  exists g. split; [exact E|]. split; [exact Hg|]. split; [|exact Hfirst].
  intros o Ho. destruct (Hsh o Ho) as [_ [U L]]. lia.
Qed.

Lemma setAlloc_shares_witness :
  ((forall c, 0 <= place OOH 30 30 25 15 c)
   /\ 0 < sumZ (place OOH 30 30 25 15) (others Digital) <= 2 ^ 40
   /\ wf (dec 496 1) /\ isNaN (dec 496 1) = false)
  /\ exists g : Channel -> Z,
       setAllocForChannel (allocZ (place OOH 30 30 25 15)) Digital (dec 496 1) = allocZ g
       /\ g Digital = clampZ (dec 496 1)
       /\ (forall o, In o (tl (others Digital)) ->
             Z.abs (2 * (g o * sumZ (place OOH 30 30 25 15) (others Digital)
                         - place OOH 30 30 25 15 o * (100 - clampZ (dec 496 1))))
             <= sumZ (place OOH 30 30 25 15) (others Digital))
       /\ g (hd Digital (others Digital))
          = Z.max 0 (100 - clampZ (dec 496 1) - sumZ g (tl (others Digital))).
Proof.
  assert (H : forall c, 0 <= place OOH 30 30 25 15 c) by (intros c; destruct c; simpl; lia).
  assert (S : 0 < sumZ (place OOH 30 30 25 15) (others Digital) <= 2 ^ 40)
    by (split; reflexivity || (apply Z.leb_le; reflexivity)).
  split; [split; [exact H|split; [exact S|split; reflexivity]]|].
  apply (setAlloc_shares (place OOH 30 30 25 15) Digital (dec 496 1) H S); reflexivity.
Defined.

Lemma nearest_exact (g a s : Z) :
  0 < s -> 2 * g * s - 2 * a * s <= s -> 2 * a * s - 2 * g * s <= s -> g = a.
Proof.
  intros Hs U L. destruct (Z.lt_trichotomy g a) as [H|[H|H]]; [|exact H|].
  - assert (X : 1 * s <= (a - g) * s) by (apply Z.mul_le_mono_nonneg_r; lia). lia.
  - assert (X : 1 * s <= (g - a) * s) by (apply Z.mul_le_mono_nonneg_r; lia). lia.
Qed.

Lemma same_value_even (f : Channel -> Z) (channel : Channel) :
  (forall c, 0 <= f c) -> sumZ f keys = 100 -> sumZ f (others channel) = 0 ->
  allocZ (place channel (f channel) ((100 - f channel) / 3 + (100 - f channel) mod 3)
            ((100 - f channel) / 3) ((100 - f channel) / 3))
  = allocZ f.
Proof.
  intros Hf Hsum Hz.
  pose proof (Hf OOH). pose proof (Hf TV). pose proof (Hf Digital). pose proof (Hf CTV).
  assert (E : 100 - f channel = 0).
  { unfold sumZ in *. cbn [keys fold_left] in Hsum.
    destruct channel; cbn [others filter keys Channel_eqb negb fold_left] in Hz; lia. }
  rewrite E. change (0 / 3) with 0. change (0 mod 3) with 0. change (0 + 0) with 0.
  unfold sumZ in Hz. unfold allocZ, allocOfZ.
  destruct channel; cbn [others filter keys Channel_eqb negb fold_left place] in *;
    f_equal; f_equal; lia.
Qed.

Lemma same_value_weighted (f g : Channel -> Z) (channel : Channel) :
  (forall c, 0 <= f c) -> sumZ f keys = 100 -> 0 < sumZ f (others channel) ->
  g channel = f channel ->
  (forall o, In o (tl (others channel)) ->
     0 <= g o <= 100 - f channel
     /\ 2 * g o * sumZ f (others channel) - 2 * f o * (100 - f channel) <= sumZ f (others channel)
     /\ 2 * f o * (100 - f channel) - 2 * g o * sumZ f (others channel) <= sumZ f (others channel)) ->
  g (hd channel (others channel)) = Z.max 0 (100 - f channel - sumZ g (tl (others channel))) ->
  allocZ g = allocZ f.
Proof.
  intros Hf Hsum Hpos Hg Hsh Hfirst.
  pose proof (Hf OOH). pose proof (Hf TV). pose proof (Hf Digital). pose proof (Hf CTV).
  assert (Hs : sumZ f (others channel) = 100 - f channel).
  { unfold sumZ in *. cbn [keys fold_left] in Hsum.
    destruct channel; cbn [others filter keys Channel_eqb negb fold_left]; lia. }
  rewrite Hs in Hsh, Hpos. clear Hs.
  unfold sumZ in *. unfold allocZ, allocOfZ.
  destruct channel; cbn [others filter keys Channel_eqb negb fold_left hd tl] in *.
  all: match type of Hsh with
       | forall o, In o [?o2; ?o3] -> _ =>
           destruct (Hsh o2 ltac:(simpl; tauto)) as [R2 [U2 L2]];
           destruct (Hsh o3 ltac:(simpl; tauto)) as [R3 [U3 L3]]
       end.
  all: apply nearest_exact in U2; [|lia|exact L2];
       apply nearest_exact in U3; [|lia|exact L3].
  all: f_equal; f_equal; lia.
Qed.

(** X7. On an allocation of non-negative integers that total 100,
    moving a channel's slider to the value the channel already holds
    changes nothing. *)
Theorem setAlloc_same_value (f : Channel -> Z) (channel : Channel) :
  (forall c, 0 <= f c) -> sumZ f keys = 100 ->
  setAllocForChannel (allocZ f) channel (ofZ (f channel)) = allocZ f.
Proof.
  intros Hf Hsum.
  assert (Hk : 0 <= f channel <= 100).
  { pose proof (Hf OOH). pose proof (Hf TV). pose proof (Hf Digital). pose proof (Hf CTV).
    unfold sumZ in Hsum. cbn [keys fold_left] in Hsum. destruct channel; lia. }
  assert (Hs : sumZ f (others channel) <= 100).
  { pose proof (Hf OOH). pose proof (Hf TV). pose proof (Hf Digital). pose proof (Hf CTV).
    unfold sumZ in *. cbn [keys fold_left] in Hsum.
    destruct channel; cbn [others filter keys Channel_eqb negb fold_left]; lia. }
  pose proof (sumZ_others_nonneg f channel Hf) as Hs0.
  assert (P : 100 <= 2 ^ 40) by (apply Z.leb_le; reflexivity).
  rewrite setAllocForChannel_val, (clampVal_ofZ _ Hk).
  destruct (Z.eq_dec (sumZ f (others channel)) 0) as [Hz|Hnz].
  - rewrite (setAllocVal_even f channel (f channel) Hf Hz Hk).
    apply same_value_even; assumption.
  - destruct (setAllocVal_weighted f channel (f channel) Hf ltac:(lia) Hk)
      as [g [E [Hg [Hsh Hfirst]]]].
    rewrite E. apply (same_value_weighted f g channel); try assumption. lia.
Qed.

Lemma setAlloc_same_value_witness :
  ((forall c, 0 <= place OOH 30 30 25 15 c) /\ sumZ (place OOH 30 30 25 15) keys = 100)
  /\ setAllocForChannel (allocZ (place OOH 30 30 25 15)) TV (ofZ (place OOH 30 30 25 15 TV))
     = allocZ (place OOH 30 30 25 15).
Proof.
  assert (H : forall c, 0 <= place OOH 30 30 25 15 c) by (intros c; destruct c; simpl; lia).
  split; [split; [exact H|reflexivity]|].
  apply (setAlloc_same_value (place OOH 30 30 25 15) TV H). reflexivity.
Defined.

(** ** The composite improvement *)

(** One term of the weighted rate: [(pct / total) * rate]. *)
Lemma term_Q (a T : Z) (r : number) :
  0 <= a <= T -> 0 < T < 2 ^ 53 -> nonneg (-49) r -> (Qmag r <= 14)%Q ->
  let t := mul (div (ofZ a) (ofZ T)) r in
  nonneg (-48) t
  /\ (inject_Z a / inject_Z T * Qmag r - pow2 (-47) <= Qmag t)%Q
  /\ (Qmag t <= inject_Z a / inject_Z T * Qmag r + pow2 (-47))%Q.
Proof.
  intros Ha HT Hr HR. cbv zeta.
  destruct (share_nonneg_Q a T Ha HT) as [Hq [Hq1 Hq2]].
  set (q := div (ofZ a) (ofZ T)) in *.
  pose proof (Qmag_nonneg r) as HR0. pose proof (Qmag_nonneg q) as Hq0.
  assert (HTq : (0 < inject_Z T)%Q) by (change 0%Q with (inject_Z 0); rewrite <- Zlt_Qlt; lia).
  assert (Hx : (0 <= inject_Z a / inject_Z T <= 1)%Q).
  { split.
    - apply Qle_shift_div_l; [exact HTq|]. rewrite Qmult_0_l.
      change 0%Q with (inject_Z 0). rewrite <- Zle_Qle. lia.
    - apply Qle_shift_div_r; [exact HTq|]. rewrite Qmult_1_l, <- Zle_Qle. lia. }
  set (x := (inject_Z a / inject_Z T)%Q) in *. set (R := Qmag r) in *. set (qv := Qmag q) in *.
  change (pow2 (-52)) with (1 # 4503599627370496)%Q in Hq1, Hq2.
  assert (M1 : ((x - (1 # 4503599627370496)) * R <= qv * R)%Q)
    by (apply Qmult_le_compat_r; lra).
  assert (M2 : (qv * R <= (x + (1 # 4503599627370496)) * R)%Q)
    by (apply Qmult_le_compat_r; lra).
  assert (M3 : (x * R <= 1 * R)%Q) by (apply Qmult_le_compat_r; lra).
  assert (M4 : (0 <= x * R)%Q) by (apply Qmult_le_0_compat; lra).
  destruct (mul_nonneg_Q q r (-51) (-49) 4 (-49) Hq Hr) as [Hsh [Hb1 Hb2]]; try lia.
  { fold qv R. change (pow2 4) with 16%Q. lra. }
  fold qv R in Hb1, Hb2. change (pow2 (-49)) with (1 # 562949953421312)%Q in Hb1, Hb2.
  change (-49 + 1) with (-48) in Hsh. split; [exact Hsh|].
  change (pow2 (-47)) with (1 # 140737488355328)%Q. split; lra.
Qed.

Lemma computeCompositeImprovement_eq (alloc : Alloc) :
  computeCompositeImprovement alloc
  = if le (allocSum alloc) (ofZ 0) then ofZ 0 else one_decimal (weightedRate alloc).
Proof.
  unfold computeCompositeImprovement, allocSum, weightedRate, one_decimal.
  cbn [map snd fst values mediaInventorySubcategories fold_left keys get lookup String.eqb
       Ascii.eqb Bool.eqb].
  reflexivity.
Qed.

Lemma allocSum_allocZ (f : Channel -> Z) :
  (forall c, 0 <= f c) -> sumZ f keys < 2 ^ 53 ->
  allocSum (allocZ f) = ofZ (sumZ f keys).
Proof.
  intros Hf Hs. pose proof (Hf OOH). pose proof (Hf TV). pose proof (Hf Digital).
  pose proof (Hf CTV).
  unfold allocSum, allocZ, sumZ in *. cbn [keys fold_left] in *. alloc_cbn.
  rewrite !add_ofZ by lia. reflexivity.
Qed.

Lemma composite_range (f : Channel -> Z) :
  (forall c, 0 <= f c) -> 0 < sumZ f keys <= 2 ^ 40 ->
  exists z : Z, 22 <= z <= 133 /\ computeCompositeImprovement (allocZ f) = dec z 1.
Proof.
  intros Hf Hs.
  assert (P40 : 2 ^ 40 = 1099511627776) by reflexivity.
  assert (P53 : 2 ^ 53 = 9007199254740992) by reflexivity.
  pose proof (Hf OOH) as H1. pose proof (Hf TV) as H2.
  pose proof (Hf Digital) as H3. pose proof (Hf CTV) as H4.
  rewrite computeCompositeImprovement_eq, (allocSum_allocZ f Hf) by lia.
  rewrite le_ofZ by lia.
  replace (sumZ f keys <=? 0) with false by (symmetry; apply Z.leb_gt; lia).
  unfold one_decimal, weightedRate. rewrite (allocSum_allocZ f Hf) by lia.
  set (T := sumZ f keys) in *.
  assert (HT : T = f OOH + f TV + f Digital + f CTV) by (unfold T, sumZ; cbn [keys fold_left]; lia).
  cbn [keys fold_left]. unfold allocZ. alloc_cbn. cbn [channelRate].
  (* the four terms *)
  assert (N1 : nonneg (-49) (dec 133 1)).
  { right. exists 7487234380503450%positive, (-49). repeat split; lia. }
  assert (N2 : nonneg (-49) (dec 102 1)).
  { right. exists 5742089524897382%positive, (-49). repeat split; lia. }
  assert (N3 : nonneg (-49) (dec 39 1)).
  { right. exists 8782019273372467%positive, (-51). repeat split; lia. }
  assert (N4 : nonneg (-49) (dec 22 1)).
  { right. exists 4953959590107546%positive, (-51). repeat split; lia. }
  assert (R1 : (Qmag (dec 133 1) == 7487234380503450 # 562949953421312)%Q) by reflexivity.
  assert (R2 : (Qmag (dec 102 1) == 5742089524897382 # 562949953421312)%Q) by reflexivity.
  assert (R3 : (Qmag (dec 39 1) == 8782019273372467 # 2251799813685248)%Q) by reflexivity.
  assert (R4 : (Qmag (dec 22 1) == 4953959590107546 # 2251799813685248)%Q) by reflexivity.
  destruct (term_Q (f OOH) T (dec 133 1)) as [S1 [L1 U1]]; try lia; try assumption;
    [rewrite R1; unfold Qle; simpl; lia|].
  destruct (term_Q (f TV) T (dec 102 1)) as [S2 [L2 U2]]; try lia; try assumption;
    [rewrite R2; unfold Qle; simpl; lia|].
  destruct (term_Q (f Digital) T (dec 39 1)) as [S3 [L3 U3]]; try lia; try assumption;
    [rewrite R3; unfold Qle; simpl; lia|].
  destruct (term_Q (f CTV) T (dec 22 1)) as [S4 [L4 U4]]; try lia; try assumption;
    [rewrite R4; unfold Qle; simpl; lia|].
  cbv zeta in S1, L1, U1, S2, L2, U2, S3, L3, U3, S4, L4, U4.
  rewrite R1 in L1, U1. rewrite R2 in L2, U2. rewrite R3 in L3, U3. rewrite R4 in L4, U4.
  set (t1 := mul (div (ofZ (f OOH)) (ofZ T)) (dec 133 1)) in *.
  set (t2 := mul (div (ofZ (f TV)) (ofZ T)) (dec 102 1)) in *.
  set (t3 := mul (div (ofZ (f Digital)) (ofZ T)) (dec 39 1)) in *.
  set (t4 := mul (div (ofZ (f CTV)) (ofZ T)) (dec 22 1)) in *.
  change (pow2 (-47)) with (1 # 140737488355328)%Q in *.
  (* the shares sum to one *)
  assert (HTq : (0 < inject_Z T)%Q) by (change 0%Q with (inject_Z 0); rewrite <- Zlt_Qlt; lia).
  assert (Hx : forall a, 0 <= a -> (0 <= inject_Z a / inject_Z T)%Q).
  { intros a Ha. apply Qle_shift_div_l; [exact HTq|]. rewrite Qmult_0_l.
    change 0%Q with (inject_Z 0). rewrite <- Zle_Qle. exact Ha. }
  pose proof (Hx _ H1) as X1. pose proof (Hx _ H2) as X2.
  pose proof (Hx _ H3) as X3. pose proof (Hx _ H4) as X4.
  assert (Hone : (inject_Z (f OOH) / inject_Z T + inject_Z (f TV) / inject_Z T
                  + inject_Z (f Digital) / inject_Z T + inject_Z (f CTV) / inject_Z T == 1)%Q).
  { rewrite HT at 1 2 3 4. rewrite !inject_Z_plus. field. rewrite <- !inject_Z_plus, <- HT. lra. }
  set (x1 := (inject_Z (f OOH) / inject_Z T)%Q) in *.
  set (x2 := (inject_Z (f TV) / inject_Z T)%Q) in *.
  set (x3 := (inject_Z (f Digital) / inject_Z T)%Q) in *.
  set (x4 := (inject_Z (f CTV) / inject_Z T)%Q) in *.
  (* the running sum *)
  assert (S0 : nonneg (-48) (ofZ 0)) by (left; reflexivity).
  destruct (add_nonneg_Q (ofZ 0) t1 4 (-48) S0 S1) as [W1 [A1 B1]]; try lia.
  { change (Qmag (ofZ 0)) with 0%Q. change (pow2 4) with 16%Q. lra. }
  change (Qmag (ofZ 0)) with 0%Q in A1, B1. change (pow2 (-48)) with (1 # 281474976710656)%Q in A1, B1.
  set (w1 := add (ofZ 0) t1) in *.
  destruct (add_nonneg_Q w1 t2 4 (-47) W1 (nonneg_weaken (-48) (-47) t2 ltac:(lia) S2)) as [W2 [A2 B2]]; try lia.
  { change (pow2 4) with 16%Q. lra. }
  change (pow2 (-47)) with (1 # 140737488355328)%Q in A2, B2.
  set (w2 := add w1 t2) in *.
  destruct (add_nonneg_Q w2 t3 4 (-46) W2 (nonneg_weaken (-48) (-46) t3 ltac:(lia) S3)) as [W3 [A3 B3]]; try lia.
  { change (pow2 4) with 16%Q. lra. }
  change (pow2 (-46)) with (1 # 70368744177664)%Q in A3, B3.
  set (w3 := add w2 t3) in *.
  destruct (add_nonneg_Q w3 t4 4 (-45) W3 (nonneg_weaken (-48) (-45) t4 ltac:(lia) S4)) as [W4 [A4 B4]]; try lia.
  { change (pow2 4) with 16%Q. lra. }
  change (pow2 (-45)) with (1 # 35184372088832)%Q in A4, B4.
  set (w4 := add w3 t4) in *.
  (* times ten, rounded *)
  assert (N10 : nonneg (-49) (ofZ 10)).
  { right. exists 5629499534213120%positive, (-49). repeat split; lia. }
  assert (R10 : (Qmag (ofZ 10) == 10)%Q) by reflexivity.
  destruct (mul_nonneg_Q w4 (ofZ 10) (-44) (-49) 8 (-45) W4 N10) as [Wp [Ap Bp]]; try lia.
  { rewrite R10. change (pow2 8) with 256%Q. lra. }
  rewrite R10 in Ap, Bp. change (pow2 (-45)) with (1 # 35184372088832)%Q in Ap, Bp.
  set (p := mul w4 (ofZ 10)) in *.
  assert (Hp : p = S754_zero false
               \/ exists m e, p = S754_finite false m e /\ e < 0 /\ Zpos m < 2 ^ 53).
  { destruct Wp as [Hz|[m [e [E [He Hm]]]]]; [left; exact Hz|right].
    exists m, e. split; [exact E|]. split; [lia|exact Hm]. }
  destruct (Math_round_Q p Hp) as [z [Hz [Ez [Z1 Z2]]]].
  exists z. split.
  - assert (Lz : (inject_Z 21 < inject_Z z)%Q) by (change (inject_Z 21) with 21%Q; lra).
    assert (Uz : (inject_Z z < inject_Z 134)%Q) by (change (inject_Z 134) with 134%Q; lra).
    rewrite <- Zlt_Qlt in Lz, Uz. lia.
  - rewrite Ez. reflexivity.
Qed.

(** X8. On an allocation of non-negative integers with a positive
    total, the composite improvement is a number with one decimal between
    the smallest and the largest channel rate, 2.2 and 13.3. *)
Theorem composite_between_rates (f : Channel -> Z) :
  (forall c, 0 <= f c) -> 0 < sumZ f keys <= 2 ^ 40 ->
  exists z : Z, 22 <= z <= 133 /\ computeCompositeImprovement (allocZ f) = dec z 1.
Proof. apply composite_range. Qed.

Lemma composite_between_rates_witness :
  ((forall c, 0 <= place OOH 30 30 25 15 c) /\ 0 < sumZ (place OOH 30 30 25 15) keys <= 2 ^ 40)
  /\ exists z : Z,
       22 <= z <= 133
       /\ computeCompositeImprovement (allocZ (place OOH 30 30 25 15)) = dec z 1.
Proof.
  assert (H : forall c, 0 <= place OOH 30 30 25 15 c) by (intros c; destruct c; simpl; lia).
  assert (S : 0 < sumZ (place OOH 30 30 25 15) keys <= 2 ^ 40)
    by (split; reflexivity || (apply Z.leb_le; reflexivity)).
  split; [split; [exact H|exact S]|].
  apply (composite_between_rates (place OOH 30 30 25 15) H S).
Defined.

(** X9. The button of the media panel therefore always applies an
    improvement between 2.2 and 13.3: that is the composite of every
    allocation the slider can reach. *)
Theorem composite_on_slider_states (m : Alloc) :
  sliderReachable m ->
  exists z : Z, 22 <= z <= 133 /\ computeCompositeImprovement m = dec z 1.
Proof.
  intros Hr. destruct (sliderReachable_int m Hr) as [g [-> [Hg Hs]]].
  apply composite_range.
  - intros c. apply Hg.
  - assert (P : 101 <= 2 ^ 40) by (apply Z.leb_le; reflexivity). lia.
Qed.

Lemma composite_on_slider_states_witness :
  sliderReachable initialMediaAlloc
  /\ exists z : Z, 22 <= z <= 133 /\ computeCompositeImprovement initialMediaAlloc = dec z 1.
Proof.
  split; [apply slider_init|].
  apply (composite_on_slider_states initialMediaAlloc slider_init).
Defined.

(** ** Forecasts *)

Lemma factors_check : forallb factors_ok (Zrange 0 1000) = true.
Proof. vm_compute. reflexivity. Qed.

Lemma tenths_check :
  forallb (fun k => number_eqb (dec (10 * k) 1) (ofZ k)) (Zrange 0 100) = true.
Proof. vm_compute. reflexivity. Qed.

(** A finite number times a number below one is finite. *)
Lemma mul_below_one_finite (sx : bool) (mx m : positive) (ex e : Z) :
  wf (S754_finite sx mx ex) -> Zpos m < 2 ^ 53 -> e <= -53 ->
  finite_signed sx (mul (S754_finite sx mx ex) (S754_finite false m e)).
Proof.
  intros Hwf Hm He. pose proof (wf_exponent _ _ _ Hwf) as Hex.
  pose proof (wf_small _ Hwf) as Hmx. cbn [small] in Hmx.
  unfold mul, SFmul. rewrite xorb_false_r.
  set (M := Zpos (mx * m)).
  assert (P53 : 2 ^ 53 = 9007199254740992) by reflexivity.
  assert (HM : 0 < M <= (2 ^ 53 - 1) * (2 ^ 53 - 1)).
  { unfold M. rewrite Pos2Z.inj_mul. split; [lia|]. apply Z.mul_le_mono_nonneg; lia. }
  assert (Hd : Zdigits2 M <= 106).
  { apply Zdigits2_le_pow; [lia|lia|].
    eapply Z.le_lt_trans; [apply HM|]. apply Z.ltb_lt. reflexivity. }
  destruct (binary_round_aux_shape sx M (ex + e) loc_Exact ltac:(lia))
    as [m2 [Hm2 [Hle2 Hc]]].
  set (e1 := Z.max (fexp prec emax (Zdigits2 M + (ex + e))) (ex + e)) in *.
  assert (He1 : ex + e <= e1 <= 971) by (unfold e1, fexp, emin, prec, emax; lia).
  destruct Hc as [[_ ->]|[[_ ->]|[Hb ->]]].
  - reflexivity.
  - replace (e1 <=? 971) with true by (symmetry; apply Z.leb_le; lia). reflexivity.
  - destruct (Z.eq_dec e1 971) as [Ee|Ne].
    + exfalso.
      assert (Hk : e1 - (ex + e) = 53) by (unfold e1, fexp, emin, prec, emax in *; lia).
      rewrite Hk in Hm2.
      assert (X : M / 2 ^ 53 < 2 ^ 53 - 1).
      { apply Z.div_lt_upper_bound; [apply Z.pow_pos_nonneg; lia|].
        eapply Z.le_lt_trans; [apply HM|]. apply Z.ltb_lt. reflexivity. }
      lia.
    + replace (e1 + 1 <=? 971) with true by (symmetry; apply Z.leb_le; lia). reflexivity.
Qed.

(** [toFixed(2)] of a finite number is finite and has its sign. *)
Lemma toFixed_number_finite (m : positive) (e : Z) :
  Zpos m < 2 ^ 53 -> e <= 971 ->
  finite_signed false (toFixed_number (S754_finite false m e) 2).
Proof.
  intros Hm He. unfold toFixed_number.
  destruct (10 ^ 21 * 2 ^ Z.max (- e) 0 <=? Zpos m * 2 ^ Z.max e 0) eqn:E; [reflexivity|].
  apply Z.leb_gt in E.
  pose proof (toFixed_digits_nearest m e 2 ltac:(lia)) as Hn. unfold nearest_scaled in Hn.
  destruct (toFixed_digits m e 2) as [|n|n] eqn:En; try reflexivity.
  assert (Ht : 0 < 2 ^ Z.max (- e) 0) by (apply Z.pow_pos_nonneg; lia).
  change (10 ^ 2) with 100 in *. change (10 ^ 21) with 1000000000000000000000 in E.
  assert (Hb : Zpos n <= 100000000000000000000000).
  { set (t := 2 ^ Z.max (- e) 0) in *. set (v := Zpos m * 2 ^ Z.max e 0) in *.
    destruct Hn as [Hn _].
    assert (X : (2 * Zpos n - 1) * t < 200000000000000000000000 * t) by nia.
    apply Z.mul_lt_mono_pos_r in X; [lia|exact Ht]. }
  change (ofZ 100) with (S754_finite false 7036874417766400 (-46)).
  apply div_finite; [|lia].
  assert (Hd : Zpos (digits2_pos n) <= 77).
  { apply digits2_lt_pow; [lia|].
    eapply Z.le_lt_trans; [exact Hb|]. apply Z.ltb_lt. reflexivity. }
  lia.
Qed.

Lemma finite_signed_nonneg (x : number) :
  finite_signed false x -> JS.isFinite x = true /\ lt x (ofZ 0) = false.
Proof.
  destruct x as [s|s| |s m e]; cbn [finite_signed]; try contradiction; intros ->;
    split; reflexivity.
Qed.

(** [Math.round] of a number that is not negative is not negative. *)
Lemma Math_round_nonneg (x : number) :
  small x -> isNaN x = false -> lt x (ofZ 0) = false ->
  isNaN (Math_round x) = false /\ lt (Math_round x) (ofZ 0) = false.
Proof.
  intros Hs Hn Hlt. split; [apply Math_round_not_nan, Hn|].
  destruct x as [s|s| |s m e]; try discriminate; try exact Hlt.
  destruct s; [discriminate|]. cbn [small] in Hs.
  unfold Math_round. destruct (0 <=? e) eqn:E; [reflexivity|].
  apply Z.leb_gt in E. pose proof (round_half_up_pos_bounds m e E) as Hb.
  destruct (round_half_up false m e =? 0) eqn:Ez; [reflexivity|].
  rewrite lt_ofZ by lia. apply Z.ltb_ge. lia.
Qed.

Lemma mul_nonneg_sign (x : number) (m : positive) (e : Z) :
  finite_signed false x ->
  isNaN (mul x (S754_finite false m e)) = false
  /\ lt (mul x (S754_finite false m e)) (ofZ 0) = false.
Proof.
  destruct x as [s|s| |s mx ex]; cbn [finite_signed]; try contradiction; intros ->.
  - split; reflexivity.
  - unfold mul, SFmul. cbn [xorb].
    destruct (binary_round_aux_shape false (Zpos (mx * m)) (ex + e) loc_Exact ltac:(lia))
      as [m2 [_ [_ Hc]]].
    destruct Hc as [[_ ->]|[[_ ->]|[_ ->]]]; try (split; reflexivity);
      destruct (_ <=? 971); split; reflexivity.
Qed.

Lemma forecast_nonneg_tenths (last : Forecast) (z : Z) :
  wf (CPA last) -> wf (Conversions last) ->
  finite_signed false (CPA last) -> finite_signed false (Conversions last) ->
  0 <= z <= 1000 ->
  let r := computeForecast last (dec z 1) in
  JS.isFinite (CPA r) = true /\ lt (CPA r) (ofZ 0) = false
  /\ isNaN (Conversions r) = false /\ lt (Conversions r) (ofZ 0) = false.
Proof.
  intros Hw1 Hw2 Hc Hn Hz. cbv zeta. unfold computeForecast. cbn [CPA Conversions].
  pose proof (forall_Zrange _ 0 1000 factors_check z Hz) as Hf. unfold factors_ok in Hf.
  destruct (ofZ 1 - dec z 1 / ofZ 100)%js as [s|s| |s m e] eqn:E1; try discriminate Hf;
    destruct s; try discriminate Hf;
    destruct (ofZ 1 + dec z 1 / ofZ 100)%js as [s'|s'| |s' m' e'] eqn:E2; try discriminate Hf;
    destruct s'; try discriminate Hf.
  - (* the whole CPA is taken away *)
    split; [|split].
    + destruct (CPA last) as [s|s| |s mx ex]; cbn [finite_signed] in Hc; try contradiction;
        reflexivity.
    + destruct (CPA last) as [s|s| |s mx ex]; cbn [finite_signed] in Hc; try contradiction;
        reflexivity.
    + apply Math_round_nonneg; [apply mul_small| |]; apply mul_nonneg_sign, Hn.
  - apply andb_prop in Hf. destruct Hf as [Hf _].
    assert (Hcpa : finite_signed false
                     (toFixed_number (CPA last * S754_finite false m e)%js 2)).
    { assert (Hmul : finite_signed false (CPA last * S754_finite false m e)%js).
      { apply orb_prop in Hf. destruct Hf as [Hf|Hf].
        - apply andb_prop in Hf. destruct Hf as [Hm He].
          apply Z.ltb_lt in Hm. apply Z.leb_le in He.
          destruct (CPA last) as [s|s| |s mx ex] eqn:Ec; cbn [finite_signed] in Hc;
            try contradiction; subst s; [reflexivity|].
          apply mul_below_one_finite; assumption.
        - apply number_eqb_eq in Hf. rewrite Hf, mul_1_r by exact Hw1. exact Hc. }
      pose proof (mul_small (CPA last) (S754_finite false m e)) as Hs.
      destruct (CPA last * S754_finite false m e)%js as [s|s| |s mm ee] eqn:Em;
        cbn [finite_signed] in Hmul; try contradiction; subst s; [reflexivity|].
      cbn [small] in Hs. apply toFixed_number_finite; [exact Hs|].
      (* the exponent of a finite product *)
      revert Em. unfold mul. destruct (CPA last) as [s|s| |s mx ex]; try discriminate.
      unfold SFmul, binary_round_aux.
      destruct (shr_fexp _ _ _ _ _) as [mrs' e'']. destruct (shr_fexp _ _ _ _ _) as [mrs2 e2].
      destruct (shr_m mrs2); try discriminate.
      destruct (e2 <=? emax - prec) eqn:Le; try discriminate.
      intros H. injection H as _ _ <-. apply Z.leb_le in Le. unfold emax, prec in Le. lia. }
    destruct (finite_signed_nonneg _ Hcpa) as [F1 F2].
    split; [exact F1|]. split; [exact F2|].
    apply Math_round_nonneg; [apply mul_small| |]; apply mul_nonneg_sign, Hn.
Qed.

(** X10. For a pair of non-negative finite numbers and an improvement
    between 0 and 100 percent, given as an integer or with one decimal,
    the forecast CPA is finite and not negative, and the forecast
    Conversions are not negative (infinite at worst). *)
Theorem forecast_stays_nonnegative (last : Forecast) (improvement : number) :
  wf (CPA last) -> wf (Conversions last) ->
  finite_signed false (CPA last) -> finite_signed false (Conversions last) ->
  (exists z, 0 <= z <= 1000 /\ improvement = dec z 1)
  \/ (exists k, 0 <= k <= 100 /\ improvement = ofZ k) ->
  let r := computeForecast last improvement in
  JS.isFinite (CPA r) = true /\ lt (CPA r) (ofZ 0) = false
  /\ isNaN (Conversions r) = false /\ lt (Conversions r) (ofZ 0) = false.
Proof.
  intros Hw1 Hw2 Hc Hn [[z [Hz ->]]|[k [Hk ->]]].
  - apply forecast_nonneg_tenths; assumption.
  - rewrite <- (number_eqb_eq _ _ (forall_Zrange _ 0 100 tenths_check k Hk)).
    apply forecast_nonneg_tenths; try assumption. lia.
Qed.

Lemma forecast_stays_nonnegative_witness :
  (wf (ofZ 40) /\ wf (ofZ 190) /\ finite_signed false (ofZ 40)
   /\ finite_signed false (ofZ 190)
   /\ ((exists z, 0 <= z <= 1000 /\ ofZ 12 = dec z 1)
       \/ (exists k, 0 <= k <= 100 /\ ofZ 12 = ofZ k)))
  /\ let r := computeForecast {| CPA := ofZ 40; Conversions := ofZ 190 |} (ofZ 12) in
     JS.isFinite (CPA r) = true /\ lt (CPA r) (ofZ 0) = false
     /\ isNaN (Conversions r) = false /\ lt (Conversions r) (ofZ 0) = false.
Proof.
  assert (H : (exists z, 0 <= z <= 1000 /\ ofZ 12 = dec z 1)
              \/ (exists k, 0 <= k <= 100 /\ ofZ 12 = ofZ k)).
  { right. exists 12. split; [lia|reflexivity]. }
  split; [repeat split; exact H|].
  apply (forecast_stays_nonnegative {| CPA := ofZ 40; Conversions := ofZ 190 |} (ofZ 12));
    [reflexivity|reflexivity|reflexivity|reflexivity|exact H].
Defined.

(** ** The two logs and the panels *)

(** X11. The activity log keeps step with the performance log: in
    every state the component can reach, the two hold the same cycle
    names in the same order. *)
Theorem logs_in_step insights numberToString (st : AppState) :
  reachable insights numberToString st ->
  map cycle (performanceData st) = map act_cycle (aiActivities st).
Proof.
  induction 1 as [|st ch raw Hr IH|st label imp st' Hr IH Happ].
  - reflexivity.
  - exact IH.
  - unfold applyImprovement in Happ.
    destruct (lastPoint (performanceData st)) as [last|]; [|discriminate].
    injection Happ as <-. cbn [performanceData aiActivities].
    rewrite !map_app, IH. reflexivity.
Qed.

Lemma logs_in_step_witness :
  reachable baseInsights (fun _ => EmptyString) initialState
  /\ map cycle (performanceData initialState) = map act_cycle (aiActivities initialState).
Proof.
  split; [apply reach_init|].
  apply (logs_in_step baseInsights (fun _ => EmptyString) initialState (reach_init _ _)).
Defined.

(** X12. In a table that lists the two panels with subcategories, the
    parent panel of any label has an insight, and is its own parent. *)
Theorem parent_panel_has_insight (insights : list (string * Insight)) (label p : string) :
  In "Media Inventory"%string (map fst insights) ->
  In "Data Feed Optimization"%string (map fst insights) ->
  findParentPanel insights label = Some p ->
  (exists info, lookup insights p = Some info)
  /\ findParentPanel insights p = Some p.
Proof.
  intros Hm Hd H.
  assert (Hp : In p (map fst insights)).
  { unfold findParentPanel in H.
    destruct (includes (map fst insights) label) eqn:E1.
    - injection H as <-. apply includes_In, E1.
    - destruct (someNamed mediaInventorySubcategories label).
      + injection H as <-. exact Hm.
      + destruct (someNamed dataFeedSubcategories label); [|discriminate].
        injection H as <-. exact Hd. }
  split; [apply lookup_In, Hp|].
  unfold findParentPanel. rewrite (In_includes _ _ Hp). reflexivity.
Qed.

Lemma parent_panel_has_insight_witness :
  (In "Media Inventory"%string (map fst baseInsights)
   /\ In "Data Feed Optimization"%string (map fst baseInsights)
   /\ findParentPanel baseInsights "TV" = Some "Media Inventory"%string)
  /\ (exists info, lookup baseInsights "Media Inventory" = Some info)
  /\ findParentPanel baseInsights "Media Inventory" = Some "Media Inventory"%string.
Proof.
  assert (H1 : In "Media Inventory"%string (map fst baseInsights)) by (simpl; tauto).
  assert (H2 : In "Data Feed Optimization"%string (map fst baseInsights)) by (simpl; tauto).
  split; [split; [exact H1|split; [exact H2|reflexivity]]|].
  apply (parent_panel_has_insight baseInsights "TV" "Media Inventory" H1 H2). reflexivity.
Defined.

(** ** The adjusted estimate *)

Lemma dec_75_2 : dec 75 2 = S754_finite false 6755399441055744 (-53).
Proof. vm_compute. reflexivity. Qed.

Lemma mul_075_ofZ (p : positive) :
  Zpos p < 2 ^ 51 ->
  mul (ofZ (Zpos p)) (dec 75 2)
  = S754_finite false (shl53 (3 * p)) (Zpos (digits2_pos (3 * p)) - 55).
Proof.
  intros Hp.
  assert (Hd : Zpos (digits2_pos p) <= 53) by (apply digits2_lt_pow; lia).
  assert (Hd3 : Zpos (digits2_pos (3 * p)) <= 53) by (apply digits2_lt_pow; lia).
  assert (Hd3' : Zpos (digits2_pos p) < Zpos (digits2_pos (3 * p))).
  { apply digits2_ge_pow; [lia|]. pose proof (digits2_bounds p) as [Hlo _].
    replace (2 ^ Zpos (digits2_pos p)) with (2 * 2 ^ (Zpos (digits2_pos p) - 1)).
    - lia.
    - rewrite <- Z.pow_succ_r by lia. f_equal. lia. }
  rewrite (ofZ_pos p Hd), dec_75_2.
  unfold mul, SFmul. cbn [xorb].
  pose proof (shl53_value p Hd) as Hv. pose proof (shl53_value (3 * p) Hd3) as Hv3.
  set (d := Zpos (digits2_pos p)) in *. set (d3 := Zpos (digits2_pos (3 * p))) in *.
  assert (Hk : 0 < 51 + d3 - d) by lia.
  assert (E : (shl53 p * 6755399441055744)%positive
              = Pos.iter xO (shl53 (3 * p)) (Z.to_pos (51 + d3 - d))).
  { apply pos_shift_eq; [exact Hk|].
    rewrite Pos2Z.inj_mul, Hv, Hv3.
    change (Zpos 6755399441055744) with (3 * 2 ^ 51).
    change (Zpos (3 * p)) with (3 * Zpos p).
    assert (H2 : 2 ^ (53 - d) * 2 ^ 51 = 2 ^ (53 - d3) * 2 ^ (51 + d3 - d)).
    { rewrite <- !Z.pow_add_r by lia. f_equal. lia. }
    transitivity (3 * Zpos p * (2 ^ (53 - d) * 2 ^ 51)); [ring|]. rewrite H2. ring. }
  rewrite E.
  replace (d - 53 + -53) with ((d3 - 55) - Zpos (Z.to_pos (51 + d3 - d))).
  - apply round_aux_shifted.
    replace (d3 - 55) with (d3 - 53 + (-2)) by lia.
    apply bounded_shl53_gen; [exact Hd3|]. fold d3. lia.
  - rewrite Z2Pos.id by lia. lia.
Qed.

(** X13. On a positive integer percentage [n] the adjusted estimate is
    [3n/4] rounded to the nearest integer, halves up: [floor ((3n + 2) / 4)]. *)
Theorem adjusted_improvement_on_integers (n : Z) :
  0 < n < 2 ^ 51 ->
  computeAdjustedImprovement (ofZ n) = ofZ ((3 * n + 2) / 4).
Proof.
  intros Hn. destruct n as [|p|p]; try lia.
  assert (Hd : Zpos (digits2_pos p) <= 53) by (apply digits2_lt_pow; lia).
  assert (Hd3 : Zpos (digits2_pos (3 * p)) <= 53) by (apply digits2_lt_pow; lia).
  unfold computeAdjustedImprovement.
  rewrite (mul_075_ofZ p) by lia.
  rewrite (ofZ_pos p Hd). cbn [JS.isFinite negb orb le SFleb SFcompare].
  change (ofZ 0) with (S754_zero false). cbn [SFleb SFcompare].
  unfold Math_round.
  assert (E : (0 <=? Zpos (digits2_pos (3 * p)) - 55) = false) by (apply Z.leb_gt; lia).
  rewrite E.
  assert (Hz : round_half_up false (shl53 (3 * p)) (Zpos (digits2_pos (3 * p)) - 55)
               = (3 * Zpos p + 2) / 4).
  { unfold round_half_up. rewrite E. unfold signed, cond_Zopp.
    rewrite (shl53_value (3 * p) Hd3).
    set (d3 := Zpos (digits2_pos (3 * p))) in *.
    replace (- (d3 - 55)) with ((53 - d3) + 2) by lia.
    rewrite Z.pow_add_r by lia.
    assert (Ht : 0 < 2 ^ (53 - d3)) by (apply Z.pow_pos_nonneg; lia).
    set (t := 2 ^ (53 - d3)) in *.
    change (Zpos (3 * p)) with (3 * Zpos p). change (2 ^ 2) with 4.
    replace (2 * (3 * Zpos p * t) + t * 4) with ((3 * Zpos p + 2) * (2 * t)) by ring.
    replace (2 * (t * 4)) with (4 * (2 * t)) by ring.
    apply Z.div_mul_cancel_r; lia. }
  rewrite Hz.
  assert (Hpos : 0 < (3 * Zpos p + 2) / 4).
  { apply Z.div_str_pos. lia. }
  destruct ((3 * Zpos p + 2) / 4 =? 0) eqn:Ez; [apply Z.eqb_eq in Ez; lia|].
  reflexivity.
Qed.

Lemma adjusted_improvement_on_integers_witness :
  0 < 14 < 2 ^ 51 /\ computeAdjustedImprovement (ofZ 14) = ofZ ((3 * 14 + 2) / 4).
Proof.
  split; [split; reflexivity|]. apply (adjusted_improvement_on_integers 14).
  split; reflexivity.
Defined.

(** Three quarters of a finite number is finite. *)
Lemma mul_075_finite (m : positive) (e : Z) :
  wf (S754_finite false m e) ->
  finite_signed false (mul (S754_finite false m e) (dec 75 2)).
Proof.
  intros Hwf. pose proof (wf_exponent _ _ _ Hwf) as He.
  pose proof (wf_small _ Hwf) as Hm. cbn [small] in Hm.
  rewrite dec_75_2. unfold mul, SFmul. cbn [xorb].
  set (M := Zpos (m * 6755399441055744)).
  assert (HM : 0 < M < 2 ^ 53 * 6755399441055744).
  { unfold M. rewrite Pos2Z.inj_mul. lia. }
  assert (Hd : Zdigits2 M <= 106).
  { apply Zdigits2_le_pow; [lia|lia|].
    eapply Z.lt_le_trans; [apply HM|]. apply Z.leb_le. reflexivity. }
  destruct (Z.le_gt_cases e 970) as [Hle|Hgt].
  - apply binary_round_aux_finite; lia.
  - assert (E : e = 971) by lia. subst e.
    destruct (binary_round_aux_shape false M (971 + -53) loc_Exact ltac:(lia))
      as [m2 [Hm2 [Hle2 Hc]]].
    set (e1 := Z.max (fexp prec emax (Zdigits2 M + (971 + -53))) (971 + -53)) in *.
    assert (He1 : 918 <= e1 <= 971) by (unfold e1, fexp, emin, prec, emax; lia).
    destruct Hc as [[_ ->]|[[_ ->]|[Hb ->]]].
    + reflexivity.
    + replace (e1 <=? 971) with true by (symmetry; apply Z.leb_le; lia). reflexivity.
    + destruct (Z.eq_dec e1 971) as [Ee|Ne].
      * exfalso. rewrite Ee in Hm2. change (971 - (971 + -53)) with 53 in Hm2.
        assert (X : M / 2 ^ 53 < 6755399441055744).
        { apply Z.div_lt_upper_bound; [apply Z.pow_pos_nonneg; lia|]. lia. }
        change (2 ^ 53) with 9007199254740992 in *. lia.
      * replace (e1 + 1 <=? 971) with true by (symmetry; apply Z.leb_le; lia). reflexivity.
Qed.

Lemma nearest_int_nonneg (x : number) (z : Z) :
  finite_signed false x -> nearest_int x z -> 0 <= z.
Proof.
  destruct x as [s|s| |s m e]; cbn [finite_signed nearest_int]; try contradiction.
  - intros _ ->. lia.
  - intros -> H. unfold signed, cond_Zopp in H. destruct (0 <=? e) eqn:E.
    + apply Z.leb_le in E. subst z. apply Z.mul_nonneg_nonneg; [lia|]. apply Z.pow_nonneg; lia.
    + assert (Hp : 0 < 2 ^ (- e)) by (apply Z.pow_pos_nonneg; apply Z.leb_gt in E; lia).
      nia.
Qed.

(** X14. Whatever number it is given, [NaN] and the infinities
    included, the adjusted estimate is a non-negative integer; it is 0
    when the input is not finite or not positive. *)
Theorem computeAdjustedImprovement_range (pct : number) :
  wf pct ->
  exists z : Z,
    0 <= z /\ intValue (computeAdjustedImprovement pct) = Some z
    /\ (JS.isFinite pct = false \/ le pct (ofZ 0) = true -> z = 0).
Proof.
  intros Hwf. unfold computeAdjustedImprovement.
  destruct pct as [s|s| |s m e].
  - exists 0. destruct s; repeat split; lia.
  - exists 0. repeat split; lia.
  - exists 0. repeat split; lia.
  - destruct s.
    + exists 0. repeat split; lia.
    + change (negb (JS.isFinite (S754_finite false m e)) || le (S754_finite false m e) (ofZ 0))
        with false. cbv iota.
      pose proof (mul_075_finite m e Hwf) as Hfin.
      pose proof (Math_round_nearest _ (mul_small (S754_finite false m e) (dec 75 2))) as Hn.
      destruct (mul (S754_finite false m e) (dec 75 2)) as [s'|s'| |s' m' e'] eqn:Ep;
        cbn [finite_signed] in Hfin; try contradiction.
      * destruct Hn as [z [Hz Hi]]. exists z. split; [cbn [nearest_int] in Hz; lia|].
        split; [exact Hi|]. intros [H|H]; discriminate H.
      * destruct Hn as [z [Hz Hi]]. exists z.
        split; [apply (nearest_int_nonneg (S754_finite s' m' e') z); [exact Hfin|exact Hz]|].
        split; [exact Hi|]. intros [H|H]; discriminate H.
Qed.

Lemma computeAdjustedImprovement_range_witness :
  wf (dec 496 1)
  /\ exists z : Z,
       0 <= z /\ intValue (computeAdjustedImprovement (dec 496 1)) = Some z
       /\ (JS.isFinite (dec 496 1) = false \/ le (dec 496 1) (ofZ 0) = true -> z = 0).
Proof.
  split; [reflexivity|]. apply (computeAdjustedImprovement_range (dec 496 1)). reflexivity.
Defined.

(** ** Audience sentiment *)

Import Audience.

Lemma improvement_scoreOnly (numberToString : number -> string) (s : SentimentCategory) :
  improvement (suggestionFor numberToString s)
  = improvement (suggestionFor (fun _ => EmptyString) (scoreOnly (score s))).
Proof.
  unfold suggestionFor, scoreOnly. cbn [score].
  destruct (le (ofZ 70) (score s)); [reflexivity|].
  destruct (le (ofZ 45) (score s)); reflexivity.
Qed.

Lemma computeAudienceSuggestions_map (numberToString : number -> string)
    (l : list SentimentCategory) :
  computeAudienceSuggestions numberToString l = map (suggestionFor numberToString) l.
Proof.
  unfold computeAudienceSuggestions.
  assert (G : forall acc, fold_left (fun suggestions s => suggestions ++ [suggestionFor numberToString s]) l acc
                          = acc ++ map (suggestionFor numberToString) l).
  { induction l as [|s l IH]; intros acc; cbn [fold_left map].
    - now rewrite app_nil_r.
    - rewrite IH, <- app_assoc. reflexivity. }
  apply (G []).
Qed.

Lemma suggested_check :
  forallb (fun k => number_eqb (improvement (suggestionFor (fun _ => EmptyString) (scoreOnly (ofZ k))))
                      (ofZ (suggestedZ k)))
    (Zrange 0 100) = true.
Proof. vm_compute. reflexivity. Qed.

Lemma suggestedZ_range (k : Z) : 0 <= k <= 100 -> 1 <= suggestedZ k <= 6.
Proof.
  intros Hk. unfold suggestedZ.
  destruct (70 <=? k) eqn:E1; [|destruct (45 <=? k) eqn:E2].
  - assert ((6 * k + 50) / 100 < 7) by (apply Z.div_lt_upper_bound; lia). lia.
  - assert ((3 * k + 50) / 100 < 7) by (apply Z.div_lt_upper_bound; lia). lia.
  - assert ((2 * k + 50) / 100 < 7) by (apply Z.div_lt_upper_bound; lia). lia.
Qed.

Lemma suggestedZ_mono (k k' : Z) : 0 <= k <= k' -> k' <= 100 -> suggestedZ k <= suggestedZ k'.
Proof.
  intros Hk Hk'. unfold suggestedZ.
  assert (D6 : forall x y, x <= y -> (6 * x + 50) / 100 <= (6 * y + 50) / 100)
    by (intros; apply Z.div_le_mono; lia).
  assert (D3 : forall x y, x <= y -> (3 * x + 50) / 100 <= (3 * y + 50) / 100)
    by (intros; apply Z.div_le_mono; lia).
  assert (D2 : forall x y, x <= y -> (2 * x + 50) / 100 <= (2 * y + 50) / 100)
    by (intros; apply Z.div_le_mono; lia).
  destruct (70 <=? k) eqn:E1, (70 <=? k') eqn:E1';
    try (apply Z.leb_le in E1); try (apply Z.leb_gt in E1);
    try (apply Z.leb_le in E1'); try (apply Z.leb_gt in E1'); try lia.
  - pose proof (D6 k k'). lia.
  - assert (L : 4 <= (6 * k' + 50) / 100) by (apply Z.div_le_lower_bound; lia).
    assert (U3 : (3 * k + 50) / 100 < 3) by (apply Z.div_lt_upper_bound; lia).
    assert (U2 : (2 * k + 50) / 100 < 2) by (apply Z.div_lt_upper_bound; lia).
    destruct (45 <=? k); lia.
  - destruct (45 <=? k) eqn:E2, (45 <=? k') eqn:E2';
      try (apply Z.leb_le in E2); try (apply Z.leb_gt in E2);
      try (apply Z.leb_le in E2'); try (apply Z.leb_gt in E2'); try lia.
    + pose proof (D3 k k'). lia.
    + assert (U2 : (2 * k + 50) / 100 < 2) by (apply Z.div_lt_upper_bound; lia). lia.
    + pose proof (D2 k k'). lia.
Qed.

Lemma improvement_percent (numberToString : number -> string) (s : SentimentCategory) (k : Z) :
  score s = ofZ k -> 0 <= k <= 100 ->
  improvement (suggestionFor numberToString s) = ofZ (suggestedZ k).
Proof.
  intros E Hk. rewrite improvement_scoreOnly, E.
  apply number_eqb_eq. apply (forall_Zrange _ 0 100 suggested_check k Hk).
Qed.

(** X15. [computeAudienceSuggestions] returns one suggestion per
    category, in order; for a score of [k] percent (an integer from 0 to
    100) its improvement is the integer [suggestedZ k], between 1 and 6. *)
Theorem suggestions_on_percent_scores (numberToString : number -> string)
    (sentiments : list SentimentCategory) :
  Forall (fun s => exists k, 0 <= k <= 100 /\ score s = ofZ k) sentiments ->
  Forall2 (fun s sg =>
             exists k, score s = ofZ k /\ improvement sg = ofZ (suggestedZ k)
                       /\ 1 <= suggestedZ k <= 6)
    sentiments (computeAudienceSuggestions numberToString sentiments).
Proof.
  intros H. rewrite computeAudienceSuggestions_map.
  induction H as [|s l [k [Hk E]] _ IH]; cbn [map]; constructor; [|exact IH].
  exists k. split; [exact E|]. split; [apply improvement_percent; assumption|].
  apply suggestedZ_range, Hk.
Qed.

Lemma suggestions_on_percent_scores_witness :
  Forall (fun s => exists k, 0 <= k <= 100 /\ score s = ofZ k) initialAudienceSentiment
  /\ Forall2 (fun s sg =>
                exists k, score s = ofZ k /\ improvement sg = ofZ (suggestedZ k)
                          /\ 1 <= suggestedZ k <= 6)
       initialAudienceSentiment
       (computeAudienceSuggestions (fun _ => EmptyString) initialAudienceSentiment).
Proof.
  assert (H : Forall (fun s => exists k, 0 <= k <= 100 /\ score s = ofZ k)
                initialAudienceSentiment).
  { repeat constructor.
    - exists 78. split; [lia|reflexivity].
    - exists 42. split; [lia|reflexivity].
    - exists 64. split; [lia|reflexivity].
    - exists 51. split; [lia|reflexivity]. }
  split; [exact H|].
  apply (suggestions_on_percent_scores (fun _ => EmptyString) initialAudienceSentiment H).
Defined.

(** X16. A higher score never earns a smaller suggested improvement. *)
Theorem suggestion_monotone (numberToString : number -> string)
    (s s' : SentimentCategory) (k k' : Z) :
  score s = ofZ k -> score s' = ofZ k' -> 0 <= k <= k' -> k' <= 100 ->
  exists z z' : Z,
    improvement (suggestionFor numberToString s) = ofZ z
    /\ improvement (suggestionFor numberToString s') = ofZ z'
    /\ 1 <= z /\ z <= z' /\ z' <= 6.
Proof.
  intros E E' Hk Hk'. exists (suggestedZ k), (suggestedZ k').
  split; [apply improvement_percent; [exact E|lia]|].
  split; [apply improvement_percent; [exact E'|lia]|].
  pose proof (suggestedZ_range k ltac:(lia)). pose proof (suggestedZ_range k' ltac:(lia)).
  pose proof (suggestedZ_mono k k' Hk Hk'). lia.
Qed.

Lemma suggestion_monotone_witness :
  (score (scoreOnly (ofZ 42)) = ofZ 42 /\ score (scoreOnly (ofZ 64)) = ofZ 64
   /\ 0 <= 42 <= 64 /\ 64 <= 100)
  /\ exists z z' : Z,
       improvement (suggestionFor (fun _ => EmptyString) (scoreOnly (ofZ 42))) = ofZ z
       /\ improvement (suggestionFor (fun _ => EmptyString) (scoreOnly (ofZ 64))) = ofZ z'
       /\ 1 <= z /\ z <= z' /\ z' <= 6.
Proof.
  split; [repeat split; lia|].
  apply (suggestion_monotone (fun _ => EmptyString) (scoreOnly (ofZ 42)) (scoreOnly (ofZ 64))
           42 64); [reflexivity|reflexivity|lia|lia].
Defined.

(** X17. For any score other than [NaN] the suggested improvement is
    at least 1, and at least 2 for a score of 70 and more; a [NaN] score
    gives a [NaN] improvement. *)
Theorem suggestion_floor (numberToString : number -> string) (s : SentimentCategory) :
  (isNaN (score s) = false ->
   le (ofZ 1) (improvement (suggestionFor numberToString s)) = true
   /\ (le (ofZ 70) (score s) = true ->
       le (ofZ 2) (improvement (suggestionFor numberToString s)) = true))
  /\ (isNaN (score s) = true ->
      isNaN (improvement (suggestionFor numberToString s)) = true).
Proof.
  split; [|intros Hn; destruct (score s) eqn:E; try discriminate Hn;
           unfold suggestionFor; rewrite E; reflexivity].
  assert (D6 : dec 6 2 = S754_finite false 8646911284551352 (-57)) by (vm_compute; reflexivity).
  assert (D3 : dec 3 2 = S754_finite false 8646911284551352 (-58)) by (vm_compute; reflexivity).
  assert (D2 : dec 2 2 = S754_finite false 5764607523034235 (-58)) by (vm_compute; reflexivity).
  assert (O1 : ofZ 1 = S754_finite false 4503599627370496 (-52)) by reflexivity.
  assert (O2 : ofZ 2 = S754_finite false 4503599627370496 (-51)) by reflexivity.
  intros Hn. unfold suggestionFor.
  {
    destruct (le (ofZ 70) (score s)) eqn:E70; [|destruct (le (ofZ 45) (score s)) eqn:E45];
      cbn [improvement].
    + assert (H2 : le (ofZ 2) (Math_max (ofZ 2) (Math_round (score s * dec 6 2)%js)) = true).
      { rewrite O2. apply Math_max_floor; [reflexivity|].
        apply Math_round_not_nan. rewrite D6. apply mul_finite_not_nan, Hn. }
      split; [|intros _; exact H2].
      revert H2. generalize (Math_max (ofZ 2) (Math_round (score s * dec 6 2)%js)).
      intros y. rewrite O1, O2. destruct y as [sy|sy| |sy my ey]; intros H2; try discriminate H2.
      * destruct sy; [discriminate H2|reflexivity].
      * destruct sy; [discriminate H2|]. revert H2. unfold le, SFleb, SFcompare.
        destruct (Z.compare_spec (-51) ey), (Z.compare_spec (-52) ey); try lia;
          try discriminate; try reflexivity.
    + split; [|discriminate]. rewrite O1. apply Math_max_floor; [reflexivity|].
      apply Math_round_not_nan. rewrite D3. apply mul_finite_not_nan, Hn.
    + split; [|discriminate]. rewrite O1. apply Math_max_floor; [reflexivity|].
      apply Math_round_not_nan. rewrite D2. apply mul_finite_not_nan, Hn. }
Qed.

Lemma suggestion_floor_witness :
  isNaN (score (scoreOnly (ofZ 78))) = false
  /\ le (ofZ 70) (score (scoreOnly (ofZ 78))) = true
  /\ le (ofZ 1) (improvement (suggestionFor (fun _ => EmptyString) (scoreOnly (ofZ 78)))) = true
  /\ le (ofZ 2) (improvement (suggestionFor (fun _ => EmptyString) (scoreOnly (ofZ 78)))) = true.
Proof.
  split; [reflexivity|]. split; [reflexivity|].
  destruct (suggestion_floor (fun _ => EmptyString) (scoreOnly (ofZ 78))) as [H _].
  destruct (H eq_refl) as [H1 H2].
  split; [exact H1|apply H2; reflexivity].
Defined.

(** A value that [Math.random()] can return: a number of [[0, 1)]. *)
Lemma unit_interval (r : number) :
  wf r -> le (ofZ 0) r = true -> lt r (ofZ 1) = true ->
  (exists s, r = S754_zero s)
  \/ exists m e, r = S754_finite false m e /\ e <= -53 /\ Zpos m < 2 ^ 53.
Proof.
  intros Hwf H0 H1. destruct r as [s|s| |s m e].
  - left. exists s. reflexivity.
  - destruct s; discriminate.
  - discriminate.
  - right. destruct s; [discriminate|]. exists m, e. split; [reflexivity|].
    pose proof (wf_small _ Hwf) as Hm. cbn [small] in Hm. split; [|exact Hm].
    change (ofZ 1) with (S754_finite false 4503599627370496 (-52)) in H1.
    unfold lt, SFltb, SFcompare in H1.
    destruct (Z.compare_spec e (-52)) as [E|E|E]; try discriminate; [|lia].
    exfalso. subst e.
    pose proof (wf_digits_normal false m (-52) Hwf ltac:(lia)) as Hd.
    pose proof (digits2_bounds m) as [Hlo _]. rewrite Hd in Hlo.
    change (2 ^ (53 - 1)) with 4503599627370496 in Hlo.
    destruct (Pos.compare_cont Eq m 4503599627370496) eqn:C; try discriminate.
    apply (proj1 (Pos.compare_lt_iff m 4503599627370496)) in C.
    apply Pos2Z.pos_lt_pos in C. lia.
Qed.

Lemma dec_5_1 : dec 5 1 = S754_finite false 4503599627370496 (-53).
Proof. vm_compute. reflexivity. Qed.

(** The distance of a number of [[0, 1)] from one half. *)
Lemma sub_half_Q (r : number) :
  wf r -> le (ofZ 0) r = true -> lt r (ofZ 1) = true ->
  let x := sub r (dec 5 1) in
  ((exists s, x = S754_zero s)
   \/ exists sx mf ef, x = S754_finite sx mf ef /\ ef <= -52 /\ Zpos mf < 2 ^ 53)
  /\ (Qmag x <= (1 # 2) + pow2 (-53))%Q.
Proof.
  intros Hwf H0 H1. rewrite dec_5_1. cbv zeta.
  destruct (unit_interval r Hwf H0 H1) as [[s ->]|[m [e [-> [He Hm]]]]].
  - cbn [sub SFsub negb Qmag]. split.
    + right. exists true, 4503599627370496%positive, (-53). repeat split; lia.
    + change (pow2 (-53)) with (1 # 9007199254740992)%Q.
      change (inject_Z 4503599627370496 * (1 # 9007199254740992) <= (1 # 2) + (1 # 9007199254740992))%Q.
      unfold Qle; simpl; lia.
  - unfold sub, SFsub. cbn [cond_Zopp].
    replace (Z.min e (-53)) with e by lia.
    pose proof (shl_align_spec m e e) as [_ Va].
    pose proof (shl_align_spec 4503599627370496 (-53) e) as [_ Vb].
    replace (Z.min e e) with e in Va by lia. replace (Z.min (-53) e) with e in Vb by lia.
    rewrite Z.sub_diag, Z.pow_0_r, Z.mul_1_r in Va.
    set (A := Zpos (fst (shl_align m e e))) in *.
    set (B := Zpos (fst (shl_align 4503599627370496 (-53) e))) in *.
    assert (Hk : 0 <= -53 - e) by lia.
    assert (Hpk : 0 < 2 ^ (-53 - e)) by (apply Z.pow_pos_nonneg; lia).
    assert (HA : A < 2 * B).
    { rewrite Va, Vb. change (Zpos 4503599627370496) with (2 ^ 52).
      change (2 ^ 53) with (2 * 2 ^ 52) in Hm. nia. }
    (* the exact difference has magnitude at most one half *)
    assert (Hhalf : (inject_Z B * pow2 e == 1 # 2)%Q).
    { rewrite Vb, inject_Z_mult, <- (pow2_Z (-53 - e) Hk), <- Qmult_assoc, <- pow2_add.
      replace (-53 - e + e) with (-53) by lia. reflexivity. }
    pose proof (pow2_pos e) as Hpe.
    assert (Habs : forall p, Zpos p = Z.abs (A - B) ->
              (inject_Z (Zpos p) * pow2 e <= 1 # 2)%Q).
    { intros p Hp. rewrite <- Hhalf. apply Qmult_le_compat_r; [|lra].
      rewrite <- Zle_Qle. lia. }
    destruct (A - B) as [|p|p] eqn:D; cbn [binary_normalize].
    + split; [left; exists false; reflexivity|]. cbn [Qmag].
      pose proof (pow2_pos (-53)). lra.
    + pose proof (Habs p eq_refl) as Hv.
      destruct (binary_round_Q2 false p e 0 (-53)) as [Hsh [_ Hb]]; try lia.
      { change (pow2 0) with 1%Q. lra. }
      split; [|lra].
      destruct Hsh as [Hz|[mf [ef [Er [Hef Hmf]]]]];
        [left; exists false; exact Hz|right].
      exists false, mf, ef. split; [exact Er|]. split; lia.
    + pose proof (Habs p eq_refl) as Hv.
      destruct (binary_round_Q2 true p e 0 (-53)) as [Hsh [_ Hb]]; try lia.
      { change (pow2 0) with 1%Q. lra. }
      split; [|lra].
      destruct Hsh as [Hz|[mf [ef [Er [Hef Hmf]]]]];
        [left; exists true; exact Hz|right].
      exists true, mf, ef. split; [exact Er|]. split; lia.
Qed.

(** The jitter of one refresh: an integer between -6 and 6, or a zero. *)
Lemma jitter_range (random : number) :
  wf random -> le (ofZ 0) random = true -> lt random (ofZ 1) = true ->
  exists j : Z,
    -6 <= j <= 6
    /\ (Math_round ((random - dec 5 1) * ofZ 12)%js = ofZ j
        \/ (j = 0 /\ exists s, Math_round ((random - dec 5 1) * ofZ 12)%js = S754_zero s)).
Proof.
  intros Hwf H0 H1.
  destruct (sub_half_Q random Hwf H0 H1) as [Hx Hb]. cbv zeta in Hx, Hb.
  set (x := sub random (dec 5 1)) in *.
  change (pow2 (-53)) with (1 # 9007199254740992)%Q in Hb.
  change (ofZ 12) with (S754_finite false 6755399441055744 (-49)).
  destruct Hx as [[s ->]|[sx [mf [ef [-> [Hef Hmf]]]]]].
  - exists 0. split; [lia|]. right. split; [reflexivity|].
    exists (xorb s false). reflexivity.
  - pose proof (mul_Q sx false mf 6755399441055744 ef (-49) 3 (-50)) as H.
    cbv zeta in H.
    assert (E12 : (Qmag (S754_finite false 6755399441055744 (-49)) == 12)%Q) by reflexivity.
    set (xv := Qmag (S754_finite sx mf ef)) in *.
    assert (Hxv : (0 <= xv)%Q).
    { unfold xv. cbn [Qmag]. pose proof (pow2_pos ef).
      apply Qmult_le_0_compat; [|lra]. change 0%Q with (inject_Z 0). rewrite <- Zle_Qle. lia. }
    rewrite E12 in H. change (pow2 3) with 8%Q in H. change (pow2 (-50)) with (1 # 1125899906842624)%Q in H.
    destruct H as [Hsh [_ Hub]]; try lia; [lra|].
    set (y := mul (S754_finite sx mf ef) (S754_finite false 6755399441055744 (-49))) in *.
    destruct Hsh as [Hz|[mf' [ef' [Ey [Hef' Hmf']]]]].
    + exists 0. split; [lia|]. right. split; [reflexivity|]. rewrite Hz.
      exists (xorb sx false). reflexivity.
    + rewrite Ey in *.
      destruct (Math_round_signed (xorb sx false) mf' ef' ltac:(lia) Hmf') as [z [Ez [Hz Hzb]]].
      assert (Hz6 : Z.abs z <= 6).
      { assert (X : (inject_Z (Z.abs z) < inject_Z 7)%Q).
        { change (inject_Z 7) with 7%Q. lra. }
        rewrite <- Zlt_Qlt in X. lia. }
      exists z. split; [lia|]. rewrite Ez.
      destruct (z =? 0) eqn:Ez0.
      * right. apply Z.eqb_eq in Ez0. split; [exact Ez0|]. eexists. reflexivity.
      * left. reflexivity.
Qed.

(** One category after a refresh. *)
Lemma refreshed_percent (random : number) (s : SentimentCategory) (a : Z) :
  wf random -> le (ofZ 0) random = true -> lt random (ofZ 1) = true ->
  score s = ofZ a -> 0 <= a <= 100 ->
  exists j : Z,
    -6 <= j <= 6
    /\ score (refreshed random s) = ofZ (Z.min 100 (Z.max 0 (a + j)))
    /\ trend (refreshed random s)
       = (if 3 <? j then up else if j <? -3 then down else flat)
    /\ category (refreshed random s) = category s
    /\ topTerms (refreshed random s) = topTerms s.
Proof.
  intros Hwf H0 H1 Ea Ha.
  destruct (jitter_range random Hwf H0 H1) as [j [Hj HJ]].
  exists j. split; [exact Hj|].
  assert (P : 200 < 2 ^ 53) by (apply Z.ltb_lt; reflexivity).
  unfold refreshed. cbn [score trend category topTerms]. rewrite Ea.
  destruct HJ as [->|[-> [sz ->]]].
  - rewrite add_ofZ_signed by lia.
    rewrite (Math_max_ofZ 0 (a + j)) by lia.
    rewrite (Math_min_ofZ 100 (Z.max 0 (a + j))) by lia.
    unfold gt. rewrite !lt_ofZ by lia. repeat split.
  - rewrite add_ofZ_zero by lia. rewrite Z.add_0_r.
    rewrite (Math_max_ofZ 0 a) by lia.
    rewrite (Math_min_ofZ 100 (Z.max 0 a)) by lia.
    unfold gt. rewrite (lt_ofZ_zero_r 3) by lia. rewrite (lt_ofZ_zero_l (-3)) by lia.
    repeat split.
Qed.

(** X18. One refresh moves an integer percentage by an integer of at
    most 6 either way and clamps it to [[0, 100]]; the trend is [up] for a
    move of 4 and more, [down] for -4 and less. *)
Theorem refreshed_by_at_most_six (random : number) (s : SentimentCategory) (a : Z) :
  unitRandom random -> score s = ofZ a -> 0 <= a <= 100 ->
  exists j b : Z,
    -6 <= j <= 6 /\ b = Z.min 100 (Z.max 0 (a + j))
    /\ score (refreshed random s) = ofZ b
    /\ trend (refreshed random s)
       = (if 3 <? j then up else if j <? -3 then down else flat).
Proof.
  intros [Hwf [H0 H1]] E Ha.
  destruct (refreshed_percent random s a Hwf H0 H1 E Ha) as [j [Hj [Es [Et _]]]].
  exists j, (Z.min 100 (Z.max 0 (a + j))). repeat split; try lia; assumption.
Qed.

Lemma refreshed_by_at_most_six_witness :
  (unitRandom (dec 25 2) /\ score (scoreOnly (ofZ 78)) = ofZ 78 /\ 0 <= 78 <= 100)
  /\ exists j b : Z,
       -6 <= j <= 6 /\ b = Z.min 100 (Z.max 0 (78 + j))
       /\ score (refreshed (dec 25 2) (scoreOnly (ofZ 78))) = ofZ b
       /\ trend (refreshed (dec 25 2) (scoreOnly (ofZ 78)))
          = (if 3 <? j then up else if j <? -3 then down else flat).
Proof.
  assert (H : unitRandom (dec 25 2)) by (repeat split).
  split; [split; [exact H|split; [reflexivity|lia]]|].
  apply (refreshed_by_at_most_six (dec 25 2) (scoreOnly (ofZ 78)) 78 H); [reflexivity|lia].
Defined.

Lemma mapRefreshed_percent (random : nat -> number) (l : list SentimentCategory) (i : nat) :
  (forall n, unitRandom (random n)) -> Forall percentScore l ->
  Forall percentScore (mapRefreshed random i l)
  /\ map category (mapRefreshed random i l) = map category l.
Proof.
  intros Hr Hl. revert i. induction Hl as [|s l [k [Hk E]] _ IH]; intros i; cbn [mapRefreshed map].
  - split; [constructor|reflexivity].
  - destruct (IH (S i)) as [IH1 IH2].
    destruct (Hr i) as [Hwf [H0 H1]].
    destruct (refreshed_percent (random i) s k Hwf H0 H1 E Hk) as [j [Hj [Es [_ [Ec _]]]]].
    split.
    + constructor; [|exact IH1]. exists (Z.min 100 (Z.max 0 (k + j))). split; [lia|exact Es].
    + rewrite Ec, IH2. reflexivity.
Qed.

(** X19. [refreshAudienceSentiment] keeps the scores integer
    percentages and the categories in place, and the suggestions it stores
    are one per category, each with an improvement between 1 and 6. *)
Theorem refresh_keeps_percentages (numberToString : number -> string)
    (random : nat -> number) (st : AudienceState) :
  (forall n, unitRandom (random n)) ->
  Forall percentScore (audienceSentiment st) ->
  let st' := refreshAudienceSentiment numberToString random st in
  Forall percentScore (audienceSentiment st')
  /\ map category (audienceSentiment st') = map category (audienceSentiment st)
  /\ Forall2 (fun s sg => exists z, 1 <= z <= 6 /\ improvement sg = ofZ z)
       (audienceSentiment st') (audienceSuggestions st').
Proof.
  intros Hr Hs. cbv zeta. unfold refreshAudienceSentiment.
  cbn [audienceSentiment audienceSuggestions].
  destruct (mapRefreshed_percent random (audienceSentiment st) 0 Hr Hs) as [H1 H2].
  split; [exact H1|]. split; [exact H2|].
  rewrite computeAudienceSuggestions_map. clear H2.
  induction H1 as [|s l [k [Hk E]] _ IH]; cbn [map]; constructor.
  - exists (suggestedZ k). split; [apply suggestedZ_range, Hk|].
    apply improvement_percent; assumption.
  - exact IH.
Qed.

Lemma refresh_keeps_percentages_witness :
  ((forall n : nat, unitRandom ((fun _ => dec 25 2) n))
   /\ Forall percentScore (audienceSentiment (initialAudienceState (fun _ => EmptyString))))
  /\ let st' :=
       refreshAudienceSentiment (fun _ => EmptyString) (fun _ => dec 25 2)
         (initialAudienceState (fun _ => EmptyString)) in
     Forall percentScore (audienceSentiment st')
     /\ map category (audienceSentiment st')
        = map category (audienceSentiment (initialAudienceState (fun _ => EmptyString)))
     /\ Forall2 (fun s sg => exists z, 1 <= z <= 6 /\ improvement sg = ofZ z)
          (audienceSentiment st') (audienceSuggestions st').
Proof.
  assert (H1 : forall n : nat, unitRandom ((fun _ => dec 25 2) n)) by (intros n; repeat split).
  assert (H2 : Forall percentScore
                 (audienceSentiment (initialAudienceState (fun _ => EmptyString)))).
  { repeat constructor.
    - exists 78. split; [lia|reflexivity].
    - exists 42. split; [lia|reflexivity].
    - exists 64. split; [lia|reflexivity].
    - exists 51. split; [lia|reflexivity]. }
  split; [split; [exact H1|exact H2]|].
  apply (refresh_keeps_percentages (fun _ => EmptyString) (fun _ => dec 25 2)
           (initialAudienceState (fun _ => EmptyString)) H1 H2).
Defined.

(** ** Creative variants *)

Import Creative.

Lemma Zrange_snoc (n : Z) : 0 <= n -> Zrange 1 (n + 1) = Zrange 1 n ++ [n + 1].
Proof.
  intros Hn. unfold Zrange.
  replace (Z.to_nat (n + 1 - 1 + 1)) with (S (Z.to_nat (n - 1 + 1))) by lia.
  rewrite seq_S, map_app. cbn [map Nat.add]. f_equal. f_equal. lia.
Qed.

Lemma NoDup_map_in {A B : Type} (f : A -> B) (l : list A) :
  (forall x y, In x l -> In y l -> f x = f y -> x = y) -> NoDup l -> NoDup (map f l).
Proof.
  intros Hinj Hl. induction Hl as [|x l Hx Hl IH]; cbn [map]; constructor.
  - intros Hin. apply in_map_iff in Hin. destruct Hin as [y [E Hy]].
    apply Hx. rewrite (Hinj x y); [exact Hy|left; reflexivity|right; exact Hy|].
    symmetry. exact E.
  - apply IH. intros a b Ha Hb. apply Hinj; right; assumption.
Qed.

(** X20. After any number of calls of [generateVariant], each made on
    the list the one before left, the ids of the variants are 1, 2, 3,
    ... in order, hence pairwise different. *)
Theorem variant_ids_consecutive (numberToString : number -> string) (n : nat) :
  Z.of_nat n + 2 < 2 ^ 53 ->
  let variants := Nat.iter n (generateVariant numberToString) initialVariants in
  map id variants = map ofZ (Zrange 1 (Z.of_nat n + 2))
  /\ NoDup (map id variants).
Proof.
  intros Hn. cbv zeta.
  assert (H : map id (Nat.iter n (generateVariant numberToString) initialVariants)
              = map ofZ (Zrange 1 (Z.of_nat n + 2))
              /\ List.length (Nat.iter n (generateVariant numberToString) initialVariants)
                 = (n + 2)%nat).
  { induction n as [|n IH].
    - split; reflexivity.
    - destruct IH as [IH1 IH2]; [lia|].
      rewrite Nat.iter_succ.
      set (vs := Nat.iter n (generateVariant numberToString) initialVariants) in *.
      unfold generateVariant. cbv zeta.
      rewrite map_app, length_app, IH1, IH2. cbn [map id List.length].
      split; [|lia].
      rewrite add_ofZ by lia.
      replace (Z.of_nat (S n) + 2) with ((Z.of_nat n + 2) + 1) by lia.
      rewrite Zrange_snoc by lia. rewrite map_app. cbn [map].
      do 3 f_equal. lia. }
  destruct H as [H _]. split; [exact H|]. rewrite H.
  apply NoDup_map_in.
  - intros a b Ia Ib E. unfold Zrange in Ia, Ib.
    apply in_map_iff in Ia. destruct Ia as [i [<- Hi]]. apply in_seq in Hi.
    apply in_map_iff in Ib. destruct Ib as [i' [<- Hi']]. apply in_seq in Hi'.
    apply intValue_inj in E; lia.
  - unfold Zrange. apply NoDup_map_in; [|apply seq_NoDup].
    intros x y _ _. lia.
Qed.

Lemma variant_ids_consecutive_witness :
  Z.of_nat 3 + 2 < 2 ^ 53
  /\ let variants := Nat.iter 3 (generateVariant (fun _ => EmptyString)) initialVariants in
     map id variants = map ofZ (Zrange 1 (Z.of_nat 3 + 2))
     /\ NoDup (map id variants).
Proof.
  split; [reflexivity|]. apply (variant_ids_consecutive (fun _ => EmptyString) 3). reflexivity.
Defined.
